(** * Sanity checks for perturbation saliency maps: a model of
      [sanity_checks/sanity_checks_main.py]

    The script loads a trained Atari agent, derives five copies of it whose
    layers are re-initialised in cascade, replays one episode with the
    decisions of the trained agent, and compares the saliency map of every
    copy (and of two random images) with that of the trained agent.

    The embedding is shallow.  Every Python statement is a state transformer
    on [St]; statements are sequenced in [prog], a small resumption monad, so
    that a program can be run ([exec]) and its intermediate states can be
    listed ([points]).  Mutable Python objects live in stores of [St]:
    numpy buffers in [heap], keras models in [models], [explainer] objects in
    [analyzers].  The external libraries (gym, keras, scipy, skimage, the
    explanation methods) are the fields of the class [Externals]; they are
    total functions of their arguments and of the random state they consume.

    Numbers: a finite float is a rational, so array elements are [Q] and the
    arithmetic of numpy is taken exact (rounding is not modelled).  A
    correlation score is a finite value or NaN. *)

From Stdlib Require Import ZArith QArith Qminmax List Ascii String Lia Lqa.
From stdpp Require Import base option list gmap pmap strings.

Local Open Scope Q_scope.

(** ** Scores and the builtin [max] *)

Inductive score : Type :=
| NaN
| Fin (q : Q).

Definition Qlt_bool (x y : Q) : bool := negb (Qle_bool y x).

(** [b > a] on floats: every comparison with NaN is false. *)
Definition score_gt (b a : score) : bool :=
  match b, a with
  | Fin y, Fin x => Qlt_bool x y
  | _, _ => false
  end.

(** Python's [max(a, b)]: the first argument unless the second is greater. *)
Definition py_max (a b : score) : score :=
  if score_gt b a then b else a.

(** ** Array contents *)

(** What [get_weights] and the explanation methods hand over: a shape and
    the elements in row-major order. *)
Record tensor : Type := mkTensor {
  t_shape : list nat;
  t_data : list Q
}.

(** An [ndarray] object: a view with its own shape on a buffer of [heap]. *)
Record ndarray : Type := mkArr {
  buf : positive;
  shape : list nat
}.

Definition data_at (h : Pmap (list Q)) (a : ndarray) : list Q :=
  match h !! buf a with
  | Some d => d
  | None => []
  end.

(** [a.min()] and [a.max()]: numpy raises ValueError on a zero-size array. *)
Definition data_min (d : list Q) : option Q :=
  match d with
  | [] => None
  | x :: r => Some (fold_left Qmin r x)
  end.

Definition data_max (d : list Q) : option Q :=
  match d with
  | [] => None
  | x :: r => Some (fold_left Qmax r x)
  end.

Definition data_sub (d : list Q) (c : Q) : list Q := map (fun x => x - c) d.
Definition data_div (d : list Q) (c : Q) : list Q := map (fun x => x / c) d.
Definition data_rsub (c : Q) (d : list Q) : list Q := map (fun x => c - x) d.

(** [np.argmax]: the index of the first occurrence of the maximum. *)
Fixpoint argmax_from (best : Q) (best_i i : Z) (l : list Q) : Z :=
  match l with
  | [] => best_i
  | x :: r =>
      if Qlt_bool best x then argmax_from x i (i + 1)%Z r
      else argmax_from best best_i (i + 1)%Z r
  end.

Definition np_argmax (l : list Q) : option Z :=
  match l with
  | [] => None
  | x :: r => Some (argmax_from x 0%Z 1%Z r)
  end.

(** [np.squeeze] on a shape: the axes of length one are dropped. *)
Definition squeeze_shape (s : list nat) : list nat :=
  filter (fun n => n <> 1%nat) s.

(** [(a == b).all()] on two weight arrays.  Shapes that differ do not
    compare elementwise: the comparison yields a plain [False], which has no
    [all] method. *)
Fixpoint data_all_eq (a b : list Q) : bool :=
  match a, b with
  | [], [] => true
  | x :: a', y :: b' => Qeq_bool x y && data_all_eq a' b'
  | _, _ => false
  end.

Definition shape_eqb (s1 s2 : list nat) : bool :=
  bool_decide (s1 = s2).

Definition tensor_all_eq (a b : tensor) : option bool :=
  if shape_eqb (t_shape a) (t_shape b)
  then Some (data_all_eq (t_data a) (t_data b))
  else None.

(** ** Keras models, analyzers, tables *)

(** A layer is what [get_weights] returns for it, a model is its layers by
    structural index. *)
Abbreviation Layer := (list tensor).
Abbreviation Model := (list (list tensor)).

(** The fields of an [explainer] object this script reads and writes. *)
Record Analyzer : Type := mkAnalyzer {
  an_model : nat;
  rise_masks : option nat;
  masks_generated : bool
}.

Inductive method : Type :=
| Greydanus
| Occlusion
| Rise
| Lime
| Sarfa.

Inductive column : Type :=
| ColInt (l : list Z)
| ColScore (l : list score).

Definition column_length (c : column) : nat :=
  match c with
  | ColInt l => length l
  | ColScore l => length l
  end.

(** A pandas DataFrame: the declared column labels, the length of the index
    and the columns assigned so far. *)
Record DataFrame : Type := mkDF {
  df_columns : list string;
  df_len : nat;
  df_data : gmap string column
}.

Inductive exn : Type :=
| NameError
| ValueError
| IndexError
| AttributeError.

Inductive line : Type :=
| PLayer (i : nat)
| PBool (b : bool)
| PInt (n : nat)
| PSummary (m : nat)
| PTime.

(** References to the three list objects handed to [calc_sim]. *)
Inductive lref : Type :=
| PearsonL
| SsimL
| SpearmanL.

(** [posixpath.join] for two components. *)
Definition starts_with_sep (s : string) : bool :=
  match s with
  | String c _ => bool_decide (c = "/"%char)
  | EmptyString => false
  end.

Fixpoint ends_with_sep (s : string) : bool :=
  match s with
  | EmptyString => false
  | String c EmptyString => bool_decide (c = "/"%char)
  | String _ r => ends_with_sep r
  end.

Definition path_join (a b : string) : string :=
  if starts_with_sep b then b
  else if bool_decide (a = EmptyString) || ends_with_sep a then (a ++ b)%string
  else (a ++ "/" ++ b)%string.

(** ** The external libraries *)

Class Externals : Type := {
  Frames : Type;       (* stacked frames, as [wrapper.step] returns them *)
  Env : Type;          (* the emulator behind [env] and [wrapper] *)
  Rng : Type;          (* numpy's global generator *)
  Session : Type;      (* the randomness of the keras session *)
  Masks : Type;        (* a set of sampling masks *)
  Kwargs : Type;       (* the keyword arguments of the approach *)
  (* keras *)
  load_model : string -> Model;
  clone_weights : Model -> Session -> Model * Session;
  init_values : nat -> nat -> list nat -> Session -> list Q * Session;
  predict : Model -> Frames -> list Q;
  (* gym and the atari wrapper *)
  gym_make : string -> Env;
  env_reset : Env -> Env;
  atari_wrapper : Env -> Env;
  set_fire_reset : Env -> Env;
  wrapper_reset : Z -> Env -> Env;
  fixed_reset : Z -> Z -> Env -> Env;
  action_space_sample : Env -> Z * Env;
  wrapper_step : Z -> Env -> Frames * Env;
  env_close : Env -> Env;
  (* numpy *)
  np_expand_dims : Frames -> Frames;
  np_squeeze_frames : Frames -> Frames;
  np_random_seed : Z -> Rng;
  np_random_rand : list nat -> Rng -> list Q * Rng;
  np_random_normal : list nat -> Rng -> list Q * Rng;
  (* the explanation methods of [explainer] *)
  explanation :
    method -> Kwargs -> Model -> Frames -> option Z -> Rng -> tensor * Rng;
  generate_masks : Kwargs -> Rng -> Masks * Rng;
  rise_explanation : Kwargs -> Model -> Masks -> Frames -> option Z -> tensor;
  (* scipy and skimage *)
  spearmanr : list Q -> list Q -> score * score;
  ssim : Q -> list Q -> list Q -> score;
  hog : nat * nat -> tensor -> list Q;
  pearsonr : list Q -> list Q -> score * score
}.

Declare Scope stmt_scope.
Delimit Scope stmt_scope with stmt.
Declare Scope prog_scope.
Delimit Scope prog_scope with prog.

Section Program.

Context {E : Externals}.

(** The calls whose order and arguments the properties below speak about. *)
Inductive event : Type :=
| EvClone (src dst : nat)
| EvInit (m idx : nat)
| EvPredict (m : nat) (x : Frames)
| EvMasks (an mk : nat)
| EvExplain (an : nat) (x : Frames) (a : option Z) (mk : option nat)
| EvRandom (gaussian : bool)
| EvCalcSim (learned random : ndarray)
| EvStep (a : Z)
| EvToCsv (path : string).

Record St : Type := mkSt {
  heap : Pmap (list Q);
  next_buf : positive;
  models : list Model;
  analyzers : list Analyzer;
  mask_store : list Masks;
  np_rng : Rng;
  session : Session;
  emulator : option Env;
  console : list line;
  log : list event;
  files : gmap string DataFrame;
  pearson_list : list score;
  ssim_list : list score;
  spearman_list : list score;
  model_list : list Z;
  action_list : list Z
}.

Definition set_heap (v : Pmap (list Q)) (st : St) : St :=
  mkSt v (next_buf st) (models st) (analyzers st) (mask_store st) (np_rng st)
    (session st) (emulator st) (console st) (log st) (files st)
    (pearson_list st) (ssim_list st) (spearman_list st) (model_list st)
    (action_list st).

Definition set_next_buf (v : positive) (st : St) : St :=
  mkSt (heap st) v (models st) (analyzers st) (mask_store st) (np_rng st)
    (session st) (emulator st) (console st) (log st) (files st)
    (pearson_list st) (ssim_list st) (spearman_list st) (model_list st)
    (action_list st).

Definition set_models (v : list Model) (st : St) : St :=
  mkSt (heap st) (next_buf st) v (analyzers st) (mask_store st) (np_rng st)
    (session st) (emulator st) (console st) (log st) (files st)
    (pearson_list st) (ssim_list st) (spearman_list st) (model_list st)
    (action_list st).

Definition set_analyzers (v : list Analyzer) (st : St) : St :=
  mkSt (heap st) (next_buf st) (models st) v (mask_store st) (np_rng st)
    (session st) (emulator st) (console st) (log st) (files st)
    (pearson_list st) (ssim_list st) (spearman_list st) (model_list st)
    (action_list st).

Definition set_mask_store (v : list Masks) (st : St) : St :=
  mkSt (heap st) (next_buf st) (models st) (analyzers st) v (np_rng st)
    (session st) (emulator st) (console st) (log st) (files st)
    (pearson_list st) (ssim_list st) (spearman_list st) (model_list st)
    (action_list st).

Definition set_np_rng (v : Rng) (st : St) : St :=
  mkSt (heap st) (next_buf st) (models st) (analyzers st) (mask_store st) v
    (session st) (emulator st) (console st) (log st) (files st)
    (pearson_list st) (ssim_list st) (spearman_list st) (model_list st)
    (action_list st).

Definition set_session (v : Session) (st : St) : St :=
  mkSt (heap st) (next_buf st) (models st) (analyzers st) (mask_store st)
    (np_rng st) v (emulator st) (console st) (log st) (files st)
    (pearson_list st) (ssim_list st) (spearman_list st) (model_list st)
    (action_list st).

Definition set_emulator (v : option Env) (st : St) : St :=
  mkSt (heap st) (next_buf st) (models st) (analyzers st) (mask_store st)
    (np_rng st) (session st) v (console st) (log st) (files st)
    (pearson_list st) (ssim_list st) (spearman_list st) (model_list st)
    (action_list st).

Definition set_console (v : list line) (st : St) : St :=
  mkSt (heap st) (next_buf st) (models st) (analyzers st) (mask_store st)
    (np_rng st) (session st) (emulator st) v (log st) (files st)
    (pearson_list st) (ssim_list st) (spearman_list st) (model_list st)
    (action_list st).

Definition set_log (v : list event) (st : St) : St :=
  mkSt (heap st) (next_buf st) (models st) (analyzers st) (mask_store st)
    (np_rng st) (session st) (emulator st) (console st) v (files st)
    (pearson_list st) (ssim_list st) (spearman_list st) (model_list st)
    (action_list st).

Definition set_files (v : gmap string DataFrame) (st : St) : St :=
  mkSt (heap st) (next_buf st) (models st) (analyzers st) (mask_store st)
    (np_rng st) (session st) (emulator st) (console st) (log st) v
    (pearson_list st) (ssim_list st) (spearman_list st) (model_list st)
    (action_list st).

Definition set_pearson_list (v : list score) (st : St) : St :=
  mkSt (heap st) (next_buf st) (models st) (analyzers st) (mask_store st)
    (np_rng st) (session st) (emulator st) (console st) (log st) (files st) v
    (ssim_list st) (spearman_list st) (model_list st) (action_list st).

Definition set_ssim_list (v : list score) (st : St) : St :=
  mkSt (heap st) (next_buf st) (models st) (analyzers st) (mask_store st)
    (np_rng st) (session st) (emulator st) (console st) (log st) (files st)
    (pearson_list st) v (spearman_list st) (model_list st) (action_list st).

Definition set_spearman_list (v : list score) (st : St) : St :=
  mkSt (heap st) (next_buf st) (models st) (analyzers st) (mask_store st)
    (np_rng st) (session st) (emulator st) (console st) (log st) (files st)
    (pearson_list st) (ssim_list st) v (model_list st) (action_list st).

Definition set_model_list (v : list Z) (st : St) : St :=
  mkSt (heap st) (next_buf st) (models st) (analyzers st) (mask_store st)
    (np_rng st) (session st) (emulator st) (console st) (log st) (files st)
    (pearson_list st) (ssim_list st) (spearman_list st) v (action_list st).

Definition set_action_list (v : list Z) (st : St) : St :=
  mkSt (heap st) (next_buf st) (models st) (analyzers st) (mask_store st)
    (np_rng st) (session st) (emulator st) (console st) (log st) (files st)
    (pearson_list st) (ssim_list st) (spearman_list st) (model_list st) v.

(** ** Statements *)

Inductive Res (A : Type) : Type :=
| Ok (a : A) (st : St)
| Raise (e : exn).

Arguments Ok {A} a st.
Arguments Raise {A} e.

(** What one statement does: it returns in a new state or raises. *)
Definition M (A : Type) : Type := St -> Res A.

Definition ret {A} (a : A) : M A := fun st => Ok a st.

Definition bind {A B} (c : M A) (k : A -> M B) : M B :=
  fun st =>
    match c st with
    | Ok a st' => k a st'
    | Raise e => Raise e
    end.

Definition raise {A} (e : exn) : M A := fun _ => Raise e.

Definition gets {A} (f : St -> A) : M A := fun st => Ok (f st) st.

Definition modify (f : St -> St) : M unit := fun st => Ok tt (f st).

(** A name that may be unbound when it is read. *)
Definition name {A} (v : option A) : M A :=
  match v with
  | Some a => ret a
  | None => raise NameError
  end.

Notation "x <- c ;; k" := (bind c (fun x => k))
  (at level 100, c at next level, right associativity) : stmt_scope.
Notation "c ;;; k" := (bind c (fun _ => k))
  (at level 100, right associativity) : stmt_scope.

(** ** Programs *)

(** A program: statements in sequence, each one continuing with the value
    it produced. *)
Inductive prog (R : Type) : Type :=
| Ret (r : R)
| Do {A : Type} (c : M A) (k : A -> prog R).

Arguments Ret {R} r.
Arguments Do {R A} c k.

Fixpoint seq_prog {R S} (p : prog R) (f : R -> prog S) : prog S :=
  match p with
  | Ret r => f r
  | Do c k => Do c (fun a => seq_prog (k a) f)
  end.

Definition stmt {A} (c : M A) : prog A := Do c Ret.

(** Running a program. *)
Fixpoint exec {R} (p : prog R) (st : St) : Res R :=
  match p with
  | Ret r => Ok r st
  | Do c k =>
      match c st with
      | Ok a st' => exec (k a) st'
      | Raise e => Raise e
      end
  end.

(** The states a run goes through: one after each statement it completes. *)
Fixpoint points {R} (p : prog R) (st : St) : list St :=
  match p with
  | Ret _ => []
  | Do c k =>
      match c st with
      | Ok a st' => st' :: points (k a) st'
      | Raise _ => []
      end
  end.

(** [for x in l: body] with the variables the body rebinds passed along. *)
Fixpoint for_each {A S} (l : list A) (body : A -> S -> prog S) (s : S)
  : prog S :=
  match l with
  | [] => Ret s
  | x :: r => seq_prog (body x s) (for_each r body)
  end.

Notation "'do' x <- p ; k" := (seq_prog p (fun x => k))
  (at level 10, x name, p at level 99, k at level 200) : prog_scope.

Local Open Scope stmt_scope.
Local Open Scope prog_scope.

(** ** Statements on numpy arrays *)

(** A new buffer: what every arithmetic operation, [flatten] and every
    array returned by a library allocates. *)
Definition alloc (s : list nat) (d : list Q) : M ndarray :=
  fun st =>
    Ok (mkArr (next_buf st) s)
       (set_next_buf (Pos.succ (next_buf st))
          (set_heap (<[next_buf st := d]> (heap st)) st)).

(** The elements of an array.  Every array of a run has its buffer; a
    reference without one reads as a zero-size array. *)
Definition contents (a : ndarray) : M (list Q) :=
  gets (fun st => data_at (heap st) a).

Definition arr_min (a : ndarray) : M Q :=
  d <- contents a ;;
  match data_min d with
  | Some m => ret m
  | None => raise ValueError
  end.

Definition arr_max (a : ndarray) : M Q :=
  d <- contents a ;;
  match data_max d with
  | Some m => ret m
  | None => raise ValueError
  end.

Definition arr_sub (a : ndarray) (c : Q) : M ndarray :=
  d <- contents a ;; alloc (shape a) (data_sub d c).

Definition arr_div (a : ndarray) (c : Q) : M ndarray :=
  d <- contents a ;; alloc (shape a) (data_div d c).

Definition arr_rsub (c : Q) (a : ndarray) : M ndarray :=
  d <- contents a ;; alloc (shape a) (data_rsub c d).

(** [a.flatten()] is a copy. *)
Definition arr_flatten (a : ndarray) : M ndarray :=
  d <- contents a ;; alloc [length d] d.

(** [np.squeeze(a)] is a view on the buffer of [a]. *)
Definition np_squeeze (a : ndarray) : M ndarray :=
  ret (mkArr (buf a) (squeeze_shape (shape a))).

(** [np.asarray(a)] returns an ndarray as it is. *)
Definition np_asarray (a : ndarray) : M ndarray := ret a.

Definition to_array (t : tensor) : M ndarray := alloc (t_shape t) (t_data t).

Definition as_tensor (a : ndarray) : M tensor :=
  d <- contents a ;; ret (mkTensor (shape a) d).

(** ** Console, call trace and lists *)

Definition print (l : line) : M unit :=
  modify (fun st => set_console (console st ++ [l]) st).

Definition emit (e : event) : M unit :=
  modify (fun st => set_log (log st ++ [e]) st).

Definition list_append (r : lref) (x : score) : M unit :=
  match r with
  | PearsonL => modify (fun st => set_pearson_list (pearson_list st ++ [x]) st)
  | SsimL => modify (fun st => set_ssim_list (ssim_list st ++ [x]) st)
  | SpearmanL =>
      modify (fun st => set_spearman_list (spearman_list st ++ [x]) st)
  end.

Definition action_list_append (a : Z) : M unit :=
  modify (fun st => set_action_list (action_list st ++ [a]) st).

Definition model_list_append (k : Z) : M unit :=
  modify (fun st => set_model_list (model_list st ++ [k]) st).

Definition index {A} (l : list A) (i : nat) : M A :=
  match l !! i with
  | Some x => ret x
  | None => raise IndexError
  end.

(** ** Statements on keras models *)

(** The weights of a model object.  An identifier that names no object
    cannot arise in a run; it is read as an unbound name. *)
Definition get_weights (m : nat) : M Model :=
  w <- gets (fun st => models st !! m) ;; name w.

Definition set_weights (m : nat) (w : Model) : M unit :=
  modify (fun st => set_models (<[m := w]> (models st)) st).

Definition keras_load_model (path : string) : M nat :=
  m <- gets (fun st => length (models st)) ;;
  modify (fun st => set_models (models st ++ [load_model path]) st) ;;;
  ret m.

(** [keras.models.clone_model]: a new model of the same architecture, with
    variables of its own that the session initialises. *)
Definition clone_model (model : nat) : M nat :=
  w <- get_weights model ;;
  s <- gets session ;;
  m <- gets (fun st => length (models st)) ;;
  modify (fun st =>
            set_session (snd (clone_weights w s))
              (set_models (models st ++ [fst (clone_weights w s)]) st)) ;;;
  emit (EvClone model m) ;;;
  ret m.

(** [model.get_layer(index=idx)]: a reference to the layer inside the model;
    keras raises ValueError past the last layer. *)
Definition get_layer (model idx : nat) : M (nat * nat) :=
  w <- get_weights model ;;
  if (idx <? length w)%nat then ret (model, idx) else raise ValueError.

Definition layer_get_weights (layer : nat * nat) : M Layer :=
  w <- get_weights (fst layer) ;;
  match w !! snd layer with
  | Some l => ret l
  | None => raise ValueError
  end.

(** The initializer of every variable of a layer draws new values of the
    shape of the variable. *)
Fixpoint init_tensors (idx j : nat) (ts : list tensor) (s : Session)
  : list tensor * Session :=
  match ts with
  | [] => ([], s)
  | t :: r =>
      let ds := init_values idx j (t_shape t) s in
      let rs := init_tensors idx (S j) r (snd ds) in
      (mkTensor (t_shape t) (fst ds) :: fst rs, snd rs)
  end.

Definition session_run_initializer (layer : nat * nat) : M unit :=
  w <- get_weights (fst layer) ;;
  l <- layer_get_weights layer ;;
  s <- gets session ;;
  modify (fun st =>
            set_session (snd (init_tensors (snd layer) 0 l s))
              (set_models
                 (<[fst layer :=
                      <[snd layer := fst (init_tensors (snd layer) 0 l s)]> w]>
                    (models st)) st)) ;;;
  emit (EvInit (fst layer) (snd layer)).

Definition model_predict (model : nat) (x : Frames) : M (list Q) :=
  w <- get_weights model ;;
  emit (EvPredict model x) ;;;
  ret (predict w x).

(** [(l1.get_weights()[i] == l.get_weights()[i]).all()] *)
Definition weights_all_eq (l1 l : nat * nat) (i : nat) : M bool :=
  w1 <- layer_get_weights l1 ;;
  a <- index w1 i ;;
  w <- layer_get_weights l ;;
  b <- index w i ;;
  match tensor_all_eq a b with
  | Some r => ret r
  | None => raise AttributeError
  end.

(** ** Statements on analyzers *)

Definition analyzer (an : nat) : M Analyzer :=
  a <- gets (fun st => analyzers st !! an) ;; name a.

Definition set_analyzer (an : nat) (a : Analyzer) : M unit :=
  modify (fun st => set_analyzers (<[an := a]> (analyzers st)) st).

(** Modelled from the spec: the class [explainer] of
    applications/atari/explanation.py is not among the sources.  An analyzer
    is bound to one model; it starts without masks, its flag
    [masks_generated] unset. *)
Definition explainer (model : nat) : M nat :=
  an <- gets (fun st => length (analyzers st)) ;;
  modify (fun st =>
            set_analyzers (analyzers st ++ [mkAnalyzer model None false]) st) ;;;
  ret an.

(** Modelled from the spec: [explainer.generate_rise_prediction] of
    applications/atari/explanation.py.  The sampling masks are drawn once,
    when the flag [masks_generated] is not set, and are kept in the field
    [rise_masks]; every call explains with the masks that field holds. *)
Definition generate_rise_prediction (an : nat) (kw : Kwargs) (x : Frames)
    (a : option Z) : M ndarray :=
  A <- analyzer an ;;
  (if masks_generated A then ret tt
   else
     r <- gets np_rng ;;
     mk <- gets (fun st => length (mask_store st)) ;;
     modify (fun st =>
               set_np_rng (snd (generate_masks kw r))
                 (set_mask_store
                    (mask_store st ++ [fst (generate_masks kw r)]) st)) ;;;
     set_analyzer an (mkAnalyzer (an_model A) (Some mk) true) ;;;
     emit (EvMasks an mk)) ;;;
  A <- analyzer an ;;
  mk <- match rise_masks A with
        | Some i => ret i
        | None => raise AttributeError
        end ;;
  masks <- (o <- gets (fun st => mask_store st !! mk) ;; name o) ;;
  w <- get_weights (an_model A) ;;
  emit (EvExplain an x a (Some mk)) ;;;
  to_array (rise_explanation kw w masks x a).

(** The other explanation methods: a function of the weights of the model
    of the analyzer, of the input and of the randomness they consume. *)
Definition generate_explanation (meth : method) (an : nat) (kw : Kwargs)
    (x : Frames) (a : option Z) : M ndarray :=
  match meth with
  | Rise => generate_rise_prediction an kw x a
  | _ =>
      A <- analyzer an ;;
      w <- get_weights (an_model A) ;;
      r <- gets np_rng ;;
      modify (set_np_rng (snd (explanation meth kw w x a r))) ;;;
      emit (EvExplain an x a None) ;;;
      to_array (fst (explanation meth kw w x a r))
  end.

(** A call of one of the lambdas [og_saliency_fn], [saliency_fn_1], ...:
    the name is bound only when [approach] was one of the five. *)
Definition saliency_fn (fn : option method) (an : nat) (kw : Kwargs)
    (x : Frames) (neuron_selection : option Z) : M ndarray :=
  meth <- name fn ;;
  generate_explanation meth an kw x neuron_selection.

(** ** Statements on the emulator, the generator and tables *)

Definition with_env {A} (f : Env -> A * Env) : M A :=
  o <- gets emulator ;;
  e <- name o ;;
  modify (set_emulator (Some (snd (f e)))) ;;;
  ret (fst (f e)).

Definition env_do (f : Env -> Env) : M unit :=
  with_env (fun e => (tt, f e)).

Definition random_array (gaussian : bool) (s : list nat) : M ndarray :=
  r <- gets np_rng ;;
  let dr := if gaussian then np_random_normal s r else np_random_rand s r in
  modify (set_np_rng (snd dr)) ;;;
  emit (EvRandom gaussian) ;;;
  alloc s (fst dr).

(** [data_frame[key] = values].  On an empty index a non-empty list sets
    the index and the columns assigned before are filled with NaN; otherwise
    the lengths must agree. *)
Definition nan_column (n : nat) (c : column) : column :=
  ColScore (replicate n NaN).

Definition df_setitem (df : DataFrame) (key : string) (c : column)
  : M DataFrame :=
  if (df_len df =? 0)%nat then
    ret (mkDF (df_columns df) (column_length c)
           (<[key := c]> (nan_column (column_length c) <$> df_data df)))
  else if (column_length c =? df_len df)%nat then
    ret (mkDF (df_columns df) (df_len df) (<[key := c]> (df_data df)))
  else raise ValueError.

Definition to_csv (df : DataFrame) (path : string) : M unit :=
  modify (fun st => set_files (<[path := df]> (files st)) st) ;;;
  emit (EvToCsv path).

(** ** The functions of the script *)

(** [normalise_image].  The [try] around [np.asarray] guards a conversion
    that an ndarray does not need. *)
Definition normalise_image (image : ndarray) : prog ndarray :=
  do image <- stmt (np_asarray image);
  do image <- stmt (mn <- arr_min image ;; arr_sub image mn);
  do nonzero <- stmt (mx <- arr_max image ;; ret (negb (Qeq_bool mx 0)));
  if nonzero then stmt (mx <- arr_max image ;; arr_div image mx)
  else Ret image.

(** [copy_model] *)
Definition copy_model (model : nat) : prog nat :=
  do model_m1 <- stmt (clone_model model);
  do _ <- stmt (w <- get_weights model ;; set_weights model_m1 w);
  Ret model_m1.

(** [init_layer]: only [session.run] has an effect. *)
Definition init_layer (layer : nat * nat) : prog unit :=
  do _ <- stmt (gets session);
  do _ <- stmt (layer_get_weights layer);
  stmt (session_run_initializer layer).

(** [check_models] *)
Definition check_models (model1 model : nat) : prog unit :=
  for_each (seq 1 6)
    (fun i _ =>
       if bool_decide (i <> 4%nat) then
         do _ <- stmt (print (PLayer i));
         do _ <- stmt (l1 <- get_layer model1 i ;;
                       l <- get_layer model i ;;
                       b <- weights_all_eq l1 l 0 ;;
                       print (PBool b));
         stmt (l1 <- get_layer model1 i ;;
               l <- get_layer model i ;;
               b <- weights_all_eq l1 l 1 ;;
               print (PBool b))
       else Ret tt)
    tt.

(** [calc_sim].  The first statement records the call in the trace. *)
Definition calc_sim (learned_relevance random_relevance : ndarray)
    (_pearson_list _ssim_list _spearman_list : lref) : prog unit :=
  do _ <- stmt (emit (EvCalcSim learned_relevance random_relevance));
  do learned_relevance <- normalise_image learned_relevance;
  do random_relevance <- normalise_image random_relevance;
  do neg_random_relevance <- stmt (arr_rsub 1 random_relevance);
  do spearman <- stmt (r <- arr_flatten random_relevance ;;
                       l <- arr_flatten learned_relevance ;;
                       dr <- contents r ;;
                       dl <- contents l ;;
                       ret (fst (spearmanr dr dl)));
  do test <- stmt (r <- arr_flatten neg_random_relevance ;;
                   l <- arr_flatten learned_relevance ;;
                   dr <- contents r ;;
                   dl <- contents l ;;
                   ret (fst (spearmanr dr dl)));
  do spearman <- stmt (ret (py_max spearman test));
  do ssim_val <- stmt (r <- arr_flatten random_relevance ;;
                       l <- arr_flatten learned_relevance ;;
                       dr <- contents r ;;
                       dl <- contents l ;;
                       ret (ssim 1 dr dl));
  do test <- stmt (r <- arr_flatten neg_random_relevance ;;
                   l <- arr_flatten learned_relevance ;;
                   dr <- contents r ;;
                   dl <- contents l ;;
                   ret (ssim 1 dr dl));
  do ssim_val <- stmt (ret (py_max ssim_val test));
  do kwargs <- stmt (ret (3%nat, 3%nat));
  do random_hog <- stmt (t <- as_tensor random_relevance ;; ret (hog kwargs t));
  do learned_hog <- stmt (t <- as_tensor learned_relevance ;;
                          ret (hog kwargs t));
  do pearson <- stmt (ret (fst (pearsonr random_hog learned_hog)));
  do neg_random_hog <- stmt (t <- as_tensor neg_random_relevance ;;
                             ret (hog kwargs t));
  do test <- stmt (ret (fst (pearsonr neg_random_hog learned_hog)));
  do pearson <- stmt (ret (py_max pearson test));
  do _ <- stmt (list_append _pearson_list pearson);
  do _ <- stmt (list_append _ssim_list ssim_val);
  stmt (list_append _spearman_list spearman).

(** *** [sanity_check] *)

Definition steps : nat := 1001.

(** Lines 193-204: the model and the environment of the game; for any other
    game the names [model] and [env] stay unbound. *)
Definition game_assets (game : string) : option (string * string) :=
  if String.eqb game "pacman" then
    Some ("../models/MsPacman_5M_ingame_reward.h5", "MsPacmanNoFrameskip-v4")
  else if String.eqb game "breakout" then
    Some ("../models/BreakoutIngame_5M.h5", "BreakoutNoFrameskip-v4")
  else if String.eqb game "spaceInvaders" then
    Some ("../models/SpaceInvadersIngame_5M.h5", "SpaceInvadersNoFrameskip-v4")
  else if String.eqb game "frostbite" then
    Some ("../models/FrostbiteIngame_5M.h5", "FrostbiteNoFrameskip-v4")
  else None.

Definition load_game (game : string) : prog (option nat) :=
  match game_assets game with
  | Some (path, id) =>
      do model <- stmt (keras_load_model path);
      do _ <- stmt (modify (set_emulator (Some (gym_make id))));
      Ret (Some model)
  | None => Ret None
  end.

(** Lines 206-212. *)
Definition start_game (game : string) (model : option nat) : prog nat :=
  do model <- stmt (m <- name model ;; print (PSummary m) ;;; ret m);
  do _ <- stmt (env_do env_reset);
  do _ <- stmt (env_do atari_wrapper);
  do _ <- (if String.eqb game "spaceInvaders" || String.eqb game "breakout"
           then stmt (env_do set_fire_reset) else Ret tt);
  do _ <- stmt (env_do (wrapper_reset 1));
  Ret model.

(** Lines 219-223, and 226-230, 233-237, 240-244, 247-251 with the other
    models and indices: one more layer re-initialised in a copy. *)
Definition derive_variant (model idx : nat) : prog (nat * nat) :=
  do model1 <- copy_model model;
  do layer <- stmt (get_layer model1 idx);
  do _ <- init_layer layer;
  do _ <- check_models model1 model;
  do analyzer1 <- stmt (explainer model1);
  Ret (model1, analyzer1).

(** Lines 253-318: five [if]s; each binds the six lambdas to one method of
    the analyzers.  The six names are bound together or not at all. *)
Definition bind_saliency_fns (approach : string) : prog (option method) :=
  do fn <- Ret None;
  do fn <- stmt (ret (if String.eqb approach "noise" then Some Greydanus
                      else fn));
  do fn <- stmt (ret (if String.eqb approach "occl" then Some Occlusion
                      else fn));
  do fn <- stmt (ret (if String.eqb approach "rise" then Some Rise else fn));
  do fn <- stmt (ret (if String.eqb approach "lime" then Some Lime else fn));
  stmt (ret (if String.eqb approach "sarfa" then Some Sarfa else fn)).

(** What the loop reads of the names bound before it. *)
Record Locals : Type := mkLocals {
  game : string;
  approach : string;
  kwargs : Kwargs;
  saliency_fns : option method;
  model : nat;
  original_analyzer : nat;
  analyzer1 : nat;
  analyzer2 : nat;
  analyzer3 : nat;
  analyzer4 : nat;
  analyzer5 : nat
}.

(** [analyzer_k.rise_masks = original_analyzer.rise_masks] and
    [analyzer_k.masks_generated = True] *)
Definition assign_rise_masks (dst src : nat) : M unit :=
  A <- analyzer src ;;
  B <- analyzer dst ;;
  set_analyzer dst (mkAnalyzer (an_model B) (rise_masks A) (masks_generated B)).

Definition assign_masks_generated (dst : nat) : M unit :=
  B <- analyzer dst ;;
  set_analyzer dst (mkAnalyzer (an_model B) (rise_masks B) true).

(** Lines 342-352. *)
Definition share_rise_masks (L : Locals) (stacked_frames : option Frames)
  : prog unit :=
  do og_saliency_map <-
    stmt (x <- name stacked_frames ;;
          saliency_fn (saliency_fns L) (original_analyzer L) (kwargs L) x None);
  do _ <- stmt (assign_rise_masks (analyzer1 L) (original_analyzer L));
  do _ <- stmt (assign_masks_generated (analyzer1 L));
  do _ <- stmt (assign_rise_masks (analyzer2 L) (original_analyzer L));
  do _ <- stmt (assign_masks_generated (analyzer2 L));
  do _ <- stmt (assign_rise_masks (analyzer3 L) (original_analyzer L));
  do _ <- stmt (assign_masks_generated (analyzer3 L));
  do _ <- stmt (assign_rise_masks (analyzer4 L) (original_analyzer L));
  do _ <- stmt (assign_masks_generated (analyzer4 L));
  do _ <- stmt (assign_rise_masks (analyzer5 L) (original_analyzer L));
  stmt (assign_masks_generated (analyzer5 L)).

(** Lines 332-352: the branch [_ < 4]; [fixed_start] is [True]. *)
Definition warm_up_step (L : Locals) (i : nat) (stacked_frames : option Frames)
  : prog Z :=
  let fixed_start := true in
  do action <- stmt (with_env action_space_sample);
  do action <- (if fixed_start then
                  if String.eqb (game L) "breakout" then stmt (ret 1%Z)
                  else stmt (ret 0%Z)
                else Ret action);
  do _ <- (if String.eqb (approach L) "rise" then
             if (i =? 3)%nat then share_rise_masks L stacked_frames
             else Ret tt
           else Ret tt);
  Ret action.

(** Lines 368-373, and 376-379, 382-385, 388-391, 394-397 with the other
    lambdas and labels. *)
Definition compare_variant (L : Locals) (an : nat) (label : Z)
    (og_saliency_map : ndarray) (my_input : Frames) (action : Z) : prog unit :=
  do saliency_map <-
    stmt (m <- saliency_fn (saliency_fns L) an (kwargs L) my_input (Some action) ;;
          np_squeeze m);
  do _ <- calc_sim og_saliency_map saliency_map PearsonL SsimL SpearmanL;
  do _ <- stmt (action_list_append action);
  stmt (model_list_append label).

(** Lines 400-403 and 406-409. *)
Definition compare_random (gaussian : bool) (label : Z)
    (og_saliency_map : ndarray) (action : Z) : prog unit :=
  do test <- stmt (random_array gaussian [84%nat; 84%nat]);
  do _ <- calc_sim og_saliency_map test PearsonL SsimL SpearmanL;
  do _ <- stmt (action_list_append action);
  stmt (model_list_append label).

(** Lines 354-409: the branch [else]. *)
Definition policy_step (L : Locals) (stacked_frames : option Frames) : prog Z :=
  do my_input <- stmt (x <- name stacked_frames ;; ret (np_expand_dims x));
  do output <- stmt (model_predict (model L) my_input);
  do my_input <- stmt (ret (np_squeeze_frames my_input));
  do action <- stmt (match np_argmax output with
                     | Some a => ret a
                     | None => raise ValueError
                     end);
  do og_saliency_map <-
    stmt (saliency_fn (saliency_fns L) (original_analyzer L) (kwargs L)
            my_input (Some action));
  do og_saliency_map <- stmt (np_squeeze og_saliency_map);
  do _ <- compare_variant L (analyzer1 L) 1 og_saliency_map my_input action;
  do _ <- compare_variant L (analyzer2 L) 2 og_saliency_map my_input action;
  do _ <- compare_variant L (analyzer3 L) 3 og_saliency_map my_input action;
  do _ <- compare_variant L (analyzer4 L) 4 og_saliency_map my_input action;
  do _ <- compare_variant L (analyzer5 L) 5 og_saliency_map my_input action;
  do _ <- compare_random false 6 og_saliency_map action;
  do _ <- compare_random true 7 og_saliency_map action;
  Ret action.

(** Lines 328-411: one iteration; it rebinds [stacked_frames]. *)
Definition loop_body (L : Locals) (i : nat) (stacked_frames : option Frames)
  : prog (option Frames) :=
  do _ <- (if (i mod 10 =? 0)%nat then
             do _ <- stmt (print (PInt i));
             stmt (print PTime)
           else Ret tt);
  do action <- (if (i <? 4)%nat then warm_up_step L i stacked_frames
                else policy_step L stacked_frames);
  do stacked_frames <- stmt (x <- with_env (wrapper_step action) ;;
                             emit (EvStep action) ;;;
                             ret x);
  Ret (Some stacked_frames).

(** Lines 414-422. *)
Definition save_results (_file_name : string) : prog unit :=
  do data_frame <-
    stmt (ret (mkDF ["rand_layer"; "pearson"; "ssim"; "spearman"; "action"]%string
                 0 ∅));
  do data_frame <- stmt (l <- gets model_list ;;
                         df_setitem data_frame "rand_layer" (ColInt l));
  do data_frame <- stmt (l <- gets pearson_list ;;
                         df_setitem data_frame "pearson" (ColScore l));
  do data_frame <- stmt (l <- gets ssim_list ;;
                         df_setitem data_frame "ssim" (ColScore l));
  do data_frame <- stmt (l <- gets spearman_list ;;
                         df_setitem data_frame "spearman" (ColScore l));
  do data_frame <- stmt (l <- gets action_list ;;
                         df_setitem data_frame "action" (ColInt l));
  do _ <- stmt (to_csv data_frame _file_name);
  stmt (env_do env_close).

(** Lines 184-212. *)
Definition set_up (game : string) : prog nat :=
  do _ <- stmt (modify (set_pearson_list []));
  do _ <- stmt (modify (set_ssim_list []));
  do _ <- stmt (modify (set_spearman_list []));
  do _ <- stmt (modify (set_model_list []));
  do _ <- stmt (modify (set_action_list []));
  do _ <- stmt (modify (set_np_rng (np_random_seed 42)));
  do model <- load_game game;
  start_game game model.

(** Lines 216-251. *)
Definition cascade (game approach : string) (kwargs : Kwargs) (model : nat)
  : prog (option method -> Locals) :=
  do original_analyzer <- stmt (explainer model);
  do v1 <- derive_variant model 6;
  do v2 <- derive_variant (fst v1) 5;
  do v3 <- derive_variant (fst v2) 3;
  do v4 <- derive_variant (fst v3) 2;
  do v5 <- derive_variant (fst v4) 1;
  Ret (fun fn =>
         mkLocals game approach kwargs fn model original_analyzer
           (snd v1) (snd v2) (snd v3) (snd v4) (snd v5)).

(** Lines 321-326: [fixed_start] is [True]. *)
Definition fixed_start_reset (game : string) : prog unit :=
  if String.eqb game "pacman" then stmt (env_do (fixed_reset 200 0))
  else stmt (env_do (fixed_reset 1 0)).

(** Lines 184-326: what runs before the loop. *)
Definition prelude (game approach : string) (kwargs : Kwargs) : prog Locals :=
  do model <- set_up game;
  do locals <- cascade game approach kwargs model;
  do fn <- bind_saliency_fns approach;
  do _ <- fixed_start_reset game;
  Ret (locals fn).

(** The directory [dir_name] is created when it is missing; directories are
    not part of the state. *)
Definition sanity_check (game approach _file_name : string) (kwargs : Kwargs)
  : prog unit :=
  let dir_name := path_join "results" game in
  let _file_name := path_join dir_name _file_name in
  do locals <- prelude game approach kwargs;
  do _ <- for_each (seq 0 steps) (loop_body locals) None;
  save_results _file_name.

End Program.

Arguments Ok {E A} a st.
Arguments Raise {E A} e.
Arguments Ret {E R} r.
Arguments Do {E R A} c k.

(** ** A small instance of the libraries

    Frames, emulator and generators are counters; a model has the seven
    layers of the agents of the script (index 0 the input, index 4 the
    flatten layer, without weights). *)

Definition toy_layer (k : Z) : Layer :=
  [mkTensor [2%nat] [inject_Z k; 1]; mkTensor [1%nat] [inject_Z k + 1]].

Definition toy_model : Model :=
  [[]; toy_layer 1; toy_layer 2; toy_layer 3; []; toy_layer 5; toy_layer 6].

Definition toy_sum (m : Model) : Q :=
  fold_right Qplus 0
    (flat_map (fun l => flat_map t_data l) m).

Definition toy_map (m : Model) (x : Z) (a : option Z) (r : Z) : tensor :=
  mkTensor [1%nat; 2%nat; 2%nat]
    [toy_sum m; inject_Z x; inject_Z (default 0%Z a); inject_Z r].

#[export] Instance toy : Externals := {|
  Frames := Z;
  Env := Z;
  Rng := Z;
  Session := Z;
  Masks := Z;
  Kwargs := unit;
  load_model := fun _ => toy_model;
  clone_weights := fun m s => (map (map (fun t => mkTensor (t_shape t) [])) m,
                               (s + 1)%Z);
  init_values := fun idx j sh s => ([inject_Z s; inject_Z (Z.of_nat j)],
                                    (s + 1)%Z);
  predict := fun m x => [toy_sum m; inject_Z (x mod 3); 1];
  gym_make := fun _ => 0%Z;
  env_reset := fun e => e;
  atari_wrapper := fun e => e;
  set_fire_reset := fun e => e;
  wrapper_reset := fun _ e => e;
  fixed_reset := fun n _ e => n;
  action_space_sample := fun e => (2%Z, e);
  wrapper_step := fun a e => ((e + a + 1)%Z, (e + a + 1)%Z);
  env_close := fun e => e;
  np_expand_dims := fun x => x;
  np_squeeze_frames := fun x => x;
  np_random_seed := fun z => z;
  np_random_rand := fun sh r => ([inject_Z r; 1 # 2; 0], (r + 1)%Z);
  np_random_normal := fun sh r => ([- (1 # 3); inject_Z r; 2], (r + 1)%Z);
  explanation := fun _ _ m x a r => (toy_map m x a r, (r + 1)%Z);
  generate_masks := fun _ r => (r, (r + 1)%Z);
  rise_explanation := fun _ m mk x a => toy_map m x a mk;
  spearmanr := fun a b => (Fin (fold_right Qplus 0 a - fold_right Qplus 0 b),
                           NaN);
  ssim := fun _ a b => Fin (fold_right Qplus 0 a * fold_right Qplus 0 b);
  hog := fun _ t => t_data t;
  pearsonr := fun a b => (Fin (fold_right Qplus 0 a + fold_right Qplus 0 b),
                          NaN)
|}.

Definition toy_init : St :=
  mkSt ∅ 1%positive [] [] [] 0%Z 0%Z None [] [] ∅ [] [] [] [] [].


(** * Properties *)

(** ** Minimum, maximum and min-max normalisation of array contents *)







Lemma data_min_is_Some (d : list Q) : d <> [] -> exists lo, data_min d = Some lo.
Proof. destruct d; [congruence | cbn; eauto]. Qed.

Lemma data_max_is_Some (d : list Q) : d <> [] -> exists hi, data_max d = Some hi.
Proof. destruct d; [congruence | cbn; eauto]. Qed.

Lemma data_sub_nil (d : list Q) (c : Q) : d <> [] -> data_sub d c <> [].
Proof. destruct d; [congruence | discriminate]. Qed.





(** ** Running programs *)

Section Exec.

Context {E : Externals}.

Lemma exec_seq {R S} (p : prog R) (f : R -> prog S) (st : St) :
  exec (seq_prog p f) st =
  match exec p st with
  | Ok r st' => exec (f r) st'
  | Raise e => Raise e
  end.
Proof.
  revert st. induction p as [r | A c k IH]; intros st; cbn; [reflexivity|].
  destruct (c st); [apply IH | reflexivity].
Qed.

Lemma exec_seq_inv {R S} (p : prog R) (f : R -> prog S) (st st' : St) (s : S) :
  exec (seq_prog p f) st = Ok s st' ->
  exists r st1, exec p st = Ok r st1 /\ exec (f r) st1 = Ok s st'.
Proof.
  rewrite exec_seq. destruct (exec p st) as [r st1 | e]; [eauto | discriminate].
Qed.

Lemma exec_stmt {A} (c : M A) (st : St) : exec (stmt c) st = c st.
Proof. cbn. destruct (c st); reflexivity. Qed.

Lemma points_seq {R S} (p : prog R) (f : R -> prog S) (st : St) :
  points (seq_prog p f) st =
  points p st ++
  match exec p st with
  | Ok r st' => points (f r) st'
  | Raise e => []
  end.
Proof.
  revert st. induction p as [r | A c k IH]; intros st; cbn; [reflexivity|].
  destruct (c st); [rewrite IH; reflexivity | reflexivity].
Qed.

Lemma bind_inv {A B} (c : M A) (k : A -> M B) (st st' : St) (b : B) :
  bind c k st = Ok b st' -> exists a st1, c st = Ok a st1 /\ k a st1 = Ok b st'.
Proof.
  unfold bind. destruct (c st) as [a st1 | e]; [eauto | discriminate].
Qed.

Lemma ret_inv {A} (a r : A) (st st' : St) : ret a st = Ok r st' -> r = a /\ st' = st.
Proof. unfold ret. intros [= <- <-]. auto. Qed.

Lemma gets_inv {A} (f : St -> A) (r : A) (st st' : St) :
  gets f st = Ok r st' -> r = f st /\ st' = st.
Proof. unfold gets. intros [= <- <-]. auto. Qed.

Lemma modify_inv (f : St -> St) (r : unit) (st st' : St) :
  modify f st = Ok r st' -> st' = f st.
Proof. unfold modify. intros [= <-]. auto. Qed.

Lemma name_inv {A} (o : option A) (r : A) (st st' : St) :
  name o st = Ok r st' -> o = Some r /\ st' = st.
Proof. destruct o; cbn; [intros [= <- <-]; auto | discriminate]. Qed.

Lemma raise_inv {A} (e : exn) (r : A) (st st' : St) : raise e st = Ok r st' -> False.
Proof. discriminate. Qed.

Lemma alloc_inv (s : list nat) (d : list Q) (r : ndarray) (st st' : St) :
  alloc s d st = Ok r st' ->
  r = mkArr (next_buf st) s /\
  st' = set_next_buf (Pos.succ (next_buf st))
          (set_heap (<[next_buf st := d]> (heap st)) st).
Proof. unfold alloc. intros [= <- <-]. auto. Qed.

(** A state is its sixteen fields. *)
Lemma St_eta (st : St) :
  st = mkSt (heap st) (next_buf st) (models st) (analyzers st) (mask_store st)
         (np_rng st) (session st) (emulator st) (console st) (log st)
         (files st) (pearson_list st) (ssim_list st) (spearman_list st)
         (model_list st) (action_list st).
Proof. destruct st; reflexivity. Qed.

End Exec.

(** Decomposes the hypotheses that say a run returned, statement by
    statement. *)
Ltac run_step :=
  match goal with
  | H : exec (seq_prog _ _) _ = Ok _ _ |- _ =>
      apply exec_seq_inv in H; destruct H as (? & ? & ? & H)
  | H : exec (stmt _) _ = Ok _ _ |- _ => rewrite exec_stmt in H
  | H : exec (Ret _) _ = Ok _ _ |- _ => cbn in H; injection H as ? ?; subst
  | H : exec (if ?b then _ else _) _ = Ok _ _ |- _ => destruct b eqn:?
  | H : bind _ _ _ = Ok _ _ |- _ =>
      apply bind_inv in H; destruct H as (? & ? & ? & H)
  | H : ret _ _ = Ok _ _ |- _ => apply ret_inv in H; destruct H as [? ?]; subst
  | H : gets _ _ = Ok _ _ |- _ => apply gets_inv in H; destruct H as [? ?]; subst
  | H : modify _ _ = Ok _ _ |- _ => apply modify_inv in H; subst
  | H : name _ _ = Ok _ _ |- _ => apply name_inv in H; destruct H as [? ?]; subst
  | H : raise _ _ = Ok _ _ |- _ => destruct (raise_inv _ _ _ _ H)
  | H : alloc _ _ _ = Ok _ _ |- _ => apply alloc_inv in H; destruct H as [? ?]; subst
  | H : (if ?b then _ else _) _ = Ok _ _ |- _ => destruct b eqn:?
  | H : (match ?o with Some _ => _ | None => _ end) _ = Ok _ _ |- _ =>
      destruct o eqn:?
  end.

Ltac run_inv := repeat run_step.

(** Keeps a hypothesis out of the decomposition. *)
Definition hold (P : Prop) : Prop := P.

Ltac protect H := let T := type of H in change (hold T) in H.
Ltac release H := unfold hold in H.

(** ** Arrays in the heap *)

(** The heap grows: buffers below the old bound keep their contents. *)
Definition hext (h : Pmap (list Q)) (n : positive) (h' : Pmap (list Q))
    (n' : positive) : Prop :=
  (n <= n')%positive /\ forall l, (l < n)%positive -> h' !! l = h !! l.

Lemma hext_refl h n : hext h n h n.
Proof. split; [lia | auto]. Qed.

Lemma hext_trans h1 n1 h2 n2 h3 n3 :
  hext h1 n1 h2 n2 -> hext h2 n2 h3 n3 -> hext h1 n1 h3 n3.
Proof.
  intros [Hn1 H1] [Hn2 H2]. split; [lia|].
  intros l Hl. rewrite H2 by lia. apply H1. exact Hl.
Qed.

Lemma hext_alloc h n (d : list Q) : hext h n (<[n := d]> h) (Pos.succ n).
Proof.
  split; [lia|]. intros l Hl. apply lookup_insert_ne. lia.
Qed.

Lemma hext_lookup h n h' n' l (d : list Q) :
  hext h n h' n' -> (l < n)%positive -> h !! l = Some d -> h' !! l = Some d.
Proof. intros [_ H] Hl Hd. rewrite H; auto. Qed.

(** The normalisation as a function of the contents. *)
Definition minmax_normalise (d : list Q) : option (list Q) :=
  match data_min d with
  | None => None
  | Some lo =>
      match data_max (data_sub d lo) with
      | None => None
      | Some hi => Some (if Qeq_bool hi 0 then data_sub d lo
                         else data_div (data_sub d lo) hi)
      end
  end.

Lemma data_at_alloc h n s (d : list Q) : data_at (<[n := d]> h) (mkArr n s) = d.
Proof. unfold data_at. cbn. rewrite lookup_insert_eq. reflexivity. Qed.

Lemma data_at_ext h n h' n' (a : ndarray) :
  hext h n h' n' -> (buf a < n)%positive -> data_at h' a = data_at h a.
Proof. intros [_ H] Hl. unfold data_at. rewrite H; auto. Qed.

Lemma data_at_squeeze h (a : ndarray) s : data_at h (mkArr (buf a) s) = data_at h a.
Proof. reflexivity. Qed.

Section Arrays.

Context {E : Externals}.

Definition with_heap (h : Pmap (list Q)) (n : positive) (st : St) : St :=
  set_next_buf n (set_heap h st).

Lemma contents_inv (a : ndarray) (d : list Q) (st st' : St) :
  contents a st = Ok d st' -> d = data_at (heap st) a /\ st' = st.
Proof. unfold contents, gets. intros [= <- <-]. auto. Qed.

Lemma arr_min_inv (a : ndarray) (m : Q) (st st' : St) :
  arr_min a st = Ok m st' ->
  data_min (data_at (heap st) a) = Some m /\ st' = st.
Proof.
  unfold arr_min, contents. intros H. run_inv. auto.
Qed.

Lemma arr_max_inv (a : ndarray) (m : Q) (st st' : St) :
  arr_max a st = Ok m st' ->
  data_max (data_at (heap st) a) = Some m /\ st' = st.
Proof.
  unfold arr_max, contents. intros H. run_inv. auto.
Qed.

End Arrays.

Ltac arr_step :=
  match goal with
  | H : contents _ _ = Ok _ _ |- _ =>
      apply contents_inv in H; destruct H as [? ?]; subst
  | H : arr_min _ _ = Ok _ _ |- _ =>
      apply arr_min_inv in H; destruct H as [? ?]; subst
  | H : arr_max _ _ = Ok _ _ |- _ =>
      apply arr_max_inv in H; destruct H as [? ?]; subst
  end.

Ltac run_arr := repeat (run_step || arr_step).

(** Field reads of updated states. *)
Ltac st_simpl :=
  cbn [heap next_buf models analyzers mask_store np_rng session emulator
       console log files pearson_list ssim_list spearman_list model_list
       action_list set_heap set_next_buf set_models set_analyzers
       set_mask_store set_np_rng set_session set_emulator set_console set_log
       set_files set_pearson_list set_ssim_list set_spearman_list
       set_model_list set_action_list with_heap buf shape fst snd] in *.

Section Normalise.

Context {E : Externals}.

(** What a run of [normalise_image] does: a new array holds the normalised
    contents, and nothing but the heap changes. *)
Lemma normalise_image_fields (image r : ndarray) (st st' : St) :
  exec (normalise_image image) st = Ok r st' ->
  minmax_normalise (data_at (heap st) image) = Some (data_at (heap st') r) /\
  st' = with_heap (heap st') (next_buf st') st /\
  hext (heap st) (next_buf st) (heap st') (next_buf st') /\
  (next_buf st <= buf r)%positive /\ (buf r < next_buf st')%positive /\
  shape r = shape image.
Proof.
  unfold normalise_image, np_asarray, arr_sub, arr_div. intros H. run_arr.
  all: st_simpl; rewrite ?data_at_alloc in *; unfold minmax_normalise.
  all: repeat match goal with
         | H : data_min _ = Some _ |- _ => rewrite H; clear H
         | H : data_max _ = Some _, H' : data_max _ = Some _ |- _ =>
             rewrite H in H'; injection H' as ?; subst
         | H : data_max _ = Some _ |- _ => rewrite H; clear H
         | H : true = negb _ |- _ =>
             symmetry in H; apply negb_true_iff in H; rewrite H; clear H
         | H : false = negb _ |- _ =>
             symmetry in H; apply negb_false_iff in H; rewrite H; clear H
         end.
  - repeat split; try reflexivity; try lia.
    eapply hext_trans; apply hext_alloc.
  - repeat split; try reflexivity; try lia.
    apply hext_alloc.
Qed.

Lemma normalise_image_run (image r : ndarray) (st st' : St) :
  exec (normalise_image image) st = Ok r st' ->
  exists d' h' n',
    minmax_normalise (data_at (heap st) image) = Some d' /\
    st' = with_heap h' n' st /\
    hext (heap st) (next_buf st) h' n' /\
    data_at h' r = d' /\
    (next_buf st <= buf r)%positive /\ (buf r < n')%positive /\
    shape r = shape image.
Proof.
  intros H. apply normalise_image_fields in H as (H1 & H2 & H3 & H4 & H5 & H6).
  exists (data_at (heap st') r), (heap st'), (next_buf st'). auto 10.
Qed.

(** A run of [normalise_image] returns whenever the array is not empty. *)
Lemma normalise_image_total (image : ndarray) (st : St) (d' : list Q) :
  minmax_normalise (data_at (heap st) image) = Some d' ->
  exists r st', exec (normalise_image image) st = Ok r st'.
Proof.
  unfold minmax_normalise. intros H.
  destruct (data_min (data_at (heap st) image)) as [lo|] eqn:Hmin; [|discriminate].
  destruct (data_max (data_sub (data_at (heap st) image) lo)) as [hi|] eqn:Hmax;
    [|discriminate].
  unfold normalise_image. cbn.
  unfold np_asarray, ret, bind, arr_min, arr_max, arr_sub, arr_div, contents,
    gets, bind, alloc, ret.
  rewrite Hmin. st_simpl. rewrite data_at_alloc, Hmax.
  destruct (negb (Qeq_bool hi 0)); cbn.
  - unfold bind, gets. st_simpl. rewrite data_at_alloc, Hmax. eauto.
  - eauto.
Qed.

End Normalise.

(** ** The similarity scores *)

Lemma data_at_alloc_ne h n (d : list Q) (a : ndarray) :
  buf a <> n -> data_at (<[n := d]> h) a = data_at h a.
Proof. intros Hne. unfold data_at. rewrite lookup_insert_ne; auto. Qed.

Lemma hext_insert h n h' n' (d : list Q) :
  hext h n h' n' -> hext h n (<[n' := d]> h') (Pos.succ n').
Proof. intros H. eapply hext_trans; [exact H | apply hext_alloc]. Qed.

Section Similarity.

Context {E : Externals}.

Definition complement (d : list Q) : list Q := data_rsub 1 d.

(** The larger of the score against the candidate and of the score against
    its complement. *)
Definition larger_of (against : list Q -> score) (candidate : list Q) : score :=
  py_max (against candidate) (against (complement candidate)).

(** The three scores of a reference map and a candidate map, in the words of
    the specification: Pearson correlation of the HOG features (cells of 3 by
    3 pixels), structural similarity and Spearman correlation of the
    flattened maps, each on the min-max normalised maps. *)
Definition similarity_scores (learned random : tensor)
  : option (score * score * score) :=
  match minmax_normalise (t_data learned), minmax_normalise (t_data random) with
  | Some L, Some R =>
      Some (larger_of
              (fun c => fst (pearsonr
                               (hog (3%nat, 3%nat) (mkTensor (t_shape random) c))
                               (hog (3%nat, 3%nat) (mkTensor (t_shape learned) L))))
              R,
            larger_of (fun c => ssim 1 c L) R,
            larger_of (fun c => fst (spearmanr c L)) R)
  | _, _ => None
  end.

Definition tensor_at (h : Pmap (list Q)) (a : ndarray) : tensor :=
  mkTensor (shape a) (data_at h a).

Lemma arr_rsub_inv (c : Q) (a r : ndarray) (st st' : St) :
  arr_rsub c a st = Ok r st' ->
  r = mkArr (next_buf st) (shape a) /\
  st' = with_heap (<[next_buf st := data_rsub c (data_at (heap st) a)]> (heap st))
          (Pos.succ (next_buf st)) st.
Proof. unfold arr_rsub. intros H. run_arr. auto. Qed.

Lemma arr_flatten_inv (a r : ndarray) (st st' : St) :
  arr_flatten a st = Ok r st' ->
  r = mkArr (next_buf st) [length (data_at (heap st) a)] /\
  st' = with_heap (<[next_buf st := data_at (heap st) a]> (heap st))
          (Pos.succ (next_buf st)) st.
Proof. unfold arr_flatten. intros H. run_arr. auto. Qed.

Lemma as_tensor_inv (a : ndarray) (t : tensor) (st st' : St) :
  as_tensor a st = Ok t st' -> t = tensor_at (heap st) a /\ st' = st.
Proof. unfold as_tensor. intros H. run_arr. auto. Qed.

Lemma emit_inv (e : event) (r : unit) (st st' : St) :
  emit e st = Ok r st' -> st' = set_log (log st ++ [e]) st.
Proof. unfold emit. intros H. run_inv. auto. Qed.

Lemma print_inv (l : line) (r : unit) (st st' : St) :
  print l st = Ok r st' -> st' = set_console (console st ++ [l]) st.
Proof. unfold print. intros H. run_inv. auto. Qed.

End Similarity.

Ltac sim_step :=
  match goal with
  | H : arr_rsub _ _ _ = Ok _ _ |- _ =>
      apply arr_rsub_inv in H; destruct H as [? ?]; subst
  | H : arr_flatten _ _ = Ok _ _ |- _ =>
      apply arr_flatten_inv in H; destruct H as [? ?]; subst
  | H : as_tensor _ _ = Ok _ _ |- _ =>
      apply as_tensor_inv in H; unfold tensor_at in H; destruct H as [? ?];
      subst
  | H : emit _ _ = Ok _ _ |- _ => apply emit_inv in H; subst
  | H : print _ _ = Ok _ _ |- _ => apply print_inv in H; subst
  | H : exec (normalise_image _) _ = Ok _ _ |- _ =>
      apply normalise_image_run in H;
      destruct H as (? & ? & ? & ? & ? & ? & ? & ? & ? & ?); subst
  end.

Ltac heap_simpl :=
  st_simpl;
  repeat match goal with
    | H : context [data_at (<[?n := ?d]> ?h) (mkArr ?n ?s)] |- _ =>
        rewrite (data_at_alloc h n s d) in H
    | |- context [data_at (<[?n := ?d]> ?h) (mkArr ?n ?s)] =>
        rewrite (data_at_alloc h n s d)
    | H : context [data_at (<[?n := ?d]> ?h) ?a] |- _ =>
        rewrite (data_at_alloc_ne h n d a) in H by (st_simpl; lia)
    | |- context [data_at (<[?n := ?d]> ?h) ?a] =>
        rewrite (data_at_alloc_ne h n d a) by (st_simpl; lia)
    end.

Section SimilarityRun.

Context {E : Externals}.

Lemma calc_sim_run (learned random : ndarray) (st st' : St) :
  (buf random < next_buf st)%positive ->
  exec (calc_sim learned random PearsonL SsimL SpearmanL) st = Ok tt st' ->
  exists h' n' pe ss sp,
    similarity_scores (tensor_at (heap st) learned) (tensor_at (heap st) random)
      = Some (pe, ss, sp) /\
    st' = set_spearman_list (spearman_list st ++ [sp])
            (set_ssim_list (ssim_list st ++ [ss])
               (set_pearson_list (pearson_list st ++ [pe])
                  (set_log (log st ++ [EvCalcSim learned random])
                     (with_heap h' n' st)))) /\
    hext (heap st) (next_buf st) h' n'.
Proof.
  intros Hb H. unfold calc_sim in H. unfold list_append in H.
  repeat ((sim_step || arr_step || run_step); heap_simpl).
  match goal with
  | H1 : minmax_normalise (data_at (heap st) learned) = Some (data_at ?h1 ?L),
    H2 : minmax_normalise (data_at ?h1 random) = Some (data_at ?h2 ?R),
    X1 : hext (heap st) (next_buf st) ?h1 ?n1,
    X2 : hext ?h1 ?n1 ?h2 ?n2 |- _ =>
      rename H1 into HL; rename H2 into HR; rename X1 into HX1;
      rename X2 into HX2; rename L into lrn; rename R into rnd
  end.
  rewrite (data_at_ext _ _ _ _ random HX1) in HR by lia.
  rewrite (data_at_ext _ _ _ _ lrn HX2) by lia.
  do 5 eexists. split; [|split].
  2: { unfold with_heap. st_simpl. reflexivity. }
  - unfold similarity_scores, tensor_at, larger_of, complement.
    cbn [t_data t_shape]. rewrite HL, HR.
    repeat match goal with H : shape _ = shape _ |- _ => rewrite <- H; clear H end.
    reflexivity.
  - repeat apply hext_insert.
    eapply hext_trans; [exact HX1 | exact HX2].
Qed.

End SimilarityRun.

(** ** What the statements of the loop change *)

Section Delta.

Context {E : Externals}.

(** Inside the loop the models, the session and the files stay as they are;
    the console, the trace and the five lists only grow.  A [Delta] holds
    the other fields and what was appended. *)
Record Delta : Type := mkDelta {
  d_heap : Pmap (list Q);
  d_next : positive;
  d_analyzers : list Analyzer;
  d_mask_store : list Masks;
  d_np_rng : Rng;
  d_emulator : option Env;
  d_console : list line;
  d_log : list event;
  d_pearson : list score;
  d_ssim : list score;
  d_spearman : list score;
  d_model_list : list Z;
  d_action_list : list Z
}.

Definition apply_delta (d : Delta) (st : St) : St :=
  mkSt (d_heap d) (d_next d) (models st) (d_analyzers d) (d_mask_store d)
    (d_np_rng d) (session st) (d_emulator d) (console st ++ d_console d)
    (log st ++ d_log d) (files st) (pearson_list st ++ d_pearson d)
    (ssim_list st ++ d_ssim d) (spearman_list st ++ d_spearman d)
    (model_list st ++ d_model_list d) (action_list st ++ d_action_list d).

Definition then_delta (d1 d2 : Delta) : Delta :=
  mkDelta (d_heap d2) (d_next d2) (d_analyzers d2) (d_mask_store d2)
    (d_np_rng d2) (d_emulator d2) (d_console d1 ++ d_console d2)
    (d_log d1 ++ d_log d2) (d_pearson d1 ++ d_pearson d2)
    (d_ssim d1 ++ d_ssim d2) (d_spearman d1 ++ d_spearman d2)
    (d_model_list d1 ++ d_model_list d2)
    (d_action_list d1 ++ d_action_list d2).

Definition no_delta (st : St) : Delta :=
  mkDelta (heap st) (next_buf st) (analyzers st) (mask_store st) (np_rng st)
    (emulator st) [] [] [] [] [] [] [].

Lemma apply_then_delta (d1 d2 : Delta) (st : St) :
  apply_delta d2 (apply_delta d1 st) = apply_delta (then_delta d1 d2) st.
Proof.
  unfold apply_delta, then_delta. cbn.
  rewrite <- !app_assoc. reflexivity.
Qed.

Lemma apply_no_delta (st : St) : apply_delta (no_delta st) st = st.
Proof.
  destruct st. unfold apply_delta, no_delta. cbn.
  rewrite !app_nil_r. reflexivity.
Qed.

(** The trace without the drawings of masks. *)
Definition is_call (e : event) : bool :=
  match e with
  | EvMasks _ _ => false
  | _ => true
  end.

Fixpoint calls (l : list event) : list event :=
  match l with
  | [] => []
  | e :: r => if is_call e then e :: calls r else calls r
  end.

Lemma calls_app (l1 l2 : list event) : calls (l1 ++ l2) = calls l1 ++ calls l2.
Proof.
  induction l1 as [|e l1 IH]; cbn; [reflexivity|].
  destruct (is_call e); cbn; rewrite IH; reflexivity.
Qed.

End Delta.

Ltac delta_simpl :=
  cbn [d_heap d_next d_analyzers d_mask_store d_np_rng d_emulator d_console
       d_log d_pearson d_ssim d_spearman d_model_list d_action_list
       apply_delta then_delta no_delta] in *.

(** Closes [st' = apply_delta d st] for an explicit [st'], field by field. *)
Ltac delta_eq_pre :=
  unfold apply_delta, with_heap; delta_simpl;
  etransitivity; [apply St_eta|]; st_simpl; delta_simpl.

Ltac delta_eq_post :=
  f_equal;
  first [ reflexivity
        | symmetry; apply app_nil_r
        | rewrite <- ?app_assoc; reflexivity
        | rewrite ?app_nil_r, <- ?app_assoc; reflexivity ].

Ltac delta_eq := delta_eq_pre; delta_eq_post.

Section Blocks.

Context {E : Externals}.

Lemma get_weights_inv (m : nat) (w : Model) (st st' : St) :
  get_weights m st = Ok w st' -> models st !! m = Some w /\ st' = st.
Proof. unfold get_weights. intros H. run_inv. auto. Qed.

Lemma analyzer_inv (an : nat) (A : Analyzer) (st st' : St) :
  analyzer an st = Ok A st' -> analyzers st !! an = Some A /\ st' = st.
Proof. unfold analyzer. intros H. run_inv. auto. Qed.

Lemma np_squeeze_inv (a r : ndarray) (st st' : St) :
  np_squeeze a st = Ok r st' ->
  r = mkArr (buf a) (squeeze_shape (shape a)) /\ st' = st.
Proof. unfold np_squeeze. intros H. run_inv. auto. Qed.

Lemma to_array_inv (t : tensor) (r : ndarray) (st st' : St) :
  to_array t st = Ok r st' ->
  r = mkArr (next_buf st) (t_shape t) /\
  st' = with_heap (<[next_buf st := t_data t]> (heap st))
          (Pos.succ (next_buf st)) st.
Proof. unfold to_array. intros H. run_inv. auto. Qed.

Lemma with_env_inv {A} (f : Env -> A * Env) (r : A) (st st' : St) :
  with_env f st = Ok r st' ->
  exists e, emulator st = Some e /\ r = fst (f e) /\
            st' = set_emulator (Some (snd (f e))) st.
Proof. unfold with_env. intros H. run_inv. eauto. Qed.

End Blocks.

Ltac blk_step :=
  match goal with
  | H : get_weights _ _ = Ok _ _ |- _ =>
      apply get_weights_inv in H; destruct H as [? ?]; subst
  | H : analyzer _ _ = Ok _ _ |- _ =>
      apply analyzer_inv in H; destruct H as [? ?]; subst
  | H : np_squeeze _ _ = Ok _ _ |- _ =>
      apply np_squeeze_inv in H; destruct H as [? ?]; subst
  | H : to_array _ _ = Ok _ _ |- _ =>
      apply to_array_inv in H; destruct H as [? ?]; subst
  | H : with_env _ _ = Ok _ _ |- _ =>
      apply with_env_inv in H; destruct H as (? & ? & ? & ?); subst
  end.

Ltac run_all := repeat ((blk_step || sim_step || arr_step || run_step); st_simpl).

Section Saliency.

Context {E : Externals}.

(** The state after an explanation was written to a new array. *)
Definition explained (t : tensor) (evs : list event) (st : St) : St :=
  with_heap (<[next_buf st := t_data t]> (heap st)) (Pos.succ (next_buf st))
    (set_log (log st ++ evs) st).

(** A call of one of the six lambdas. *)
Lemma saliency_fn_run (fn : option method) (an : nat) (kw : Kwargs)
    (x : Frames) (a : option Z) (r : ndarray) (st st' : St) :
  saliency_fn fn an kw x a st = Ok r st' ->
  exists meth A w t,
    fn = Some meth /\ analyzers st !! an = Some A /\
    models st !! an_model A = Some w /\
    r = mkArr (next_buf st) (t_shape t) /\
    match meth with
    | Rise =>
        if masks_generated A then
          exists mk masks,
            rise_masks A = Some mk /\ mask_store st !! mk = Some masks /\
            t = rise_explanation kw w masks x a /\
            st' = explained t [EvExplain an x a (Some mk)] st
        else
          let mk := length (mask_store st) in
          let gm := generate_masks kw (np_rng st) in
          t = rise_explanation kw w (fst gm) x a /\
          st' = explained t [EvMasks an mk; EvExplain an x a (Some mk)]
                  (set_analyzers
                     (<[an := mkAnalyzer (an_model A) (Some mk) true]>
                        (analyzers st))
                     (set_np_rng (snd gm)
                        (set_mask_store (mask_store st ++ [fst gm]) st)))
    | _ =>
        t = fst (explanation meth kw w x a (np_rng st)) /\
        st' = explained t [EvExplain an x a None]
                (set_np_rng (snd (explanation meth kw w x a (np_rng st))) st)
    end.
Proof.
  unfold saliency_fn. intros H. run_inv.
  destruct x0 as [| | | |]; cbn [generate_explanation] in H.
  3: {
    unfold generate_rise_prediction, set_analyzer, emit in H.
    apply bind_inv in H as (A & s1 & HA & H).
    apply analyzer_inv in HA as [HA ->].
    destruct (masks_generated A) eqn:Hflag.
    - run_all. simplify_eq.
      eexists Rise, _, _, _.
      repeat (split; [try reflexivity; eassumption|]).
      rewrite Hflag.
      do 2 eexists. repeat (split; [try reflexivity; eassumption|]).
      unfold explained, with_heap. st_simpl. rewrite <- ?app_assoc. reflexivity.
    - run_all.
      assert (Han : (an < length (analyzers st))%nat)
        by (eapply lookup_lt_Some; eauto).
      rewrite list_lookup_insert_eq in * by exact Han.
      simplify_eq. st_simpl.
      cbn [rise_masks an_model masks_generated] in *. simplify_eq.
      rewrite lookup_app_r in * by lia.
      rewrite Nat.sub_diag in *. cbn [lookup list_lookup] in *.
      simplify_eq.
      eexists Rise, _, _, _.
      repeat (split; [try reflexivity; eassumption|]).
      rewrite Hflag. cbn zeta. split; [reflexivity|].
      unfold explained, with_heap. st_simpl. rewrite <- ?app_assoc. reflexivity.
  }
  all: unfold emit in H; run_all.
  all: eexists _, _, _, _.
  all: repeat (split; [try reflexivity; eassumption|]).
  all: unfold explained, with_heap; st_simpl; reflexivity.
Qed.

End Saliency.

(** ** The blocks of a policy-driven step *)

Section Steps.

Context {E : Externals}.

(** A delta that leaves the emulator, the console and the lists alone. *)
Definition quiet (d : Delta) (st : St) : Prop :=
  d_emulator d = emulator st /\ d_console d = [] /\ d_pearson d = [] /\
  d_ssim d = [] /\ d_spearman d = [] /\ d_model_list d = [] /\
  d_action_list d = [].

(** The analyzer holds masks already: a call draws none. *)
Definition masks_ready (fn : option method) (an mk : nat) (st : St) : Prop :=
  fn = Some Rise /\
  exists A, analyzers st !! an = Some A /\ masks_generated A = true /\
            rise_masks A = Some mk.

(** An event of a stretch in which no masks are drawn and every explanation
    uses the masks [mk]. *)
Definition uses_masks (mk : nat) (e : event) : Prop :=
  match e with
  | EvMasks _ _ => False
  | EvExplain _ _ _ m => m = Some mk
  | _ => True
  end.

Lemma saliency_fn_delta (fn : option method) (an : nat) (kw : Kwargs)
    (x : Frames) (a : option Z) (r : ndarray) (st st' : St) :
  saliency_fn fn an kw x a st = Ok r st' ->
  exists d m,
    st' = apply_delta d st /\
    hext (heap st) (next_buf st) (d_heap d) (d_next d) /\
    buf r = next_buf st /\ (buf r < d_next d)%positive /\
    quiet d st /\
    calls (d_log d) = [EvExplain an x a m] /\
    (forall mk, masks_ready fn an mk st ->
                d_analyzers d = analyzers st /\
                d_mask_store d = mask_store st /\
                d_log d = [EvExplain an x a (Some mk)]).
Proof.
  intros H. apply saliency_fn_run in H as (meth & A & w & t & -> & HA & Hw & -> & H).
  destruct meth.
  3: destruct (masks_generated A) eqn:Hflag;
       [destruct H as (mk & masks & Hmk & Hmasks & -> & ->)
       | cbn zeta in H; destruct H as (-> & ->)].
  1, 2, 5, 6: destruct H as (-> & ->).
  all: unfold explained.
  all: eexists (mkDelta _ _ _ _ _ _ [] _ [] [] [] [] []), _.
  all: split; [delta_eq|].
  all: delta_simpl; unfold quiet; delta_simpl.
  all: split; [apply hext_alloc|].
  all: split; [reflexivity|].
  all: split; [st_simpl; lia|].
  all: split; [auto 10|].
  all: split; [reflexivity|].
  all: intros mk' (Hfn & A' & HA' & Hflag' & Hmk'); simplify_eq.
  all: try congruence.
  all: auto.
Qed.

Lemma compare_variant_delta (L : Locals) (an : nat) (label : Z)
    (og : ndarray) (x : Frames) (a : Z) (st st' : St) :
  (buf og < next_buf st)%positive ->
  exec (compare_variant L an label og x a) st = Ok tt st' ->
  exists d m cand pe ss sp,
    st' = apply_delta d st /\
    hext (heap st) (next_buf st) (d_heap d) (d_next d) /\
    d_emulator d = emulator st /\ d_console d = [] /\
    d_pearson d = [pe] /\ d_ssim d = [ss] /\ d_spearman d = [sp] /\
    d_model_list d = [label] /\ d_action_list d = [a] /\
    calls (d_log d) = [EvExplain an x (Some a) m; EvCalcSim og cand] /\
    (forall mk, masks_ready (saliency_fns L) an mk st ->
                d_analyzers d = analyzers st /\
                d_mask_store d = mask_store st /\
                Forall (uses_masks mk) (d_log d)).
Proof.
  intros Hog H. unfold compare_variant in H.
  apply exec_seq_inv in H as (r & s1 & H1 & H). rewrite exec_stmt in H1.
  apply bind_inv in H1 as (r0 & s0 & H0 & H1).
  apply np_squeeze_inv in H1 as [-> ->].
  apply saliency_fn_delta in H0
    as (d0 & m & -> & Hx0 & Hr0 & Hr1 & Hq & Hcalls & Hready).
  destruct Hq as (Hq1 & Hq2 & Hq3 & Hq4 & Hq5 & Hq6 & Hq7).
  apply exec_seq_inv in H as ([] & s2 & H2 & H).
  apply calc_sim_run in H2 as (h' & n' & pe & ss & sp & _ & -> & Hx2);
    [|st_simpl; delta_simpl; exact Hr1].
  unfold action_list_append, model_list_append in H. run_inv.
  eexists (mkDelta h' n' (d_analyzers d0) (d_mask_store d0) (d_np_rng d0)
             (d_emulator d0) [] (d_log d0 ++ [EvCalcSim og _]) [pe] [ss] [sp]
             [label] [a]), m, _, pe, ss, sp.
  split.
  { delta_eq_pre. rewrite Hq2, Hq3, Hq4, Hq5, Hq6, Hq7, ?app_nil_r.
    delta_eq_post. }
  delta_simpl. split; [eapply hext_trans; eauto|].
  repeat (split; [reflexivity || assumption|]).
  split; [rewrite calls_app, Hcalls; reflexivity|].
  intros mk Hmk. destruct (Hready mk Hmk) as (-> & -> & ->).
  repeat split. repeat constructor.
Qed.

Lemma compare_random_delta (gaussian : bool) (label : Z) (og : ndarray)
    (a : Z) (st st' : St) :
  (buf og < next_buf st)%positive ->
  exec (compare_random gaussian label og a) st = Ok tt st' ->
  exists d cand pe ss sp,
    st' = apply_delta d st /\
    hext (heap st) (next_buf st) (d_heap d) (d_next d) /\
    d_emulator d = emulator st /\ d_console d = [] /\
    d_pearson d = [pe] /\ d_ssim d = [ss] /\ d_spearman d = [sp] /\
    d_model_list d = [label] /\ d_action_list d = [a] /\
    d_log d = [EvRandom gaussian; EvCalcSim og cand] /\
    d_analyzers d = analyzers st /\ d_mask_store d = mask_store st.
Proof.
  intros Hog H.
  unfold compare_random, random_array, emit, action_list_append,
    model_list_append in H.
  run_all.
  match goal with
  | Hc : exec (calc_sim _ _ _ _ _) _ = Ok ?u _ |- _ =>
      destruct u;
      apply calc_sim_run in Hc as (h' & n' & pe & ss & sp & _ & -> & Hx2);
      [|st_simpl; lia]
  end.
  st_simpl.
  eexists (mkDelta h' n' (analyzers st) (mask_store st) _ (emulator st) []
             [EvRandom gaussian; EvCalcSim og _] [pe] [ss] [sp] [label] [a]),
    _, pe, ss, sp.
  split; [delta_eq|].
  delta_simpl. split.
  { eapply hext_trans; [apply hext_alloc | exact Hx2]. }
  auto 15.
Qed.

(** The six analyzers of the run hold the masks [mk]. *)
Definition six_analyzers (L : Locals) : list nat :=
  [original_analyzer L; analyzer1 L; analyzer2 L; analyzer3 L; analyzer4 L;
   analyzer5 L].

Definition all_ready (L : Locals) (mk : nat) (st : St) : Prop :=
  Forall (fun an => masks_ready (saliency_fns L) an mk st) (six_analyzers L).

(** What has been gathered of a policy-driven step after the comparators
    [labels]: the state is [apply_delta D st]. *)
Definition step_acc (L : Locals) (st : St) (og : ndarray) (a : Z) (D : Delta)
    (labels : list Z) (cs : list event) : Prop :=
  hext (heap st) (next_buf st) (d_heap D) (d_next D) /\
  (buf og < d_next D)%positive /\
  d_emulator D = emulator st /\ d_console D = [] /\
  d_model_list D = labels /\ d_action_list D = map (fun _ => a) labels /\
  length (d_pearson D) = length labels /\
  length (d_ssim D) = length labels /\
  length (d_spearman D) = length labels /\
  calls (d_log D) = cs /\
  (forall mk, all_ready L mk st ->
              d_analyzers D = analyzers st /\
              d_mask_store D = mask_store st /\
              Forall (uses_masks mk) (d_log D)).

Lemma masks_ready_apply (fn : option method) (an mk : nat) (D : Delta) (st : St) :
  d_analyzers D = analyzers st ->
  masks_ready fn an mk st -> masks_ready fn an mk (apply_delta D st).
Proof.
  intros HD (Hfn & A & HA & H1 & H2). split; [exact Hfn|].
  exists A. unfold apply_delta. st_simpl. rewrite HD. auto.
Qed.

Lemma step_acc_variant (L : Locals) (st : St) (og : ndarray) (a : Z)
    (D : Delta) (labels : list Z) (cs : list event) (an : nat) (label : Z)
    (x : Frames) (st' : St) :
  step_acc L st og a D labels cs ->
  In an (six_analyzers L) ->
  exec (compare_variant L an label og x a) (apply_delta D st) = Ok tt st' ->
  exists D' m cand,
    st' = apply_delta D' st /\
    step_acc L st og a D' (labels ++ [label])
      (cs ++ [EvExplain an x (Some a) m; EvCalcSim og cand]).
Proof.
  intros (Hx & Hog & Hemu & Hcon & Hml & Hal & Hpe & Hss & Hsp & Hcs & Hrdy)
    Han H.
  apply compare_variant_delta in H
    as (d & m & cand & pe & ss & sp & -> & Hx' & Hemu' & Hcon' & Hpe' & Hss' &
        Hsp' & Hml' & Hal' & Hcs' & Hrdy'); [|exact Hog].
  exists (then_delta D d), m, cand. split; [apply apply_then_delta|].
  unfold apply_delta in Hx', Hemu', Hrdy'. st_simpl.
  unfold step_acc. delta_simpl.
  split; [eapply hext_trans; eauto|].
  split; [destruct Hx' as [Hle _]; lia|].
  split; [congruence|].
  split; [rewrite Hcon, Hcon'; reflexivity|].
  split; [congruence|].
  split; [rewrite Hal, Hal', map_app; reflexivity|].
  rewrite !length_app, Hpe', Hss', Hsp', Hpe, Hss, Hsp.
  repeat (split; [reflexivity|]).
  split; [rewrite calls_app, Hcs, Hcs'; reflexivity|].
  intros mk Hall. destruct (Hrdy mk Hall) as (HA & HM & HF).
  destruct (Hrdy' mk) as (HA' & HM' & HF').
  { unfold all_ready in Hall. rewrite Forall_forall in Hall.
    apply list_elem_of_In in Han. specialize (Hall an Han).
    destruct Hall as (Hfn & A & HAn & H1 & H2). split; [exact Hfn|].
    exists A. rewrite HA. auto. }
  split; [congruence|]. split; [congruence|].
  apply Forall_app. auto.
Qed.

Lemma step_acc_random (L : Locals) (st : St) (og : ndarray) (a : Z)
    (D : Delta) (labels : list Z) (cs : list event) (gaussian : bool)
    (label : Z) (st' : St) :
  step_acc L st og a D labels cs ->
  exec (compare_random gaussian label og a) (apply_delta D st) = Ok tt st' ->
  exists D' cand,
    st' = apply_delta D' st /\
    step_acc L st og a D' (labels ++ [label])
      (cs ++ [EvRandom gaussian; EvCalcSim og cand]).
Proof.
  intros (Hx & Hog & Hemu & Hcon & Hml & Hal & Hpe & Hss & Hsp & Hcs & Hrdy) H.
  apply compare_random_delta in H
    as (d & cand & pe & ss & sp & -> & Hx' & Hemu' & Hcon' & Hpe' & Hss' &
        Hsp' & Hml' & Hal' & Hlog' & HA' & HM'); [|exact Hog].
  exists (then_delta D d), cand. split; [apply apply_then_delta|].
  unfold apply_delta in Hx', Hemu', HA', HM'. st_simpl.
  unfold step_acc. delta_simpl.
  split; [eapply hext_trans; eauto|].
  split; [destruct Hx' as [Hle _]; lia|].
  split; [congruence|].
  split; [rewrite Hcon, Hcon'; reflexivity|].
  split; [congruence|].
  split; [rewrite Hal, Hal', map_app; reflexivity|].
  rewrite !length_app, Hpe', Hss', Hsp', Hpe, Hss, Hsp.
  repeat (split; [reflexivity|]).
  split; [rewrite calls_app, Hcs, Hlog'; reflexivity|].
  intros mk Hall. destruct (Hrdy mk Hall) as (HA & HM & HF).
  split; [congruence|]. split; [congruence|].
  apply Forall_app. split; [exact HF|]. rewrite Hlog'.
  repeat constructor.
Qed.

End Steps.

(** ** A policy-driven step *)

Section Policy.

Context {E : Externals}.

(** The calls of a policy-driven step, in order: the prediction of the
    trained model on the state [x0], then the explanation of the trained
    model and, for each comparator, what produces its map and the
    comparison with the map [og] of the trained model. *)
Definition policy_calls (L : Locals) (x0 : Frames) (a : Z) (og : ndarray)
    (m0 m1 m2 m3 m4 m5 : option nat) (c1 c2 c3 c4 c5 u g : ndarray)
  : list event :=
  let x := np_squeeze_frames (np_expand_dims x0) in
  [EvPredict (model L) (np_expand_dims x0);
   EvExplain (original_analyzer L) x (Some a) m0;
   EvExplain (analyzer1 L) x (Some a) m1; EvCalcSim og c1;
   EvExplain (analyzer2 L) x (Some a) m2; EvCalcSim og c2;
   EvExplain (analyzer3 L) x (Some a) m3; EvCalcSim og c3;
   EvExplain (analyzer4 L) x (Some a) m4; EvCalcSim og c4;
   EvExplain (analyzer5 L) x (Some a) m5; EvCalcSim og c5;
   EvRandom false; EvCalcSim og u;
   EvRandom true; EvCalcSim og g].

Lemma model_predict_inv (m : nat) (x : Frames) (r : list Q) (st st' : St) :
  model_predict m x st = Ok r st' ->
  exists w, models st !! m = Some w /\ r = predict w x /\
            st' = set_log (log st ++ [EvPredict m x]) st.
Proof. unfold model_predict, emit. intros H. run_all. eauto. Qed.

Lemma policy_step_delta (L : Locals) (sf : option Frames) (a : Z)
    (st st' : St) :
  exec (policy_step L sf) st = Ok a st' ->
  exists x0 w D og m0 m1 m2 m3 m4 m5 c1 c2 c3 c4 c5 u g,
    sf = Some x0 /\ models st !! model L = Some w /\
    np_argmax (predict w (np_expand_dims x0)) = Some a /\
    st' = apply_delta D st /\
    step_acc L st og a D [1; 2; 3; 4; 5; 6; 7]%Z
      (policy_calls L x0 a og m0 m1 m2 m3 m4 m5 c1 c2 c3 c4 c5 u g).
Proof.
  intros H. unfold policy_step in H.
  apply exec_seq_inv in H as (x1 & s1 & H1 & H). rewrite exec_stmt in H1.
  apply bind_inv in H1 as (x & s0 & Hn & Hr).
  apply name_inv in Hn as [-> ->]. apply ret_inv in Hr as [-> ->].
  apply exec_seq_inv in H as (out & s2 & H2 & H). rewrite exec_stmt in H2.
  apply model_predict_inv in H2 as (w & Hw & -> & ->).
  apply exec_seq_inv in H as (x2 & s3 & H3 & H). rewrite exec_stmt in H3.
  apply ret_inv in H3 as [-> ->].
  apply exec_seq_inv in H as (act & s4 & H4 & H). rewrite exec_stmt in H4.
  destruct (np_argmax (predict w (np_expand_dims x))) as [a0|] eqn:Harg;
    [|discriminate].
  apply ret_inv in H4 as [-> ->].
  apply exec_seq_inv in H as (og0 & s5 & H5 & H). rewrite exec_stmt in H5.
  apply saliency_fn_delta in H5
    as (d & m0 & -> & Hx & Hb & Hlt & Hq & Hcs & Hrdy).
  destruct Hq as (Hq1 & Hq2 & Hq3 & Hq4 & Hq5 & Hq6 & Hq7).
  apply exec_seq_inv in H as (og & s6 & H6 & H). rewrite exec_stmt in H6.
  apply np_squeeze_inv in H6 as [-> ->].
  st_simpl.
  set (og := mkArr (buf og0) (squeeze_shape (shape og0))) in *.
  set (D0 := mkDelta (d_heap d) (d_next d) (d_analyzers d) (d_mask_store d)
               (d_np_rng d) (emulator st) [] 
               (EvPredict (model L) (np_expand_dims x) :: d_log d)
               [] [] [] [] []).
  assert (HD0 : apply_delta d
                  (set_log (log st ++ [EvPredict (model L) (np_expand_dims x)])
                     st) = apply_delta D0 st).
  { unfold D0. delta_eq_pre.
    rewrite Hq1, Hq2, Hq3, Hq4, Hq5, Hq6, Hq7.
    st_simpl. f_equal. rewrite <- app_assoc. reflexivity. }
  rewrite HD0 in H.
  assert (Hacc : step_acc L st og a0 D0 []
                   [EvPredict (model L) (np_expand_dims x);
                    EvExplain (original_analyzer L)
                      (np_squeeze_frames (np_expand_dims x)) (Some a0) m0]).
  { unfold step_acc, D0. delta_simpl. st_simpl.
    split; [exact Hx|]. split; [exact Hlt|].
    repeat (split; [reflexivity|]).
    split; [cbn [calls is_call]; rewrite Hcs; reflexivity|].
    intros mk Hall. destruct (Hrdy mk) as (HA & HM & HL).
    { unfold all_ready, six_analyzers in Hall.
      apply Forall_cons in Hall as [(Hfn & A & HA & Hf & Hm) _].
      split; [exact Hfn|]. exists A. st_simpl. auto. }
    st_simpl. split; [exact HA|]. split; [exact HM|].
    rewrite HL. repeat constructor. }
  clearbody D0 og. clear HD0 Hx Hb Hlt Hq1 Hq2 Hq3 Hq4 Hq5 Hq6 Hq7 Hcs Hrdy.
  apply exec_seq_inv in H as ([] & t1 & K1 & H).
  eapply step_acc_variant in K1 as (D1 & m1 & c1 & -> & Hacc1);
    [|exact Hacc|unfold six_analyzers; cbn; auto 10].
  apply exec_seq_inv in H as ([] & t2 & K2 & H).
  eapply step_acc_variant in K2 as (D2 & m2 & c2 & -> & Hacc2);
    [|exact Hacc1|unfold six_analyzers; cbn; auto 10].
  apply exec_seq_inv in H as ([] & t3 & K3 & H).
  eapply step_acc_variant in K3 as (D3 & m3 & c3 & -> & Hacc3);
    [|exact Hacc2|unfold six_analyzers; cbn; auto 10].
  apply exec_seq_inv in H as ([] & t4 & K4 & H).
  eapply step_acc_variant in K4 as (D4 & m4 & c4 & -> & Hacc4);
    [|exact Hacc3|unfold six_analyzers; cbn; auto 10].
  apply exec_seq_inv in H as ([] & t5 & K5 & H).
  eapply step_acc_variant in K5 as (D5 & m5 & c5 & -> & Hacc5);
    [|exact Hacc4|unfold six_analyzers; cbn; auto 10].
  apply exec_seq_inv in H as ([] & t6 & K6 & H).
  eapply step_acc_random in K6 as (D6 & u & -> & Hacc6); [|exact Hacc5].
  apply exec_seq_inv in H as ([] & t7 & K7 & H).
  eapply step_acc_random in K7 as (D7 & g & -> & Hacc7); [|exact Hacc6].
  cbn in H. injection H as <- <-.
  exists x, w, D7, og, m0, m1, m2, m3, m4, m5, c1, c2, c3, c4, c5, u, g.
  repeat (split; [reflexivity || assumption|]).
  exact Hacc7.
Qed.

End Policy.

(** ** One iteration of the loop *)

Section Body.

Context {E : Externals}.

Definition seven : list Z := [1; 2; 3; 4; 5; 6; 7]%Z.

(** What an iteration prints. *)
Definition progress (i : nat) : list line :=
  if (i mod 10 =? 0)%nat then [PInt i; PTime] else [].

Lemma progress_run (i : nat) (st st' : St) (u : unit) :
  exec (if (i mod 10 =? 0)%nat
        then seq_prog (stmt (print (PInt i))) (fun _ => stmt (print PTime))
        else Ret tt) st = Ok u st' ->
  st' = set_console (console st ++ progress i) st.
Proof.
  unfold progress. destruct (i mod 10 =? 0)%nat; intros H.
  - unfold print in H. run_all. rewrite <- app_assoc. reflexivity.
  - cbn in H. injection H as _ <-. rewrite app_nil_r.
    destruct st; reflexivity.
Qed.

Lemma wrapper_step_run (a : Z) (r : Frames) (st st' : St) :
  bind (with_env (wrapper_step a))
    (fun x => bind (emit (EvStep a)) (fun _ => ret x)) st = Ok r st' ->
  exists e, emulator st = Some e /\ r = fst (wrapper_step a e) /\
            st' = set_log (log st ++ [EvStep a])
                    (set_emulator (Some (snd (wrapper_step a e))) st).
Proof. unfold emit. intros H. run_all. eauto. Qed.

(** An iteration past the warm-up. *)
Lemma loop_body_policy (L : Locals) (i : nat) (sf sf' : option Frames)
    (st st' : St) :
  (4 <= i)%nat ->
  exec (loop_body L i sf) st = Ok sf' st' ->
  exists x0 w a e D og m0 m1 m2 m3 m4 m5 c1 c2 c3 c4 c5 u g,
    sf = Some x0 /\ models st !! model L = Some w /\
    np_argmax (predict w (np_expand_dims x0)) = Some a /\
    emulator st = Some e /\ sf' = Some (fst (wrapper_step a e)) /\
    st' = apply_delta D st /\
    d_emulator D = Some (snd (wrapper_step a e)) /\
    d_console D = progress i /\
    hext (heap st) (next_buf st) (d_heap D) (d_next D) /\
    (buf og < d_next D)%positive /\
    d_model_list D = seven /\ d_action_list D = map (fun _ => a) seven /\
    length (d_pearson D) = 7%nat /\ length (d_ssim D) = 7%nat /\
    length (d_spearman D) = 7%nat /\
    calls (d_log D) =
      policy_calls L x0 a og m0 m1 m2 m3 m4 m5 c1 c2 c3 c4 c5 u g ++ [EvStep a] /\
    (forall mk, all_ready L mk st ->
                d_analyzers D = analyzers st /\
                d_mask_store D = mask_store st /\
                Forall (uses_masks mk) (d_log D)).
Proof.
  intros Hi H. unfold loop_body in H.
  apply exec_seq_inv in H as (u0 & s1 & H1 & H).
  apply progress_run in H1 as ->.
  apply Nat.ltb_ge in Hi. rewrite Hi in H.
  apply exec_seq_inv in H as (a & s2 & H2 & H).
  apply policy_step_delta in H2
    as (x0 & w & D & og & m0 & m1 & m2 & m3 & m4 & m5 & c1 & c2 & c3 & c4 & c5 &
        u & g & -> & Hw & Harg & -> & Hacc).
  destruct Hacc as (Hx & Hog & Hemu & Hcon & Hml & Hal & Hpe & Hss & Hsp & Hcs & Hrdy).
  apply exec_seq_inv in H as (fr & s3 & H3 & H). rewrite exec_stmt in H3.
  apply wrapper_step_run in H3 as (e & He & -> & ->).
  cbn in H. injection H as <- <-.
  unfold apply_delta in He. st_simpl. rewrite Hemu in He.
  exists x0, w, a, e.
  exists (mkDelta (d_heap D) (d_next D) (d_analyzers D) (d_mask_store D)
            (d_np_rng D) (Some (snd (wrapper_step a e))) (progress i)
            (d_log D ++ [EvStep a]) (d_pearson D) (d_ssim D) (d_spearman D)
            (d_model_list D) (d_action_list D)).
  exists og, m0, m1, m2, m3, m4, m5, c1, c2, c3, c4, c5, u, g.
  repeat (split; [reflexivity || assumption|]).
  split.
  { delta_eq_pre. rewrite Hcon, ?app_nil_r. f_equal.
    rewrite <- app_assoc. reflexivity. }
  delta_simpl. st_simpl.
  repeat (split; [reflexivity || assumption|]).
  split; [rewrite calls_app, Hcs; reflexivity|].
  intros mk Hall. destruct (Hrdy mk) as (HA & HM & HF).
  { unfold all_ready in *. eapply Forall_impl; [exact Hall|].
    intros an (Hfn & A & HAn & H1 & H2). split; [exact Hfn|]. exists A.
    st_simpl. auto. }
  st_simpl. split; [exact HA|]. split; [exact HM|].
  apply Forall_app. split; [exact HF | repeat constructor].
Qed.

End Body.

(** ** A warm-up iteration and the sharing of the masks *)

Section Warm.

Context {E : Externals}.

(** [analyzer_k.rise_masks = original_analyzer.rise_masks] followed by
    [analyzer_k.masks_generated = True], on the store of analyzers. *)
Definition share_one (dst src : nat) (ans : list Analyzer) : list Analyzer :=
  match ans !! src, ans !! dst with
  | Some A, Some B => <[dst := mkAnalyzer (an_model B) (rise_masks A) true]> ans
  | _, _ => ans
  end.

Definition ready_at (mk : nat) (ans : list Analyzer) (an : nat) : Prop :=
  exists A, ans !! an = Some A /\ masks_generated A = true /\
            rise_masks A = Some mk.

Lemma share_pair_run (dst src : nat) (u1 u2 : unit) (st s1 st' : St) :
  assign_rise_masks dst src st = Ok u1 s1 ->
  assign_masks_generated dst s1 = Ok u2 st' ->
  st' = set_analyzers (share_one dst src (analyzers st)) st /\
  is_Some (analyzers st !! src) /\ is_Some (analyzers st !! dst).
Proof.
  unfold assign_rise_masks, assign_masks_generated, set_analyzer.
  intros H1 H2. run_all.
  assert (Hd : (dst < length (analyzers st))%nat)
    by (eapply lookup_lt_Some; eauto).
  rewrite list_lookup_insert_eq in * by exact Hd. simplify_eq.
  cbn [an_model rise_masks masks_generated].
  unfold share_one.
  repeat match goal with H : _ !! _ = Some _ |- _ => rewrite H end.
  rewrite list_insert_insert_eq. eauto.
Qed.

Lemma share_one_length (dst src : nat) (ans : list Analyzer) :
  length (share_one dst src ans) = length ans.
Proof.
  unfold share_one. destruct (ans !! src); [|reflexivity].
  destruct (ans !! dst); [apply length_insert | reflexivity].
Qed.

Lemma share_one_other (dst src an : nat) (ans : list Analyzer) :
  an <> dst -> share_one dst src ans !! an = ans !! an.
Proof.
  intros Hne. unfold share_one. destruct (ans !! src); [|reflexivity].
  destruct (ans !! dst); [|reflexivity].
  apply list_lookup_insert_ne. auto.
Qed.

Lemma share_one_ready (mk dst src : nat) (ans : list Analyzer) :
  ready_at mk ans src -> is_Some (ans !! dst) ->
  ready_at mk (share_one dst src ans) dst.
Proof.
  intros (A & HA & H1 & H2) [B HB]. unfold share_one. rewrite HA, HB.
  eexists. split; [apply list_lookup_insert_eq; eapply lookup_lt_Some; eauto|].
  cbn. auto.
Qed.

Lemma share_one_keeps (mk dst src an : nat) (ans : list Analyzer) :
  an <> dst -> ready_at mk ans an -> ready_at mk (share_one dst src ans) an.
Proof.
  intros Hne (A & HA & H1 & H2). exists A.
  rewrite share_one_other by exact Hne. auto.
Qed.

Lemma share_one_is_Some (dst src an : nat) (ans : list Analyzer) :
  is_Some (share_one dst src ans !! an) <-> is_Some (ans !! an).
Proof.
  rewrite !lookup_lt_is_Some, share_one_length. reflexivity.
Qed.

(** The store after the five pairs of assignments. *)
Definition share_all (L : Locals) (ans : list Analyzer) : list Analyzer :=
  share_one (analyzer5 L) (original_analyzer L)
    (share_one (analyzer4 L) (original_analyzer L)
       (share_one (analyzer3 L) (original_analyzer L)
          (share_one (analyzer2 L) (original_analyzer L)
             (share_one (analyzer1 L) (original_analyzer L) ans)))).

Lemma share_all_ready (L : Locals) (mk : nat) (ans : list Analyzer) :
  NoDup (six_analyzers L) ->
  ready_at mk ans (original_analyzer L) ->
  Forall (fun an => is_Some (ans !! an)) (six_analyzers L) ->
  Forall (ready_at mk (share_all L ans)) (six_analyzers L).
Proof.
  unfold six_analyzers, share_all. intros Hnd H0 Hin.
  repeat match goal with
         | H : NoDup (_ :: _) |- _ => apply NoDup_cons in H as [? H]
         | H : Forall _ (_ :: _) |- _ => apply Forall_cons in H as [? H]
         end.
  repeat match goal with
         | H : _ ∉ _ :: _ |- _ => apply not_elem_of_cons in H as [? H]
         end.
  repeat constructor.
  all: repeat first
         [ assumption
         | apply share_one_keeps; [congruence|]
         | apply share_one_ready; [|rewrite ?share_one_is_Some; assumption] ].
Qed.

Lemma share_rise_masks_run (L : Locals) (sf : option Frames) (st st' : St) :
  exec (share_rise_masks L sf) st = Ok tt st' ->
  exists x0 r s1,
    sf = Some x0 /\
    saliency_fn (saliency_fns L) (original_analyzer L) (kwargs L) x0 None st
      = Ok r s1 /\
    st' = set_analyzers (share_all L (analyzers s1)) s1 /\
    Forall (fun an => is_Some (analyzers s1 !! an)) (six_analyzers L).
Proof.
  intros H. unfold share_rise_masks in H.
  apply exec_seq_inv in H as (r & s1 & H1 & H). rewrite exec_stmt in H1.
  apply bind_inv in H1 as (x0 & s0 & Hn & H1).
  apply name_inv in Hn as [-> ->].
  exists x0, r, s1. split; [reflexivity|]. split; [exact H1|].
  repeat (apply exec_seq_inv in H as (? & ? & ? & H)).
  rewrite exec_stmt in *.
  repeat match goal with
         | H1 : assign_rise_masks ?d ?s ?a = Ok _ ?b,
           H2 : assign_masks_generated ?d ?b = Ok _ ?c |- _ =>
             destruct (share_pair_run _ _ _ _ _ _ _ H1 H2) as (? & ? & ?);
             clear H1 H2; subst c; st_simpl
         end.
  rewrite ?share_one_is_Some in *.
  split.
  - unfold share_all. etransitivity; [apply St_eta|].
    symmetry. etransitivity; [apply St_eta|]. st_simpl. reflexivity.
  - unfold six_analyzers. repeat constructor; assumption.
Qed.

(** The action of the warm-up: [fixed_start] is set. *)
Definition warm_action (L : Locals) : Z :=
  if String.eqb (game L) "breakout" then 1%Z else 0%Z.

Definition shares (L : Locals) (i : nat) : bool :=
  String.eqb (approach L) "rise" && (i =? 3)%nat.

Lemma loop_body_warm_inv (L : Locals) (i : nat) (sf sf' : option Frames)
    (st st' : St) :
  (i < 4)%nat ->
  exec (loop_body L i sf) st = Ok sf' st' ->
  exists e s1,
    emulator st = Some e /\
    exec (if shares L i then share_rise_masks L sf else Ret tt)
      (set_emulator (Some (snd (action_space_sample e)))
         (set_console (console st ++ progress i) st)) = Ok tt s1 /\
    exists e2,
      emulator s1 = Some e2 /\
      sf' = Some (fst (wrapper_step (warm_action L) e2)) /\
      st' = set_log (log s1 ++ [EvStep (warm_action L)])
              (set_emulator (Some (snd (wrapper_step (warm_action L) e2))) s1).
Proof.
  intros Hi H. unfold loop_body in H.
  apply exec_seq_inv in H as (u0 & s0 & H0 & H).
  apply progress_run in H0 as ->.
  apply Nat.ltb_lt in Hi. rewrite Hi in H.
  apply exec_seq_inv in H as (a & s2 & H2 & H).
  apply exec_seq_inv in H as (fr & s3 & H3 & H). rewrite exec_stmt in H3.
  apply wrapper_step_run in H3 as (e2 & He2 & -> & ->).
  cbn in H. injection H as <- <-.
  unfold warm_up_step in H2.
  apply exec_seq_inv in H2 as (a0 & t1 & K1 & H2). rewrite exec_stmt in K1.
  apply with_env_inv in K1 as (e & He & -> & ->). st_simpl.
  apply exec_seq_inv in H2 as (a1 & t2 & K2 & H2).
  assert (a1 = warm_action L /\ t2 =
            set_emulator (Some (snd (action_space_sample e)))
              (set_console (console st ++ progress i) st)) as [-> ->].
  { unfold warm_action. destruct (String.eqb (game L) "breakout");
      rewrite exec_stmt in K2; apply ret_inv in K2 as [-> ->]; auto. }
  apply exec_seq_inv in H2 as ([] & t3 & K3 & H2).
  cbn in H2. injection H2 as <- <-.
  exists e, t3. split; [exact He|]. split.
  { unfold shares. destruct (String.eqb (approach L) "rise"); cbn [andb];
      [destruct (i =? 3)%nat|]; exact K3. }
  exists e2. auto.
Qed.

(** The events of a stretch of the trace that are steps of the
    environment, and those that are comparisons. *)
Fixpoint steps_of (l : list event) : list Z :=
  match l with
  | [] => []
  | EvStep a :: r => a :: steps_of r
  | _ :: r => steps_of r
  end.

Fixpoint comparisons (l : list event) : list (ndarray * ndarray) :=
  match l with
  | [] => []
  | EvCalcSim a b :: r => (a, b) :: comparisons r
  | _ :: r => comparisons r
  end.

Lemma steps_of_app (l1 l2 : list event) :
  steps_of (l1 ++ l2) = steps_of l1 ++ steps_of l2.
Proof.
  induction l1 as [|e l1 IH]; cbn; [reflexivity|].
  destruct e; cbn; rewrite IH; reflexivity.
Qed.

Lemma comparisons_app (l1 l2 : list event) :
  comparisons (l1 ++ l2) = comparisons l1 ++ comparisons l2.
Proof.
  induction l1 as [|e l1 IH]; cbn; [reflexivity|].
  destruct e; cbn; rewrite IH; reflexivity.
Qed.

Lemma steps_of_calls (l : list event) : steps_of (calls l) = steps_of l.
Proof.
  induction l as [|e l IH]; cbn; [reflexivity|].
  destruct e; cbn; rewrite ?IH; reflexivity.
Qed.

Lemma comparisons_calls (l : list event) : comparisons (calls l) = comparisons l.
Proof.
  induction l as [|e l IH]; cbn; [reflexivity|].
  destruct e; cbn; rewrite ?IH; reflexivity.
Qed.

(** A warm-up iteration leaves the five lists alone and compares nothing. *)
Lemma loop_body_warm (L : Locals) (i : nat) (sf sf' : option Frames)
    (st st' : St) :
  (i < 4)%nat ->
  exec (loop_body L i sf) st = Ok sf' st' ->
  exists D,
    st' = apply_delta D st /\
    is_Some (d_emulator D) /\
    d_console D = progress i /\
    hext (heap st) (next_buf st) (d_heap D) (d_next D) /\
    d_pearson D = [] /\ d_ssim D = [] /\ d_spearman D = [] /\
    d_model_list D = [] /\ d_action_list D = [] /\
    steps_of (d_log D) = [warm_action L] /\
    comparisons (d_log D) = [] /\
    (shares L i = false ->
     d_log D = [EvStep (warm_action L)] /\
     d_analyzers D = analyzers st /\ d_mask_store D = mask_store st).
Proof.
  intros Hi H.
  apply loop_body_warm_inv in H as (e & s1 & He & H & e2 & He2 & -> & ->);
    [|exact Hi].
  destruct (shares L i).
  - apply share_rise_masks_run in H as (x0 & r & s0 & -> & H & -> & _).
    apply saliency_fn_delta in H
      as (d & m & -> & Hx & Hb & Hlt & Hq & Hcs & _).
    destruct Hq as (Hq1 & Hq2 & Hq3 & Hq4 & Hq5 & Hq6 & Hq7).
    eexists (mkDelta (d_heap d) (d_next d) _ (d_mask_store d) (d_np_rng d)
               (Some _) (progress i) (d_log d ++ [EvStep (warm_action L)])
               [] [] [] [] []).
    split.
    { delta_eq_pre. rewrite Hq2, Hq3, Hq4, Hq5, Hq6, Hq7, ?app_nil_r.
      delta_eq_post. }
    delta_simpl. split; [eauto|]. split; [reflexivity|].
    split; [exact Hx|].
    repeat (split; [reflexivity|]).
    rewrite <- steps_of_calls, <- comparisons_calls, calls_app, Hcs.
    split; [reflexivity|]. split; [reflexivity|]. discriminate.
  - cbn in H. injection H as <-.
    eexists (mkDelta (heap st) (next_buf st) (analyzers st) (mask_store st)
               (np_rng st) (Some _) (progress i) [EvStep (warm_action L)]
               [] [] [] [] []).
    split; [delta_eq|].
    delta_simpl. split; [eauto|]. split; [reflexivity|].
    split; [apply hext_refl|]. auto 15.
Qed.

End Warm.

(** ** The loop *)

Section Loop.

Context {E : Externals}.

Lemma exec_for_each_cons {A S} (x : A) (l : list A) (body : A -> S -> prog S)
    (s s' : S) (st st' : St) :
  exec (for_each (x :: l) body s) st = Ok s' st' ->
  exists s1 st1,
    exec (body x s) st = Ok s1 st1 /\ exec (for_each l body s1) st1 = Ok s' st'.
Proof. cbn [for_each]. apply exec_seq_inv. Qed.

Lemma exec_for_each_app {A S} (l1 l2 : list A) (body : A -> S -> prog S)
    (s s' : S) (st st' : St) :
  exec (for_each (l1 ++ l2) body s) st = Ok s' st' ->
  exists s1 st1,
    exec (for_each l1 body s) st = Ok s1 st1 /\
    exec (for_each l2 body s1) st1 = Ok s' st'.
Proof.
  revert s st. induction l1 as [|x l1 IH]; intros s st H.
  - exists s, st. split; [reflexivity | exact H].
  - cbn [app] in H. apply exec_for_each_cons in H as (s1 & st1 & H1 & H).
    apply IH in H as (s2 & st2 & H2 & H).
    exists s2, st2. split; [|exact H].
    cbn [for_each]. rewrite exec_seq, H1. exact H2.
Qed.

(** The states in which the iterations of a run of the loop begin. *)
Fixpoint iter_states {A S} (l : list A) (body : A -> S -> prog S) (s : S)
    (st : St) : list (A * S * St) :=
  match l with
  | [] => []
  | x :: r =>
      (x, s, st) ::
      match exec (body x s) st with
      | Ok s1 st1 => iter_states r body s1 st1
      | Raise _ => []
      end
  end.

(** A property that every iteration keeps holds when each iteration begins,
    and every iteration of a run that returns does return. *)
Lemma iter_states_inv {A S} (P : S -> St -> Prop) (l : list A)
    (body : A -> S -> prog S) (s s' : S) (st st' : St) :
  exec (for_each l body s) st = Ok s' st' ->
  P s st ->
  (forall x t u t1 u1, In x l -> P t u -> exec (body x t) u = Ok t1 u1 -> P t1 u1) ->
  P s' st' /\
  forall x t u, In (x, t, u) (iter_states l body s st) ->
    In x l /\ P t u /\ exists t1 u1, exec (body x t) u = Ok t1 u1.
Proof.
  revert s st. induction l as [|x l IH]; intros s st H HP Hstep.
  - cbn in H. injection H as <- <-. split; [exact HP|]. intros ? ? ? [].
  - apply exec_for_each_cons in H as (s1 & st1 & H1 & H).
    destruct (IH s1 st1 H) as [Hend Hall].
    { eapply Hstep; [left; reflexivity | exact HP | exact H1]. }
    { intros y t u t1 u1 Hy. apply Hstep. right. exact Hy. }
    split; [exact Hend|].
    intros y t u Hin. cbn [iter_states] in Hin. rewrite H1 in Hin.
    destruct Hin as [[= <- <- <-] | Hin].
    + split; [left; reflexivity|]. split; [exact HP|]. eauto.
    + destruct (Hall y t u Hin) as (Hy & HPt & Hex).
      split; [right; exact Hy|]. auto.
Qed.

(** The policy-driven iterations among [l]. *)
Fixpoint policy_steps (l : list nat) : nat :=
  match l with
  | [] => 0
  | i :: r => (if (i <? 4)%nat then 0 else 1) + policy_steps r
  end.

Lemma policy_steps_seq (n : nat) : policy_steps (seq 4 n) = n.
Proof.
  assert (H : forall k, (4 <= k)%nat -> policy_steps (seq k n) = n).
  { induction n as [|n IH]; intros k Hk; cbn [seq policy_steps]; [reflexivity|].
    apply Nat.ltb_ge in Hk as Hk'. rewrite Hk'. rewrite IH by lia. reflexivity. }
  apply H. lia.
Qed.

(** The records of the policy-driven steps with the actions [acts]. *)
Definition labels_of (acts : list Z) : list Z := flat_map (fun _ => seven) acts.

Definition actions_of (acts : list Z) : list Z :=
  flat_map (fun a => map (fun _ => a) seven) acts.

(** What a run of the loop over the iterations [l] adds up to. *)
Definition loop_acc (l : list nat) (st : St) (D : Delta) (acts : list Z) : Prop :=
  hext (heap st) (next_buf st) (d_heap D) (d_next D) /\
  length acts = policy_steps l /\
  d_model_list D = labels_of acts /\
  d_action_list D = actions_of acts /\
  length (d_pearson D) = (7 * length acts)%nat /\
  length (d_ssim D) = (7 * length acts)%nat /\
  length (d_spearman D) = (7 * length acts)%nat /\
  length (steps_of (d_log D)) = length l /\
  length (comparisons (d_log D)) = (7 * length acts)%nat /\
  d_console D = flat_map progress l.

Lemma loop_delta (L : Locals) (l : list nat) (sf sf' : option Frames)
    (st st' : St) :
  exec (for_each l (loop_body L) sf) st = Ok sf' st' ->
  exists D acts, st' = apply_delta D st /\ loop_acc l st D acts.
Proof.
  revert sf st. induction l as [|i l IH]; intros sf st H.
  - cbn in H. injection H as <- <-.
    exists (no_delta st), []. split; [symmetry; apply apply_no_delta|].
    unfold loop_acc, no_delta. delta_simpl.
    split; [apply hext_refl|]. repeat split; reflexivity.
  - apply exec_for_each_cons in H as (sf1 & st1 & H1 & H).
    apply IH in H as (D2 & acts2 & -> & Hacc2).
    destruct Hacc2 as (Hx2 & Hn2 & Hml2 & Hal2 & Hpe2 & Hss2 & Hsp2 & Hst2 &
                       Hcm2 & Hcon2).
    destruct (Nat.ltb_spec i 4) as [Hi | Hi].
    + apply loop_body_warm in H1
        as (D1 & -> & _ & Hcon1 & Hx1 & Hpe1 & Hss1 & Hsp1 & Hml1 & Hal1 &
            Hst1 & Hcm1 & _); [|exact Hi].
      exists (then_delta D1 D2), acts2.
      split; [apply apply_then_delta|].
      unfold apply_delta in Hx2. st_simpl.
      unfold loop_acc. delta_simpl. cbn [policy_steps flat_map].
      apply Nat.ltb_lt in Hi as Hi'. rewrite Hi'.
      split; [eapply hext_trans; eauto|].
      rewrite Hml1, Hal1, Hpe1, Hss1, Hsp1, Hcon1, steps_of_app,
        comparisons_app, Hst1, Hcm1, length_app.
      cbn [app length]. rewrite Hst2, Hcon2.
      repeat split; auto.
    + apply loop_body_policy in H1
        as (x0 & w & a & e & D1 & og & m0 & m1 & m2 & m3 & m4 & m5 & c1 & c2 &
            c3 & c4 & c5 & u & g & -> & Hw & Harg & He & -> & -> & Hemu1 &
            Hcon1 & Hx1 & Hog & Hml1 & Hal1 & Hpe1 & Hss1 & Hsp1 & Hcs1 & _);
        [|exact Hi].
      exists (then_delta D1 D2), (a :: acts2).
      split; [apply apply_then_delta|].
      unfold apply_delta in Hx2. st_simpl.
      unfold loop_acc. delta_simpl. cbn [policy_steps flat_map].
      apply Nat.ltb_ge in Hi as Hi'. rewrite Hi'.
      split; [eapply hext_trans; eauto|].
      rewrite Hml1, Hal1, Hcon1, steps_of_app, comparisons_app, !length_app,
        Hpe1, Hss1, Hsp1, Hpe2, Hss2, Hsp2, Hst2, Hcm2, Hml2, Hal2, Hcon2.
      rewrite <- (steps_of_calls (d_log D1)),
        <- (comparisons_calls (d_log D1)), Hcs1.
      unfold labels_of, actions_of. cbn [flat_map length policy_calls app
        steps_of comparisons].
      repeat split; try reflexivity; lia.
Qed.

End Loop.

(** ** The verification of a randomisation *)

(** What [check_models] compares and prints, on the weights of the two
    models: a comparison raises when a layer or one of its two arrays is
    missing or when the shapes differ, whatever the values are. *)
Definition compare_weights (w1 w : Model) (i j : nat) : exn + bool :=
  if negb (i <? length w1)%nat then inl ValueError
  else if negb (i <? length w)%nat then inl ValueError
  else
    match w1 !! i with
    | None => inl ValueError
    | Some l1 =>
        match l1 !! j with
        | None => inl IndexError
        | Some a =>
            match w !! i with
            | None => inl ValueError
            | Some l =>
                match l !! j with
                | None => inl IndexError
                | Some b =>
                    match tensor_all_eq a b with
                    | None => inl AttributeError
                    | Some r => inr r
                    end
                end
            end
        end
    end.

Definition layer_report (w1 w : Model) (i : nat) : exn + list line :=
  match compare_weights w1 w i 0 with
  | inl e => inl e
  | inr b0 =>
      match compare_weights w1 w i 1 with
      | inl e => inl e
      | inr b1 => inr [PLayer i; PBool b0; PBool b1]
      end
  end.

Fixpoint check_report (w1 w : Model) (layers : list nat) : exn + list line :=
  match layers with
  | [] => inr []
  | i :: r =>
      match layer_report w1 w i with
      | inl e => inl e
      | inr rep =>
          match check_report w1 w r with
          | inl e => inl e
          | inr rest => inr (rep ++ rest)
          end
      end
  end.

(** The layers [check_models] looks at. *)
Definition checked_layers : list nat := [1; 2; 3; 5; 6]%nat.

Section Check.

Context {E : Externals}.

Lemma compare_stmt (m1 m : nat) (w1 w : Model) (i j : nat) (st : St) :
  models st !! m1 = Some w1 -> models st !! m = Some w ->
  bind (get_layer m1 i)
    (fun l1 => bind (get_layer m i)
       (fun l => bind (weights_all_eq l1 l j)
          (fun b => print (PBool b)))) st =
  match compare_weights w1 w i j with
  | inr b => Ok tt (set_console (console st ++ [PBool b]) st)
  | inl e => Raise e
  end.
Proof.
  intros H1 H. unfold compare_weights, get_layer, weights_all_eq,
    layer_get_weights, get_weights, index, bind, gets, name, ret, raise, print,
    modify.
  cbn [fst snd]. rewrite H1.
  destruct (i <? length w1)%nat; cbn [negb]; [|reflexivity].
  rewrite H.
  destruct (i <? length w)%nat; cbn [negb]; [|reflexivity].
  cbn [fst snd]. rewrite H1.
  destruct (w1 !! i) as [l1|]; [|reflexivity].
  destruct (l1 !! j) as [a|]; [|reflexivity].
  rewrite H.
  destruct (w !! i) as [l|]; [|reflexivity].
  destruct (l !! j) as [b|]; [|reflexivity].
  destruct (tensor_all_eq a b); reflexivity.
Qed.

Lemma check_layer_exec (m1 m : nat) (w1 w : Model) (i : nat) (st : St) :
  models st !! m1 = Some w1 -> models st !! m = Some w ->
  exec
    (seq_prog (stmt (print (PLayer i)))
       (fun _ =>
          seq_prog
            (stmt (bind (get_layer m1 i)
                     (fun l1 => bind (get_layer m i)
                        (fun l => bind (weights_all_eq l1 l 0)
                           (fun b => print (PBool b))))))
            (fun _ =>
               stmt (bind (get_layer m1 i)
                       (fun l1 => bind (get_layer m i)
                          (fun l => bind (weights_all_eq l1 l 1)
                             (fun b => print (PBool b)))))))) st =
  match layer_report w1 w i with
  | inr rep => Ok tt (set_console (console st ++ rep) st)
  | inl e => Raise e
  end.
Proof.
  intros H1 H. rewrite exec_seq, exec_stmt. unfold print at 1, modify at 1.
  rewrite exec_seq, exec_stmt.
  rewrite (compare_stmt m1 m w1 w) by exact H1 || exact H.
  unfold layer_report.
  destruct (compare_weights w1 w i 0) as [e | b0]; [reflexivity|].
  rewrite exec_stmt.
  rewrite (compare_stmt m1 m w1 w) by exact H1 || exact H.
  destruct (compare_weights w1 w i 1) as [e | b1]; [reflexivity|].
  st_simpl. f_equal. rewrite <- !app_assoc. reflexivity.
Qed.

(** A run of [check_models] prints its report or raises, as the weights of
    the two models decide. *)
Lemma check_models_exec (m1 m : nat) (w1 w : Model) (st : St) :
  models st !! m1 = Some w1 -> models st !! m = Some w ->
  exec (check_models m1 m) st =
  match check_report w1 w checked_layers with
  | inr rep => Ok tt (set_console (console st ++ rep) st)
  | inl e => Raise e
  end.
Proof.
  intros H1 H. unfold check_models, checked_layers.
  cbn [seq for_each bool_decide decide_rel check_report].
  repeat match goal with
    | |- context [bool_decide ?P] =>
        first [ rewrite (bool_decide_eq_true_2 P) by lia
              | rewrite (bool_decide_eq_false_2 P) by lia ]
    end.
  repeat (rewrite exec_seq;
          first [ rewrite (check_layer_exec m1 m w1 w) by (st_simpl; assumption);
                  match goal with
                  | |- context [layer_report w1 w ?i] =>
                      destruct (layer_report w1 w i); [reflexivity|]
                  end
                | cbn [exec] ]).
  cbn [exec]. st_simpl. rewrite app_nil_r. f_equal.
  rewrite <- !app_assoc. reflexivity.
Qed.

End Check.

(** ** The cascade of randomised copies *)

Section Cascade.

Context {E : Externals}.

(** The weights of the copy of a model with weights [w] after its layer
    [idx] was re-initialised, and the session afterwards. *)
Definition reinit (w : Model) (idx : nat) (s : Session) : Model * Session :=
  match w !! idx with
  | Some l =>
      let it := init_tensors idx 0 l (snd (clone_weights w s)) in
      (<[idx := fst it]> w, snd it)
  | None => (w, snd (clone_weights w s))
  end.

Lemma insert_at_end {A} (l : list A) (x y : A) :
  <[length l := y]> (l ++ [x]) = l ++ [y].
Proof.
  rewrite insert_app_r_alt by lia. rewrite Nat.sub_diag. reflexivity.
Qed.

Lemma lookup_at_end {A} (l : list A) (x : A) : (l ++ [x]) !! length l = Some x.
Proof. rewrite lookup_app_r by lia. rewrite Nat.sub_diag. reflexivity. Qed.

(** One derivation: a new model with one more layer re-initialised, its
    report on the console, a new analyzer. *)
Lemma derive_variant_run (model idx : nat) (r : nat * nat) (st st' : St) :
  exec (derive_variant model idx) st = Ok r st' ->
  exists w rep,
    models st !! model = Some w /\ (idx < length w)%nat /\
    check_report (fst (reinit w idx (session st))) w checked_layers = inr rep /\
    r = (length (models st), length (analyzers st)) /\
    st' = set_analyzers
            (analyzers st ++ [mkAnalyzer (length (models st)) None false])
            (set_console (console st ++ rep)
               (set_log (log st ++ [EvClone model (length (models st));
                                    EvInit (length (models st)) idx])
                  (set_session (snd (reinit w idx (session st)))
                     (set_models
                        (models st ++ [fst (reinit w idx (session st))])
                        st)))).
Proof.
  intros H. unfold derive_variant in H.
  apply exec_seq_inv in H as (m1 & s1 & Kcopy & H). protect H.
  unfold copy_model, clone_model, set_weights, emit in Kcopy. run_all.
  match goal with
  | Hw : models st !! model = Some _, Hw' : (models st ++ _) !! model = Some _
    |- _ =>
      rewrite lookup_app_l in Hw' by (eapply lookup_lt_Some; exact Hw)
  end.
  simplify_eq. release H. rewrite insert_at_end in H.
  apply exec_seq_inv in H as (ly & s2 & Klayer & H).
  rewrite exec_stmt in Klayer.
  protect H. unfold get_layer in Klayer. run_all.
  rewrite lookup_at_end in *. simplify_eq.
  match goal with
  | Hlt : (idx <? length _)%nat = true |- _ => apply Nat.ltb_lt in Hlt
  end.
  release H.
  apply exec_seq_inv in H as (u & s3 & Kinit & H). protect H.
  unfold init_layer, session_run_initializer, layer_get_weights, emit in Kinit.
  run_all. rewrite lookup_at_end in *. simplify_eq.
  release H. rewrite insert_at_end in H.
  apply exec_seq_inv in H as (u2 & s4 & Kcheck & H).
  match type of Kcheck with
  | exec (check_models ?a ?b) ?s = _ =>
      erewrite (check_models_exec a b _ _ s) in Kcheck;
        [|st_simpl; apply lookup_at_end
         |st_simpl; rewrite lookup_app_l by (eapply lookup_lt_Some; eauto);
          eassumption]
  end.
  match type of Kcheck with
  | match ?c with _ => _ end = _ => destruct c as [e | rep] eqn:Hrep;
                                    [discriminate|]
  end.
  injection Kcheck as <- <-.
  unfold explainer in H. run_all.
  match goal with
  | Hw : models st !! model = Some ?w |- _ => exists w, rep
  end.
  unfold reinit.
  match goal with
  | Hl : _ !! idx = Some _ |- _ => rewrite Hl
  end.
  cbn [fst snd].
  split; [assumption|]. split; [assumption|]. split; [exact Hrep|].
  split; [reflexivity|].
  etransitivity; [apply St_eta|]. symmetry.
  etransitivity; [apply St_eta|]. st_simpl.
  rewrite <- !app_assoc. reflexivity.
Qed.

(** The weights of the variants derived in cascade from [w] at the layers
    [idxs], and the session afterwards. *)
Fixpoint cascade_weights (w : Model) (s : Session) (idxs : list nat)
  : list Model * Session :=
  match idxs with
  | [] => ([], s)
  | i :: r =>
      let ws := reinit w i s in
      let rest := cascade_weights (fst ws) (snd ws) r in
      (fst ws :: fst rest, snd rest)
  end.

(** The layers re-initialised in cascade. *)
Definition cascade_layers : list nat := [6; 5; 3; 2; 1]%nat.

(** The copies and re-initialisations of the cascade from the model [m],
    the first new model being [n]. *)
Definition cascade_log (m n : nat) : list event :=
  [EvClone m n; EvInit n 6;
   EvClone n (n + 1); EvInit (n + 1) 5;
   EvClone (n + 1) (n + 2); EvInit (n + 2) 3;
   EvClone (n + 2) (n + 3); EvInit (n + 3) 2;
   EvClone (n + 3) (n + 4); EvInit (n + 4) 1]%nat.

Lemma cascade_run (game approach : string) (kw : Kwargs) (m : nat)
    (locals : option method -> Locals) (st st' : St) :
  exec (cascade game approach kw m) st = Ok locals st' ->
  exists w0 rep,
    models st !! m = Some w0 /\
    let n := length (models st) in
    let k := length (analyzers st) in
    let ws := cascade_weights w0 (session st) cascade_layers in
    locals = (fun fn => mkLocals game approach kw fn m k (k + 1) (k + 2)
                          (k + 3) (k + 4) (k + 5))%nat /\
    length (fst ws) = 5%nat /\
    st' = set_analyzers
            (analyzers st ++
             [mkAnalyzer m None false; mkAnalyzer n None false;
              mkAnalyzer (n + 1) None false; mkAnalyzer (n + 2) None false;
              mkAnalyzer (n + 3) None false; mkAnalyzer (n + 4) None false])
            (set_console (console st ++ rep)
               (set_log (log st ++ cascade_log m n)
                  (set_session (snd ws)
                     (set_models (models st ++ fst ws) st)))).
Proof.
  intros H. unfold cascade in H.
  apply exec_seq_inv in H as (an0 & s0 & K0 & H). rewrite exec_stmt in K0.
  protect H. unfold explainer in K0. run_all. release H.
  apply exec_seq_inv in H as (v1 & s1 & K1 & H).
  apply derive_variant_run in K1 as (w0 & rep1 & Hw0 & Hi1 & _ & -> & ->).
  st_simpl.
  apply exec_seq_inv in H as (v2 & s2 & K2 & H).
  apply derive_variant_run in K2 as (w1 & rep2 & Hw1 & Hi2 & _ & -> & ->).
  st_simpl. rewrite lookup_at_end in Hw1. injection Hw1 as <-.
  apply exec_seq_inv in H as (v3 & s3 & K3 & H).
  apply derive_variant_run in K3 as (w2 & rep3 & Hw2 & Hi3 & _ & -> & ->).
  st_simpl. rewrite lookup_at_end in Hw2.
  injection Hw2 as <-.
  apply exec_seq_inv in H as (v4 & s4 & K4 & H).
  apply derive_variant_run in K4 as (w3 & rep4 & Hw3 & Hi4 & _ & -> & ->).
  st_simpl. rewrite lookup_at_end in Hw3.
  injection Hw3 as <-.
  apply exec_seq_inv in H as (v5 & s5 & K5 & H).
  apply derive_variant_run in K5 as (w4 & rep5 & Hw4 & Hi5 & _ & -> & ->).
  st_simpl. rewrite lookup_at_end in Hw4.
  injection Hw4 as <-.
  cbn in H. injection H as <- <-.
  exists w0, (rep1 ++ rep2 ++ rep3 ++ rep4 ++ rep5).
  split; [exact Hw0|]. cbn zeta.
  unfold cascade_layers, cascade_log. cbn [cascade_weights fst snd length].
  rewrite !length_app. cbn [length].
  rewrite <- !Nat.add_assoc. cbn [Nat.add].
  split; [reflexivity|].
  split; [reflexivity|].
  etransitivity; [apply St_eta|]. symmetry.
  etransitivity; [apply St_eta|]. st_simpl.
  rewrite ?length_app. cbn [length].
  rewrite <- ?app_assoc. cbn [app].
  rewrite <- ?Nat.add_assoc. cbn [Nat.add].
  reflexivity.
Qed.

End Cascade.

(** ** The run of [sanity_check] *)

(** The method the six lambdas are bound to. *)
Definition approach_method (approach : string) : option method :=
  if String.eqb approach "sarfa" then Some Sarfa
  else if String.eqb approach "lime" then Some Lime
  else if String.eqb approach "rise" then Some Rise
  else if String.eqb approach "occl" then Some Occlusion
  else if String.eqb approach "noise" then Some Greydanus
  else None.

Section Run.

Context {E : Externals}.

Lemma bind_saliency_fns_run (approach : string) (st : St) :
  exec (bind_saliency_fns approach) st = Ok (approach_method approach) st.
Proof.
  unfold bind_saliency_fns, approach_method. cbn.
  destruct (String.eqb approach "sarfa"), (String.eqb approach "lime"),
    (String.eqb approach "rise"), (String.eqb approach "occl"),
    (String.eqb approach "noise"); reflexivity.
Qed.

Lemma set_up_run (game : string) (m : nat) (st st' : St) :
  exec (set_up game) st = Ok m st' ->
  exists path id e,
    game_assets game = Some (path, id) /\ m = length (models st) /\
    st' = set_emulator (Some e)
            (set_console (console st ++ [PSummary (length (models st))])
               (set_models (models st ++ [load_model path])
                  (set_np_rng (np_random_seed 42)
                     (set_action_list []
                        (set_model_list []
                           (set_spearman_list []
                              (set_ssim_list []
                                 (set_pearson_list [] st)))))))).
Proof.
  intros H.
  unfold set_up, load_game, start_game, keras_load_model, env_do, print in H.
  destruct (game_assets game) as [[path id]|] eqn:Hg.
  - run_all. all: simplify_eq.
    all: exists path, id; eexists.
    all: split; [reflexivity|]; split; [reflexivity|].
    all: etransitivity; [apply St_eta|]; symmetry.
    all: etransitivity; [apply St_eta|]; st_simpl; reflexivity.
  - run_all. all: discriminate.
Qed.

(** The state in which the loop begins. *)
Record prelude_post (game approach : string) (kw : Kwargs) (pp_path : string)
    (st : St) (L : Locals) (st' : St) : Prop := {
  pp_assets : exists id, game_assets game = Some (pp_path, id);
  pp_locals :
    let n := length (models st) in
    let k := length (analyzers st) in
    L = mkLocals game approach kw (approach_method approach) n k (k + 1)
          (k + 2) (k + 3) (k + 4) (k + 5);
  pp_models :
    models st' =
    models st ++
    load_model pp_path ::
    fst (cascade_weights (load_model pp_path) (session st) cascade_layers);
  pp_variants :
    length (fst (cascade_weights (load_model pp_path) (session st)
                   cascade_layers)) = 5%nat;
  pp_analyzers :
    let n := length (models st) in
    analyzers st' =
    analyzers st ++
    [mkAnalyzer n None false; mkAnalyzer (n + 1) None false;
     mkAnalyzer (n + 2) None false; mkAnalyzer (n + 3) None false;
     mkAnalyzer (n + 4) None false; mkAnalyzer (n + 5) None false];
  pp_log : log st' = log st ++ cascade_log (length (models st))
                                 (length (models st) + 1);
  pp_mask_store : mask_store st' = mask_store st;
  pp_heap : heap st' = heap st /\ next_buf st' = next_buf st;
  pp_files : files st' = files st;
  pp_emulator : is_Some (emulator st');
  pp_lists :
    pearson_list st' = [] /\ ssim_list st' = [] /\ spearman_list st' = [] /\
    model_list st' = [] /\ action_list st' = []
}.

Lemma prelude_run (game approach : string) (kw : Kwargs) (L : Locals)
    (st st' : St) :
  exec (prelude game approach kw) st = Ok L st' ->
  exists path, prelude_post game approach kw path st L st'.
Proof.
  intros H. unfold prelude in H.
  apply exec_seq_inv in H as (m & s1 & K1 & H).
  apply set_up_run in K1 as (path & id & e & Hg & -> & ->).
  apply exec_seq_inv in H as (locals & s2 & K2 & H).
  apply cascade_run in K2 as (w0 & rep & Hw0 & K2). cbn zeta in K2.
  destruct K2 as (-> & Hlen & ->). st_simpl.
  rewrite lookup_at_end in Hw0. injection Hw0 as <-.
  apply exec_seq_inv in H as (fn & s3 & K3 & H).
  rewrite bind_saliency_fns_run in K3. injection K3 as <- <-.
  apply exec_seq_inv in H as (u & s4 & K4 & H).
  unfold fixed_start_reset, env_do in K4.
  assert (Hs4 : exists e', s4 = set_emulator (Some e')
           (set_analyzers
              (analyzers st ++
               [mkAnalyzer (length (models st)) None false;
                mkAnalyzer (length (models st ++ [load_model path])) None false;
                mkAnalyzer (length (models st ++ [load_model path]) + 1) None false;
                mkAnalyzer (length (models st ++ [load_model path]) + 2) None false;
                mkAnalyzer (length (models st ++ [load_model path]) + 3) None false;
                mkAnalyzer (length (models st ++ [load_model path]) + 4) None false])
              (set_console ((console st ++ [PSummary (length (models st))]) ++ rep)
                 (set_log (log st ++ cascade_log (length (models st))
                                       (length (models st ++ [load_model path])))
                    (set_session
                       (snd (cascade_weights (load_model path) (session st)
                               cascade_layers))
                       (set_models
                          ((models st ++ [load_model path]) ++
                           fst (cascade_weights (load_model path) (session st)
                                  cascade_layers))
                          (set_np_rng (np_random_seed 42)
                             (set_action_list []
                                (set_model_list []
                                   (set_spearman_list []
                                      (set_ssim_list []
                                         (set_pearson_list [] st)))))))))))).
  { protect H. destruct (String.eqb game "pacman"); run_all; eexists;
      (etransitivity; [apply St_eta|]); symmetry;
      (etransitivity; [apply St_eta|]); st_simpl; reflexivity. }
  destruct Hs4 as [e' ->]. clear K4.
  cbn in H. injection H as <- <-.
  rewrite length_app in *. cbn [length] in *.
  exists path. constructor; st_simpl; eauto.
  - rewrite <- app_assoc. reflexivity.
  - cbn zeta. rewrite <- !Nat.add_assoc. cbn [Nat.add]. reflexivity.
Qed.

(** The table [save_results] assembles from the five lists. *)
Definition result_table (st : St) : DataFrame :=
  mkDF ["rand_layer"; "pearson"; "ssim"; "spearman"; "action"]%string
    (length (model_list st))
    (<["action"%string := ColInt (action_list st)]>
       (<["spearman"%string := ColScore (spearman_list st)]>
          (<["ssim"%string := ColScore (ssim_list st)]>
             (<["pearson"%string := ColScore (pearson_list st)]>
                (<["rand_layer"%string := ColInt (model_list st)]> ∅))))).

Lemma save_results_run (path : string) (st st' : St) :
  (0 < length (model_list st))%nat ->
  length (pearson_list st) = length (model_list st) ->
  length (ssim_list st) = length (model_list st) ->
  length (spearman_list st) = length (model_list st) ->
  length (action_list st) = length (model_list st) ->
  exec (save_results path) st = Ok tt st' ->
  exists e,
    emulator st = Some e /\
    st' = set_emulator (Some (env_close e))
            (set_log (log st ++ [EvToCsv path])
               (set_files (<[path := result_table st]> (files st)) st)).
Proof.
  intros Hpos Hpe Hss Hsp Hal H.
  unfold save_results, df_setitem, to_csv, env_do, emit in H.
  cbn [df_len df_columns df_data column_length] in H.
  run_all.
  all: cbn [df_len df_columns df_data column_length] in *.
  all: repeat match goal with
         | H : (_ =? _)%nat = true |- _ => apply Nat.eqb_eq in H
         | H : (_ =? _)%nat = false |- _ => apply Nat.eqb_neq in H
         end.
  all: try lia.
  eexists. split; [eassumption|].
  unfold result_table. rewrite fmap_empty. reflexivity.
Qed.

(** A run of [sanity_check] that returns went through the prelude, the
    loop and the writing of the table. *)
Lemma sanity_check_inv (game approach file : string) (kw : Kwargs)
    (st st' : St) :
  exec (sanity_check game approach file kw) st = Ok tt st' ->
  exists L s0 sf1 s1,
    exec (prelude game approach kw) st = Ok L s0 /\
    exec (for_each (seq 0 steps) (loop_body L) None) s0 = Ok sf1 s1 /\
    exec (save_results (path_join (path_join "results" game) file)) s1
      = Ok tt st'.
Proof.
  intros H. unfold sanity_check in H. cbn zeta in H.
  apply exec_seq_inv in H as (L & s0 & K0 & H).
  apply exec_seq_inv in H as (sf1 & s1 & K1 & H).
  eauto 10.
Qed.

End Run.

(** ** The records of a run *)

Lemma labels_of_length (acts : list Z) :
  length (labels_of acts) = (7 * length acts)%nat.
Proof.
  induction acts as [|a acts IH]; [reflexivity|].
  unfold labels_of in *. cbn [flat_map]. rewrite length_app, IH.
  cbn [seven length]. lia.
Qed.

Lemma actions_of_length (acts : list Z) :
  length (actions_of acts) = (7 * length acts)%nat.
Proof.
  induction acts as [|a acts IH]; [reflexivity|].
  unfold actions_of in *. cbn [flat_map]. rewrite length_app, IH.
  cbn [seven map length]. lia.
Qed.

(** Row [i] carries the label [(i mod 7) + 1]. *)
Lemma labels_of_lookup (acts : list Z) (i : nat) :
  (i < 7 * length acts)%nat ->
  labels_of acts !! i = Some (Z.of_nat (i mod 7) + 1)%Z.
Proof.
  revert i. induction acts as [|a acts IH]; intros i Hi; [cbn in Hi; lia|].
  unfold labels_of in *. cbn [flat_map].
  destruct (Nat.lt_ge_cases i 7) as [Hlt | Hge].
  - rewrite lookup_app_l by (cbn; lia).
    do 7 (destruct i as [|i]; [reflexivity|]). lia.
  - rewrite lookup_app_r by (cbn; lia). cbn [seven length].
    rewrite IH by (cbn [length] in Hi; lia).
    replace i with ((i - 7) + 1 * 7)%nat at 2 by lia.
    rewrite Nat.Div0.mod_add. reflexivity.
Qed.

(** Row [i] carries the action of step [i / 7]. *)
Lemma actions_of_lookup (acts : list Z) (i : nat) :
  actions_of acts !! i = acts !! (i / 7)%nat.
Proof.
  revert i. induction acts as [|a acts IH]; intros i.
  - cbn. rewrite !lookup_nil. reflexivity.
  - unfold actions_of in *. cbn [flat_map].
    destruct (Nat.lt_ge_cases i 7) as [Hlt | Hge].
    + rewrite lookup_app_l by (cbn; lia).
      rewrite (Nat.div_small i 7) by lia.
      do 7 (destruct i as [|i]; [reflexivity|]). lia.
    + rewrite lookup_app_r by (cbn; lia). cbn [seven map length].
      rewrite IH.
      replace i with ((i - 7) + 1 * 7)%nat at 2 by lia.
      rewrite Nat.div_add by lia.
      replace ((i - 7) / 7 + 1)%nat with (S ((i - 7) / 7)) by lia.
      reflexivity.
Qed.

Lemma policy_steps_run : policy_steps (seq 0 steps) = 997%nat.
Proof. reflexivity. Qed.

Section Summary.

Context {E : Externals}.

(** The five lists have one length. *)
Definition aligned (st : St) : Prop :=
  length (pearson_list st) = length (model_list st) /\
  length (ssim_list st) = length (model_list st) /\
  length (spearman_list st) = length (model_list st) /\
  length (action_list st) = length (model_list st).

(** A run that returns: the prelude, then the loop, whose records are those
    of 997 policy-driven steps, then the table. *)
Lemma run_summary (game approach file : string) (kw : Kwargs) (st st' : St) :
  exec (sanity_check game approach file kw) st = Ok tt st' ->
  exists path L s0 sf1 D acts e,
    prelude_post game approach kw path st L s0 /\
    exec (prelude game approach kw) st = Ok L s0 /\
    exec (for_each (seq 0 steps) (loop_body L) None) s0
      = Ok sf1 (apply_delta D s0) /\
    loop_acc (seq 0 steps) s0 D acts /\
    length acts = 997%nat /\
    model_list (apply_delta D s0) = labels_of acts /\
    action_list (apply_delta D s0) = actions_of acts /\
    aligned (apply_delta D s0) /\
    st' = set_emulator (Some e)
            (set_log (log (apply_delta D s0) ++
                      [EvToCsv (path_join (path_join "results" game) file)])
               (set_files
                  (<[path_join (path_join "results" game) file :=
                       result_table (apply_delta D s0)]> (files s0))
                  (apply_delta D s0))).
Proof.
  intros H. apply sanity_check_inv in H as (L & s0 & sf1 & s1 & K0 & K1 & K2).
  pose proof K0 as K0'. apply prelude_run in K0' as [path Hpp].
  pose proof K1 as K1'. apply loop_delta in K1' as (D & acts & -> & Hacc).
  pose proof Hacc as Hacc'.
  destruct Hacc' as (Hx & Hn & Hml & Hal & Hpe & Hss & Hsp & Hst & Hcm & Hcon).
  rewrite policy_steps_run in Hn.
  destruct (pp_lists _ _ _ _ _ _ _ Hpp) as (L1 & L2 & L3 & L4 & L5).
  assert (Hm : model_list (apply_delta D s0) = labels_of acts).
  { unfold apply_delta. st_simpl. rewrite L4, Hml. reflexivity. }
  assert (Ha : action_list (apply_delta D s0) = actions_of acts).
  { unfold apply_delta. st_simpl. rewrite L5, Hal. reflexivity. }
  assert (Hali : aligned (apply_delta D s0)).
  { unfold aligned. rewrite Hm, Ha. unfold apply_delta. st_simpl.
    rewrite L1, L2, L3. cbn [app].
    rewrite labels_of_length, actions_of_length. auto. }
  destruct Hali as (A1 & A2 & A3 & A4).
  apply save_results_run in K2 as (e & He & ->); auto.
  2: { rewrite Hm, labels_of_length. lia. }
  exists path, L, s0, sf1, D, acts, (env_close e).
  repeat (split; [assumption|]).
  split; [unfold aligned; auto|].
  reflexivity.
Qed.

End Summary.

(** * The properties of the specification *)

(** ** Normalisation and similarity *)

Lemma minmax_normalise_is_Some (d : list Q) :
  d <> [] -> exists d', minmax_normalise d = Some d'.
Proof.
  intros Hd. unfold minmax_normalise.
  destruct (data_min_is_Some d Hd) as [lo ->].
  destruct (data_max_is_Some (data_sub d lo) (data_sub_nil d lo Hd)) as [hi ->].
  eauto.
Qed.


Section Total.

Context {E : Externals}.

(** Statements and programs that always return. *)
Definition total_stmt {A} (c : M A) : Prop :=
  forall st, exists a st', c st = Ok a st'.

Inductive total_prog {R} : prog R -> Prop :=
| tp_ret (r : R) : total_prog (Ret r)
| tp_do {A} (c : M A) (k : A -> prog R) :
    total_stmt c -> (forall a, total_prog (k a)) -> total_prog (Do c k).

Lemma total_seq {R S} (p : prog R) (f : R -> prog S) :
  total_prog p -> (forall r, total_prog (f r)) -> total_prog (seq_prog p f).
Proof.
  intros Hp Hf. induction Hp as [r | A c k Hc Hk IH]; cbn [seq_prog].
  - apply Hf.
  - constructor; [exact Hc | exact IH].
Qed.

Lemma total_exec {R} (p : prog R) (st : St) :
  total_prog p -> exists r st', exec p st = Ok r st'.
Proof.
  intros Hp. revert st. induction Hp as [r | A c k Hc Hk IH]; intros st.
  - cbn. eauto.
  - cbn [exec]. destruct (Hc st) as (a & st1 & ->). apply IH.
Qed.

Lemma total_ret {A} (a : A) : total_stmt (ret a).
Proof. intros st. unfold ret. eauto. Qed.

Lemma total_gets {A} (f : St -> A) : total_stmt (gets f).
Proof. intros st. unfold gets. eauto. Qed.

Lemma total_modify (f : St -> St) : total_stmt (modify f).
Proof. intros st. unfold modify. eauto. Qed.

Lemma total_alloc (s : list nat) (d : list Q) : total_stmt (alloc s d).
Proof. intros st. unfold alloc. eauto. Qed.

Lemma total_bind {A B} (c : M A) (k : A -> M B) :
  total_stmt c -> (forall a, total_stmt (k a)) -> total_stmt (bind c k).
Proof.
  intros Hc Hk st. unfold bind. destruct (Hc st) as (a & st1 & ->). apply Hk.
Qed.

End Total.

Ltac total :=
  repeat first
    [ apply tp_ret | apply total_seq | apply tp_do | apply total_bind
    | apply total_ret | apply total_gets | apply total_modify
    | apply total_alloc | intro ].

Section Numeric.

Context {E : Externals}.



(** A call of [calc_sim] on two arrays that are not empty returns. *)
Lemma calc_sim_total (learned random : ndarray) (st : St) :
  (buf random < next_buf st)%positive ->
  data_at (heap st) learned <> [] -> data_at (heap st) random <> [] ->
  exists st', exec (calc_sim learned random PearsonL SsimL SpearmanL) st
              = Ok tt st'.
Proof.
  intros Hb HL HR. unfold calc_sim.
  rewrite exec_seq, exec_stmt. unfold emit at 1, modify at 1.
  destruct (minmax_normalise_is_Some _ HL) as [dL HdL].
  destruct (normalise_image_total learned
              (set_log (log st ++ [EvCalcSim learned random]) st) dL HdL)
    as (rL & s1 & H1).
  rewrite exec_seq, H1.
  apply normalise_image_fields in H1 as (_ & Hs1 & Hx1 & _).
  st_simpl.
  destruct (minmax_normalise_is_Some _ HR) as [dR HdR].
  destruct (normalise_image_total random s1 dR) as (rR & s2 & H2).
  { rewrite (data_at_ext _ _ _ _ random Hx1) by exact Hb. exact HdR. }
  rewrite exec_seq, H2.
  match goal with
  | |- exists st', exec ?p ?s = Ok tt st' =>
      destruct (total_exec p s) as ([] & st' & Ht); [|eauto]
  end.
  unfold arr_rsub, arr_flatten, as_tensor, contents, list_append, emit, stmt.
  total.
Qed.


End Numeric.

(** ** Arrays are never written in place *)

Section Frame.

Context {E : Externals}.

(** The heap of [st'] extends that of [st]. *)
Definition grows (st st' : St) : Prop :=
  hext (heap st) (next_buf st) (heap st') (next_buf st').

(** Statements and programs that only add buffers. *)
Definition growing {A} (c : M A) : Prop :=
  forall st a st', c st = Ok a st' -> grows st st'.

Inductive growing_prog {R} : prog R -> Prop :=
| gp_ret (r : R) : growing_prog (Ret r)
| gp_do {A} (c : M A) (k : A -> prog R) :
    growing c -> (forall a, growing_prog (k a)) -> growing_prog (Do c k).

Lemma grows_refl (st : St) : grows st st.
Proof. apply hext_refl. Qed.

Lemma grows_trans (s1 s2 s3 : St) : grows s1 s2 -> grows s2 s3 -> grows s1 s3.
Proof. apply hext_trans. Qed.

Lemma grows_data (st st' : St) (a : ndarray) :
  grows st st' -> (buf a < next_buf st)%positive ->
  data_at (heap st') a = data_at (heap st) a.
Proof. intros H Hb. exact (data_at_ext _ _ _ _ a H Hb). Qed.

Lemma growing_seq {R S} (p : prog R) (f : R -> prog S) :
  growing_prog p -> (forall r, growing_prog (f r)) -> growing_prog (seq_prog p f).
Proof.
  intros Hp Hf. induction Hp as [r | A c k Hc Hk IH]; cbn [seq_prog].
  - apply Hf.
  - constructor; [exact Hc | exact IH].
Qed.

Lemma growing_stmt {A} (c : M A) : growing c -> growing_prog (stmt c).
Proof. intros Hc. unfold stmt. constructor; [exact Hc | intros a; constructor]. Qed.

Lemma exec_grows {R} (p : prog R) (st st' : St) (r : R) :
  growing_prog p -> exec p st = Ok r st' -> grows st st'.
Proof.
  intros Hp. revert st. induction Hp as [r0 | A c k Hc Hk IH]; intros st H.
  - cbn in H. injection H as _ <-. apply grows_refl.
  - cbn [exec] in H. destruct (c st) as [a s1|] eqn:Hcs; [|discriminate].
    eapply grows_trans; [eapply Hc; exact Hcs | eapply IH; exact H].
Qed.

(** Every state a run goes through extends the state it began in ... *)
Lemma points_grow {R} (p : prog R) (st u : St) :
  growing_prog p -> In u (points p st) -> grows st u.
Proof.
  intros Hp. revert st. induction Hp as [r0 | A c k Hc Hk IH]; intros st H.
  - destruct H.
  - cbn [points] in H. destruct (c st) as [a s1|] eqn:Hcs; [|destruct H].
    destruct H as [<- | H]; [eapply Hc; exact Hcs|].
    eapply grows_trans; [eapply Hc; exact Hcs | eapply IH; exact H].
Qed.

(** ... and is extended by the state in which it ends. *)
Lemma points_grow_final {R} (p : prog R) (st u st' : St) (r : R) :
  growing_prog p -> exec p st = Ok r st' -> In u (points p st) -> grows u st'.
Proof.
  intros Hp. revert st. induction Hp as [r0 | A c k Hc Hk IH]; intros st He H.
  - destruct H.
  - cbn [points] in H. cbn [exec] in He.
    destruct (c st) as [a s1|] eqn:Hcs; [|destruct H].
    destruct H as [<- | H].
    + eapply exec_grows; [apply Hk | exact He].
    + eapply IH; [exact He | exact H].
Qed.

Lemma growing_ret {A} (a : A) : growing (ret a).
Proof. intros st r st' H. apply ret_inv in H as [_ ->]. apply grows_refl. Qed.

Lemma growing_gets {A} (f : St -> A) : growing (gets f).
Proof. intros st r st' H. apply gets_inv in H as [_ ->]. apply grows_refl. Qed.

Lemma growing_raise {A} (e : exn) : growing (@raise E A e).
Proof. intros st r st' H. discriminate. Qed.

Lemma growing_name {A} (o : option A) : growing (name o).
Proof. intros st r st' H. apply name_inv in H as [_ ->]. apply grows_refl. Qed.

Lemma growing_alloc (s : list nat) (d : list Q) : growing (alloc s d).
Proof.
  intros st r st' H. apply alloc_inv in H as [_ ->]. unfold grows. st_simpl.
  apply hext_alloc.
Qed.

Lemma growing_modify (f : St -> St) :
  (forall st, heap (f st) = heap st /\ next_buf (f st) = next_buf st) ->
  growing (modify f).
Proof.
  intros Hf st r st' H. apply modify_inv in H as ->. unfold grows.
  destruct (Hf st) as [-> ->]. apply hext_refl.
Qed.

Lemma growing_bind {A B} (c : M A) (k : A -> M B) :
  growing c -> (forall a, growing (k a)) -> growing (bind c k).
Proof.
  intros Hc Hk st r st' H. apply bind_inv in H as (a & s1 & H1 & H2).
  eapply grows_trans; [eapply Hc; exact H1 | eapply Hk; exact H2].
Qed.

End Frame.

Ltac grow :=
  repeat first
    [ apply gp_ret | apply growing_stmt | apply growing_seq | apply gp_do
    | apply growing_bind | apply growing_ret | apply growing_gets
    | apply growing_raise | apply growing_name | apply growing_alloc
    | apply growing_modify; intros; split; reflexivity
    | progress cbv zeta
    | match goal with
      | |- forall _, _ => intro
      | |- growing_prog (if ?b then _ else _) => destruct b
      | |- growing (if ?b then _ else _) => destruct b
      | |- growing (match ?o with Some _ => _ | None => _ end) => destruct o
      | |- growing match ?x with _ => _ end => destruct x
      end ].

Section FrameRun.

Context {E : Externals}.

Lemma normalise_image_grows (image : ndarray) : growing_prog (normalise_image image).
Proof.
  unfold normalise_image, np_asarray, arr_min, arr_max, arr_sub, arr_div,
    contents.
  grow.
Qed.

Lemma calc_sim_grows (learned random : ndarray) (p s r : lref) :
  growing_prog (calc_sim learned random p s r).
Proof.
  unfold calc_sim. apply growing_seq; [unfold emit; grow|]. intros _.
  apply growing_seq; [apply normalise_image_grows|]. intros l1.
  apply growing_seq; [apply normalise_image_grows|]. intros r1.
  unfold arr_rsub, arr_flatten, as_tensor, contents, list_append.
  destruct p, s, r; grow.
Qed.

Lemma saliency_fn_grows (fn : option method) (an : nat) (kw : Kwargs)
    (x : Frames) (a : option Z) : growing (saliency_fn fn an kw x a).
Proof.
  unfold saliency_fn, generate_explanation, generate_rise_prediction, analyzer,
    set_analyzer, get_weights, emit, to_array.
  grow.
Qed.

Lemma compare_variant_grows (L : Locals) (an : nat) (label : Z) (og : ndarray)
    (x : Frames) (a : Z) : growing_prog (compare_variant L an label og x a).
Proof.
  unfold compare_variant.
  apply growing_seq.
  { apply growing_stmt, growing_bind; [apply saliency_fn_grows|].
    intros m. unfold np_squeeze. grow. }
  intros m. apply growing_seq; [apply calc_sim_grows|]. intros _.
  unfold action_list_append, model_list_append. grow.
Qed.

Lemma compare_random_grows (gaussian : bool) (label : Z) (og : ndarray) (a : Z) :
  growing_prog (compare_random gaussian label og a).
Proof.
  unfold compare_random.
  apply growing_seq; [unfold random_array, emit; grow|].
  intros m. apply growing_seq; [apply calc_sim_grows|]. intros _.
  unfold action_list_append, model_list_append. grow.
Qed.

Lemma policy_step_grows (L : Locals) (sf : option Frames) :
  growing_prog (policy_step L sf).
Proof.
  unfold policy_step.
  apply growing_seq; [grow|]. intros x.
  apply growing_seq; [unfold model_predict, get_weights, emit; grow|].
  intros out.
  apply growing_seq; [grow|]. intros x1.
  apply growing_seq; [grow|]. intros a.
  apply growing_seq; [apply growing_stmt, saliency_fn_grows|]. intros og0.
  apply growing_seq; [unfold np_squeeze; grow|]. intros og.
  repeat (apply growing_seq; [apply compare_variant_grows|]; intros _).
  repeat (apply growing_seq; [apply compare_random_grows|]; intros _).
  constructor.
Qed.

(** C9.  Normalisation happens when two maps are compared and writes no
    array in place: [normalise_image] returns a new array, and at every
    point of a run of [calc_sim] every array that existed when it was called
    (its two arguments among them) holds what it held.  In a policy-driven
    step the seven comparisons are handed one array [og], the map of the
    trained model, and at every point of the step at which this array
    exists it holds what it holds when the step ends. *)
Theorem calc_sim_keeps_inputs (L : Locals) (sf : option Frames) (a : Z)
    (st st' : St) :
  exec (policy_step L sf) st = Ok a st' ->
  (forall image s r s',
      exec (normalise_image image) s = Ok r s' ->
      (next_buf s <= buf r)%positive /\
      forall x, (buf x < next_buf s)%positive ->
                data_at (heap s') x = data_at (heap s) x) /\
  (forall learned random s u x,
      In u (points (calc_sim learned random PearsonL SsimL SpearmanL) s) ->
      (buf x < next_buf s)%positive ->
      data_at (heap u) x = data_at (heap s) x) /\
  exists og c1 c2 c3 c4 c5 c6 c7,
    comparisons (skipn (length (log st)) (log st')) =
      [(og, c1); (og, c2); (og, c3); (og, c4); (og, c5); (og, c6); (og, c7)] /\
    (buf og < next_buf st')%positive /\
    forall u, In u (points (policy_step L sf) st) ->
              (buf og < next_buf u)%positive ->
              data_at (heap u) og = data_at (heap st') og.
Proof.
  intros H. split; [|split].
  - intros image s r s' Hn. split.
    + apply normalise_image_fields in Hn. tauto.
    + intros x Hx. apply grows_data; [|exact Hx].
      eapply exec_grows; [apply normalise_image_grows | exact Hn].
  - intros learned random s u x Hu Hx. apply grows_data; [|exact Hx].
    eapply points_grow; [apply calc_sim_grows | exact Hu].
  - pose proof H as H'.
    apply policy_step_delta in H'
      as (x0 & w & D & og & m0 & m1 & m2 & m3 & m4 & m5 & c1 & c2 & c3 & c4 &
          c5 & c6 & c7 & _ & _ & _ & -> & Hacc).
    destruct Hacc as (_ & Hog & _ & _ & _ & _ & _ & _ & _ & Hcalls & _).
    exists og, c1, c2, c3, c4, c5, c6, c7. split; [|split].
    + unfold apply_delta. st_simpl. rewrite drop_app_length.
      rewrite <- comparisons_calls, Hcalls. reflexivity.
    + exact Hog.
    + intros u Hu Hb. symmetry. apply grows_data; [|exact Hb].
      eapply points_grow_final; [apply policy_step_grows | exact H | exact Hu].
Qed.

End FrameRun.

(** ** Runs that return *)

Section Runs.

Context {E : Externals}.

(** The statement [c] returns from [st]; the program [p] returns from
    [st]. *)
Inductive runs {A} (c : M A) (st : St) : Prop :=
| runs_intro (a : A) (st' : St) : c st = Ok a st' -> runs c st.

Inductive prog_runs {R} (p : prog R) (st : St) : Prop :=
| prog_runs_intro (r : R) (st' : St) : exec p st = Ok r st' -> prog_runs p st.

Lemma runs_bind {A B} (c : M A) (k : A -> M B) (st : St) :
  runs c st -> (forall a s1, c st = Ok a s1 -> runs (k a) s1) ->
  runs (bind c k) st.
Proof.
  intros [a s1 H] Hk. destruct (Hk a s1 H) as [b s2 H2].
  apply (runs_intro _ _ b s2). unfold bind. rewrite H. exact H2.
Qed.

Lemma prog_runs_seq {R S} (p : prog R) (f : R -> prog S) (st : St) :
  prog_runs p st -> (forall r s1, exec p st = Ok r s1 -> prog_runs (f r) s1) ->
  prog_runs (seq_prog p f) st.
Proof.
  intros [r s1 H] Hf. destruct (Hf r s1 H) as [b s2 H2].
  apply (prog_runs_intro _ _ b s2). rewrite exec_seq, H. exact H2.
Qed.

Lemma prog_runs_stmt {A} (c : M A) (st : St) : runs c st -> prog_runs (stmt c) st.
Proof.
  intros [a s1 H]. apply (prog_runs_intro _ _ a s1). rewrite exec_stmt. exact H.
Qed.

Lemma prog_runs_ret {R} (r : R) (st : St) : prog_runs (Ret r) st.
Proof. apply (prog_runs_intro _ _ r st). reflexivity. Qed.

Lemma runs_ret {A} (a : A) (st : St) : runs (ret a) st.
Proof. apply (runs_intro _ _ a st). reflexivity. Qed.

Lemma runs_gets {A} (f : St -> A) (st : St) : runs (gets f) st.
Proof. apply (runs_intro _ _ (f st) st). reflexivity. Qed.

Lemma runs_modify (f : St -> St) (st : St) : runs (modify f) st.
Proof. apply (runs_intro _ _ tt (f st)). reflexivity. Qed.

Lemma runs_alloc (s : list nat) (d : list Q) (st : St) : runs (alloc s d) st.
Proof. eapply runs_intro. unfold alloc. reflexivity. Qed.

Lemma runs_name {A} (o : option A) (st : St) : is_Some o -> runs (name o) st.
Proof. intros [a ->]. apply (runs_intro _ _ a st). reflexivity. Qed.

Lemma runs_total {A} (c : M A) (st : St) : total_stmt c -> runs c st.
Proof. intros H. destruct (H st) as (a & s1 & H1). exact (runs_intro _ _ a s1 H1). Qed.

Lemma prog_runs_total {R} (p : prog R) (st : St) : total_prog p -> prog_runs p st.
Proof.
  intros H. destruct (total_exec p st H) as (r & s1 & H1).
  exact (prog_runs_intro _ _ r s1 H1).
Qed.

Lemma runs_with_env {A} (f : Env -> A * Env) (st : St) :
  is_Some (emulator st) -> runs (with_env f) st.
Proof.
  intros [e He]. eapply runs_intro.
  unfold with_env, bind, gets, name, modify, ret. rewrite He. reflexivity.
Qed.

Lemma runs_env_do (f : Env -> Env) (st : St) :
  is_Some (emulator st) -> runs (env_do f) st.
Proof. apply runs_with_env. Qed.

End Runs.

(** Closes [is_Some (l !! i)] on the stores of a state. *)
Ltac some :=
  st_simpl;
  first [ eassumption
        | eexists; eassumption
        | eexists; reflexivity
        | rewrite lookup_app_l by (eapply lookup_lt_Some; eassumption);
          eexists; eassumption
        | rewrite lookup_at_end; eexists; reflexivity
        | eauto ].

(** One statement forward; what ran before is decomposed. *)
Ltac go_step :=
  first
    [ apply prog_runs_ret
    | apply prog_runs_stmt
    | apply runs_ret | apply runs_gets | apply runs_modify | apply runs_alloc
    | apply runs_env_do; st_simpl; eauto
    | apply runs_with_env; st_simpl; eauto
    | apply runs_name; some
    | apply prog_runs_seq; [| intros ? ? ?; unfold env_do in *; run_all]
    | apply runs_bind; [| intros ? ? ?; unfold env_do in *; run_all] ].

Ltac go := repeat go_step.

Section PreludeRuns.

Context {E : Externals}.

Lemma set_up_total (game path id : string) (st : St) :
  game_assets game = Some (path, id) -> prog_runs (set_up game) st.
Proof.
  intros Hg. unfold set_up, load_game, start_game, keras_load_model, print.
  rewrite Hg.
  destruct (String.eqb game "spaceInvaders" || String.eqb game "breakout");
    go.
Qed.

(** *** Architectures the verification can compare *)

(** The layers of two models have arrays of the same shapes. *)
Definition same_arch (w1 w : Model) : Prop :=
  length w1 = length w /\
  forall i l1 l, w1 !! i = Some l1 -> w !! i = Some l ->
                 map t_shape l1 = map t_shape l.

(** A model with the seven layers of the agents: the layers
    [check_models] looks at hold a kernel and a bias. *)
Definition checkable (w : Model) : Prop :=
  (7 <= length w)%nat /\
  forall i, In i checked_layers ->
            exists l, w !! i = Some l /\ (2 <= length l)%nat.

(** Whether the array [j] of layer [i] holds the same values in both
    models. *)
Definition same_values (w1 w : Model) (i j : nat) : bool :=
  match w1 !! i, w !! i with
  | Some l1, Some l =>
      match l1 !! j, l !! j with
      | Some a, Some b => data_all_eq (t_data a) (t_data b)
      | _, _ => false
      end
  | _, _ => false
  end.

Definition expected_report (w1 w : Model) : list line :=
  flat_map (fun i => [PLayer i; PBool (same_values w1 w i 0);
                      PBool (same_values w1 w i 1)])
    checked_layers.

Lemma same_arch_refl (w : Model) : same_arch w w.
Proof. split; [reflexivity|]. intros i l1 l H1 H2. congruence. Qed.

Lemma init_tensors_shape (idx j : nat) (ts : list tensor) (s : Session) :
  map t_shape (fst (init_tensors idx j ts s)) = map t_shape ts.
Proof.
  revert j s. induction ts as [|t ts IH]; intros j s; [reflexivity|].
  cbn [init_tensors fst map t_shape]. rewrite IH. reflexivity.
Qed.

Lemma reinit_same_arch (w : Model) (idx : nat) (s : Session) :
  same_arch (fst (reinit w idx s)) w.
Proof.
  unfold reinit. destruct (w !! idx) as [l|] eqn:Hl; cbn [fst];
    [|apply same_arch_refl].
  split; [apply length_insert|].
  intros i l1 l' H1 H2. rewrite list_lookup_insert in H1.
  destruct (decide (idx = i /\ (idx < length w)%nat)) as [[-> _]|_].
  - injection H1 as <-. rewrite Hl in H2. injection H2 as <-.
    apply init_tensors_shape.
  - congruence.
Qed.

Lemma checkable_same_arch (w1 w : Model) :
  same_arch w1 w -> checkable w -> checkable w1.
Proof.
  intros [Hlen Hsh] [H7 Hl]. split; [lia|].
  intros i Hi. destruct (Hl i Hi) as (l & Hw & H2).
  destruct (lookup_lt_is_Some_2 w1 i) as [l1 Hw1].
  { rewrite Hlen. eapply lookup_lt_Some. exact Hw. }
  exists l1. split; [exact Hw1|].
  pose proof (Hsh i l1 l Hw1 Hw) as Hm.
  apply (f_equal length) in Hm. rewrite !length_map in Hm. lia.
Qed.

Lemma data_all_eq_spec (a b : list Q) :
  data_all_eq a b = true <-> Forall2 Qeq a b.
Proof.
  revert b. induction a as [|x a IH]; intros [|y b]; cbn [data_all_eq].
  - split; [constructor | reflexivity].
  - split; [discriminate | intros H; inversion H].
  - split; [discriminate | intros H; inversion H].
  - rewrite andb_true_iff, Qeq_bool_iff, IH. split.
    + intros [H1 H2]. constructor; assumption.
    + intros H. inversion H. auto.
Qed.

Lemma compare_weights_ok (w1 w : Model) (i j : nat) :
  same_arch w1 w -> checkable w -> In i checked_layers -> (j < 2)%nat ->
  compare_weights w1 w i j = inr (same_values w1 w i j).
Proof.
  intros [Hlen Hsh] [H7 Hl] Hi Hj. destruct (Hl i Hi) as (l & Hw & H2).
  pose proof (lookup_lt_Some _ _ _ Hw) as Hlt.
  destruct (lookup_lt_is_Some_2 w1 i) as [l1 Hw1]; [lia|].
  pose proof (Hsh i l1 l Hw1 Hw) as Hm.
  assert (Hl1 : length l1 = length l).
  { apply (f_equal length) in Hm. rewrite !length_map in Hm. exact Hm. }
  destruct (lookup_lt_is_Some_2 l j) as [b Hb]; [lia|].
  destruct (lookup_lt_is_Some_2 l1 j) as [a Ha]; [lia|].
  assert (Hs : t_shape a = t_shape b).
  { apply (f_equal (fun x => x !! j)) in Hm.
    change (map t_shape l1) with (t_shape <$> l1) in Hm.
    change (map t_shape l) with (t_shape <$> l) in Hm.
    rewrite !list_lookup_fmap, Ha, Hb in Hm. cbn in Hm. congruence. }
  unfold compare_weights, same_values.
  apply Nat.ltb_lt in Hlt as Hlt'. rewrite Hlen, Hlt'. cbn [negb].
  rewrite Hw1, Ha, Hw, Hb. unfold tensor_all_eq, shape_eqb.
  rewrite bool_decide_eq_true_2 by exact Hs. reflexivity.
Qed.

Lemma check_report_ok (w1 w : Model) :
  same_arch w1 w -> checkable w ->
  check_report w1 w checked_layers = inr (expected_report w1 w).
Proof.
  intros Ha Hc. unfold expected_report.
  assert (H : forall ls, (forall i, In i ls -> In i checked_layers) ->
            check_report w1 w ls =
            inr (flat_map (fun i => [PLayer i; PBool (same_values w1 w i 0);
                                     PBool (same_values w1 w i 1)]) ls)).
  { induction ls as [|i ls IH]; intros Hin; [reflexivity|].
    cbn [check_report flat_map]. unfold layer_report.
    rewrite !(compare_weights_ok w1 w i) by (auto; apply Hin; left; reflexivity).
    rewrite IH by (intros k Hk; apply Hin; right; exact Hk). reflexivity. }
  apply H. auto.
Qed.

Lemma derive_variant_total (model idx : nat) (w : Model) (st : St) :
  models st !! model = Some w -> checkable w -> (idx < 7)%nat ->
  prog_runs (derive_variant model idx) st.
Proof.
  intros Hm Hc Hidx. unfold derive_variant.
  assert (Hlen : (idx < length w)%nat) by (destruct Hc; lia).
  apply prog_runs_seq.
  { unfold copy_model, clone_model, get_weights, set_weights, emit. go. }
  intros m1 s1 Kcopy.
  unfold copy_model, clone_model, set_weights, emit in Kcopy. run_all.
  match goal with
  | Hw : models st !! model = Some _, Hw' : (models st ++ _) !! model = Some _
    |- _ =>
      rewrite lookup_app_l in Hw' by (eapply lookup_lt_Some; exact Hw)
  end.
  simplify_eq. rewrite insert_at_end.
  apply prog_runs_seq.
  { apply prog_runs_stmt. unfold get_layer, get_weights.
    apply runs_bind; [go|]. intros w1 s1 K. run_all.
    rewrite lookup_at_end in *. simplify_eq.
    apply Nat.ltb_lt in Hlen as ->. go. }
  intros ly s2 Klayer. rewrite exec_stmt in Klayer.
  unfold get_layer in Klayer. run_all. rewrite lookup_at_end in *. simplify_eq.
  match goal with
  | Hw : models st !! model = Some ?v |- _ =>
      destruct (lookup_lt_is_Some_2 v idx Hlen) as [l Hl]
  end.
  apply prog_runs_seq.
  { unfold init_layer, session_run_initializer, layer_get_weights, get_weights,
      emit.
    repeat first
      [ match goal with
        | H : (_ ++ [_]) !! length _ = Some _ |- _ =>
            rewrite lookup_at_end in H; simplify_eq
        end
      | rewrite lookup_at_end | rewrite Hl | go_step ]. }
  intros u s3 Kinit.
  unfold init_layer, session_run_initializer, layer_get_weights, emit in Kinit.
  run_all. rewrite lookup_at_end in *. simplify_eq. rewrite insert_at_end.
  apply prog_runs_seq.
  { match goal with
    | |- prog_runs (check_models ?a ?b) ?s =>
        eapply (prog_runs_intro _ _ tt);
        erewrite (check_models_exec a b _ _ s);
          [|st_simpl; apply lookup_at_end
           |st_simpl; rewrite lookup_app_l by (eapply lookup_lt_Some; eauto);
            eassumption]
    end.
    rewrite check_report_ok; [reflexivity | | exact Hc].
    match goal with
    | Hw : models st !! model = Some ?v |- _ =>
        pose proof (reinit_same_arch v idx (session st)) as Hs
    end.
    unfold reinit in Hs. rewrite Hl in Hs. exact Hs. }
  intros u2 s4 Kcheck. unfold explainer. go.
Qed.

Lemma cascade_total (game approach : string) (kw : Kwargs) (m : nat)
    (w : Model) (st : St) :
  models st !! m = Some w -> checkable w ->
  prog_runs (cascade game approach kw m) st.
Proof.
  intros Hm Hc. unfold cascade.
  apply prog_runs_seq; [unfold explainer; go|].
  intros an s1 K. unfold explainer in K. run_all.
  apply prog_runs_seq;
    [eapply derive_variant_total; [st_simpl; exact Hm | exact Hc | lia]|].
  intros v1 s K1.
  apply derive_variant_run in K1 as (w1 & rep1 & Hw1 & _ & _ & -> & ->).
  st_simpl. rewrite Hm in Hw1. injection Hw1 as <-.
  pose proof (checkable_same_arch _ _ (reinit_same_arch w 6 (session st)) Hc)
    as Hc1.
  apply prog_runs_seq;
    [eapply derive_variant_total; [st_simpl; apply lookup_at_end | exact Hc1
                                  | lia]|].
  intros v2 s K2.
  apply derive_variant_run in K2 as (w2 & rep2 & Hw2 & _ & _ & -> & ->).
  st_simpl. rewrite lookup_at_end in Hw2. injection Hw2 as <-.
  match goal with
  | |- context [reinit ?v 5 ?ss] =>
      pose proof (checkable_same_arch _ _ (reinit_same_arch v 5 ss) Hc1) as Hc2
  end.
  apply prog_runs_seq;
    [eapply derive_variant_total; [st_simpl; apply lookup_at_end | exact Hc2
                                  | lia]|].
  intros v3 s K3.
  apply derive_variant_run in K3 as (w3 & rep3 & Hw3 & _ & _ & -> & ->).
  st_simpl. rewrite lookup_at_end in Hw3. injection Hw3 as <-.
  match goal with
  | |- context [reinit ?v 3 ?ss] =>
      pose proof (checkable_same_arch _ _ (reinit_same_arch v 3 ss) Hc2) as Hc3
  end.
  apply prog_runs_seq;
    [eapply derive_variant_total; [st_simpl; apply lookup_at_end | exact Hc3
                                  | lia]|].
  intros v4 s K4.
  apply derive_variant_run in K4 as (w4 & rep4 & Hw4 & _ & _ & -> & ->).
  st_simpl. rewrite lookup_at_end in Hw4. injection Hw4 as <-.
  match goal with
  | |- context [reinit ?v 2 ?ss] =>
      pose proof (checkable_same_arch _ _ (reinit_same_arch v 2 ss) Hc3) as Hc4
  end.
  apply prog_runs_seq;
    [eapply derive_variant_total; [st_simpl; apply lookup_at_end | exact Hc4
                                  | lia]|].
  intros v5 s K5. apply prog_runs_ret.
Qed.

(** The statements before the loop return for each of the four games,
    when the model of the game has the layers [check_models] compares. *)
Lemma prelude_total (game approach path id : string) (kw : Kwargs) (st : St) :
  game_assets game = Some (path, id) -> checkable (load_model path) ->
  prog_runs (prelude game approach kw) st.
Proof.
  intros Hg Hc. unfold prelude.
  apply prog_runs_seq; [eapply set_up_total; exact Hg|].
  intros m s1 K1.
  apply set_up_run in K1 as (path' & id' & e & Hg' & -> & ->).
  rewrite Hg in Hg'. injection Hg' as <- <-.
  apply prog_runs_seq.
  { eapply cascade_total; [st_simpl; apply lookup_at_end | exact Hc]. }
  intros locals s2 K2.
  apply cascade_run in K2 as (w0 & rep & _ & K2). cbn zeta in K2.
  destruct K2 as (-> & _ & ->). st_simpl.
  apply prog_runs_seq.
  { eapply prog_runs_intro. apply bind_saliency_fns_run. }
  intros fn s3 K3. rewrite bind_saliency_fns_run in K3. injection K3 as <- <-.
  apply prog_runs_seq; [|intros; apply prog_runs_ret].
  unfold fixed_start_reset. destruct (String.eqb game "pacman"); go.
Qed.

End PreludeRuns.

(** ** The loop returns *)

Section LoopRuns.

Context {E : Externals}.

(** What the run needs of the libraries with the approach "rise": a
    prediction, an explanation and a random image are not empty. *)
Definition libraries_ok : Prop :=
  (forall w x, predict w x <> []) /\
  (forall kw w mk x a, t_data (rise_explanation kw w mk x a) <> []) /\
  (forall s r, fst (np_random_rand s r) <> []) /\
  (forall s r, fst (np_random_normal s r) <> []).

(** An analyzer whose model exists. *)
Definition bound (u : St) (an : nat) : Prop :=
  exists A, analyzers u !! an = Some A /\ is_Some (models u !! an_model A).

(** The state of the policy-driven steps: the six analyzers hold the masks
    [mk], which exist, and the emulator runs. *)
Definition ready_state (L : Locals) (mk : nat) (u : St) : Prop :=
  all_ready L mk u /\ is_Some (emulator u) /\ is_Some (models u !! model L) /\
  is_Some (mask_store u !! mk) /\ Forall (bound u) (six_analyzers L).

Lemma saliency_fn_ready_runs (fn : option method) (an : nat) (kw : Kwargs)
    (x : Frames) (a : option Z) (mk : nat) (st : St) :
  masks_ready fn an mk st -> is_Some (mask_store st !! mk) -> bound st an ->
  runs (saliency_fn fn an kw x a) st.
Proof.
  intros (-> & A & HA & Hg & Hr) [masks Hmk] (A' & HA' & [w Hw]).
  rewrite HA in HA'. injection HA' as <-.
  eapply runs_intro.
  unfold saliency_fn, name, bind, ret. cbn [generate_explanation].
  unfold generate_rise_prediction, analyzer, get_weights, emit, to_array, bind,
    gets, name, ret, modify, alloc.
  rewrite HA, Hg, HA, Hr, Hmk, Hw. reflexivity.
Qed.

Lemma masks_ready_ext (fn : option method) (an mk : nat) (s s' : St) :
  analyzers s' = analyzers s ->
  masks_ready fn an mk s -> masks_ready fn an mk s'.
Proof. intros He (Hf & A & HA). split; [exact Hf|]. exists A. rewrite He. exact HA. Qed.

Lemma all_ready_ext (L : Locals) (mk : nat) (s s' : St) :
  analyzers s' = analyzers s -> all_ready L mk s -> all_ready L mk s'.
Proof.
  intros He H. unfold all_ready in *. eapply Forall_impl; [exact H|].
  intros an. apply masks_ready_ext. exact He.
Qed.

Lemma bound_ext (an : nat) (s s' : St) :
  analyzers s' = analyzers s -> models s' = models s ->
  bound s an -> bound s' an.
Proof. intros Ha Hm (A & HA & Hw). exists A. rewrite Ha, Hm. auto. Qed.

Lemma bounds_ext (l : list nat) (s s' : St) :
  analyzers s' = analyzers s -> models s' = models s ->
  Forall (bound s) l -> Forall (bound s') l.
Proof.
  intros Ha Hm H. eapply Forall_impl; [exact H|]. intros an.
  apply bound_ext; assumption.
Qed.

(** The state between two comparators of a policy-driven step: the map
    [og] of the trained model exists and is not empty. *)
Definition comparing (L : Locals) (mk : nat) (og : ndarray) (s : St) : Prop :=
  all_ready L mk s /\ is_Some (mask_store s !! mk) /\
  Forall (bound s) (six_analyzers L) /\
  (buf og < next_buf s)%positive /\ data_at (heap s) og <> [].

Lemma comparing_apply (L : Locals) (mk : nat) (og : ndarray) (s : St)
    (d : Delta) :
  comparing L mk og s ->
  hext (heap s) (next_buf s) (d_heap d) (d_next d) ->
  d_analyzers d = analyzers s -> d_mask_store d = mask_store s ->
  comparing L mk og (apply_delta d s).
Proof.
  intros (Hr & Hm & Hb & Hog & Hne) Hx Ha Hs. unfold comparing.
  split; [eapply all_ready_ext; [|exact Hr]; exact Ha|].
  split; [unfold apply_delta; st_simpl; rewrite Hs; exact Hm|].
  split; [eapply bounds_ext; [| |exact Hb]; [exact Ha | reflexivity]|].
  unfold apply_delta. st_simpl.
  split; [destruct Hx as [Hle _]; lia|].
  rewrite (data_at_ext _ _ _ _ og Hx Hog). exact Hne.
Qed.

Lemma in_six_ready (L : Locals) (mk an : nat) (s : St) :
  all_ready L mk s -> In an (six_analyzers L) ->
  masks_ready (saliency_fns L) an mk s.
Proof. intros H Hin. unfold all_ready in H. rewrite List.Forall_forall in H. auto. Qed.

Lemma in_six_bound (L : Locals) (an : nat) (s : St) :
  Forall (bound s) (six_analyzers L) -> In an (six_analyzers L) -> bound s an.
Proof. intros H Hin. rewrite List.Forall_forall in H. auto. Qed.

(** An explanation with the masks at hand: the new array holds it. *)
Lemma saliency_fn_ready_inv (L : Locals) (an mk : nat) (x : Frames)
    (a : option Z) (r : ndarray) (s s' : St) :
  libraries_ok -> masks_ready (saliency_fns L) an mk s ->
  saliency_fn (saliency_fns L) an (kwargs L) x a s = Ok r s' ->
  buf r = next_buf s /\ next_buf s' = Pos.succ (next_buf s) /\
  data_at (heap s') r <> [] /\
  heap s' = <[next_buf s := data_at (heap s') r]> (heap s) /\
  analyzers s' = analyzers s /\ models s' = models s /\
  mask_store s' = mask_store s /\ emulator s' = emulator s.
Proof.
  intros (_ & Hrise & _) (Hf & A & HA & Hg & Hr) H.
  apply saliency_fn_run in H as (meth & A' & w & t & Hm & HA' & Hw & -> & H).
  rewrite Hf in Hm. injection Hm as <-.
  rewrite HA in HA'. injection HA' as <-. rewrite Hg in H.
  destruct H as (mk' & masks & _ & _ & -> & ->).
  unfold explained. st_simpl. rewrite data_at_alloc.
  repeat split; try reflexivity. apply Hrise.
Qed.

Lemma compare_variant_runs (L : Locals) (an : nat) (label : Z) (og : ndarray)
    (x : Frames) (a : Z) (mk : nat) (s : St) :
  libraries_ok -> In an (six_analyzers L) -> comparing L mk og s ->
  prog_runs (compare_variant L an label og x a) s /\
  forall s', exec (compare_variant L an label og x a) s = Ok tt s' ->
             comparing L mk og s'.
Proof.
  intros Hlib Hin Hc. pose proof Hc as (Hr & Hm & Hb & Hog & Hne). split.
  - unfold compare_variant.
    apply prog_runs_seq.
    { apply prog_runs_stmt, runs_bind.
      - eapply saliency_fn_ready_runs;
          [eapply in_six_ready; eauto | exact Hm | eapply in_six_bound; eauto].
      - intros m s1 _. unfold np_squeeze. apply runs_ret. }
    intros m s1 K. rewrite exec_stmt in K.
    apply bind_inv in K as (m0 & s1' & Ks & Kq).
    apply np_squeeze_inv in Kq as [-> ->].
    eapply saliency_fn_ready_inv in Ks
      as (Hbuf & Hnext & Hdata & Hheap & _); [|exact Hlib|eapply in_six_ready; eauto].
    apply prog_runs_seq.
    { destruct (calc_sim_total og (mkArr (buf m0) (squeeze_shape (shape m0))) s1')
        as [s2 H2].
      - st_simpl. rewrite Hbuf, Hnext. lia.
      - rewrite Hheap, data_at_alloc_ne by lia. exact Hne.
      - rewrite data_at_squeeze. exact Hdata.
      - exact (prog_runs_intro _ _ tt s2 H2). }
    intros u s2 _. unfold action_list_append, model_list_append. go.
  - intros s' H.
    apply compare_variant_delta in H
      as (d & m & cand & pe & ss & sp & -> & Hx & _ & _ & _ & _ & _ & _ & _ &
          _ & Hk); [|exact Hog].
    destruct (Hk mk) as (Ha & Hs & _); [eapply in_six_ready; eauto|].
    apply comparing_apply; assumption.
Qed.

Lemma compare_random_runs (L : Locals) (gaussian : bool) (label : Z)
    (og : ndarray) (a : Z) (mk : nat) (s : St) :
  libraries_ok -> comparing L mk og s ->
  prog_runs (compare_random gaussian label og a) s /\
  forall s', exec (compare_random gaussian label og a) s = Ok tt s' ->
             comparing L mk og s'.
Proof.
  intros Hlib Hc. pose proof Hc as (Hr & Hm & Hb & Hog & Hne). split.
  - unfold compare_random.
    apply prog_runs_seq; [unfold random_array, emit; cbv zeta; go|].
    intros m s1 K. rewrite exec_stmt in K. unfold random_array, emit in K.
    cbv zeta in K. run_all.
    apply prog_runs_seq.
    { match goal with
      | |- prog_runs (calc_sim og ?c _ _ _) ?s1 =>
          destruct (calc_sim_total og c s1) as [s2 H2]
      end.
      - st_simpl. lia.
      - st_simpl. rewrite data_at_alloc_ne by lia. exact Hne.
      - st_simpl. rewrite data_at_alloc.
        destruct Hlib as (_ & _ & Hu & Hg). destruct gaussian; [apply Hg | apply Hu].
      - exact (prog_runs_intro _ _ tt s2 H2). }
    intros u s2 _. unfold action_list_append, model_list_append. go.
  - intros s' H.
    apply compare_random_delta in H
      as (d & cand & pe & ss & sp & -> & Hx & _ & _ & _ & _ & _ & _ & _ & _ &
          Ha & Hs); [|exact Hog].
    apply comparing_apply; assumption.
Qed.

Lemma np_argmax_is_Some (l : list Q) : l <> [] -> is_Some (np_argmax l).
Proof. destruct l; [congruence|]. intros _. cbn. eauto. Qed.

Lemma ready_state_ext (L : Locals) (mk : nat) (s s' : St) :
  analyzers s' = analyzers s -> models s' = models s ->
  mask_store s' = mask_store s -> emulator s' = emulator s ->
  ready_state L mk s -> ready_state L mk s'.
Proof.
  intros Ha Hm Hs He (Hr & Hemu & Hmod & Hmk & Hb). unfold ready_state.
  rewrite Hm, Hs, He.
  split; [eapply all_ready_ext; eauto|].
  repeat (split; [assumption|]). eapply bounds_ext; eauto.
Qed.

(** A policy-driven step returns. *)
Lemma policy_step_runs (L : Locals) (x0 : Frames) (mk : nat) (u : St) :
  libraries_ok -> ready_state L mk u ->
  prog_runs (policy_step L (Some x0)) u.
Proof.
  intros Hlib (Hr & Hemu & [w Hw] & Hmk & Hb). unfold policy_step.
  apply prog_runs_seq; [go|]. intros ? ? K. run_all.
  match goal with
  | H : Some _ = Some _ |- _ => injection H as <-
  end.
  apply prog_runs_seq.
  { unfold model_predict, get_weights, emit. go. }
  intros ? ? K. rewrite exec_stmt in K.
  apply model_predict_inv in K as (w' & Hw' & -> & ->).
  apply prog_runs_seq; [go|]. intros ? ? K. run_all.
  destruct (np_argmax_is_Some (predict w' (np_expand_dims x0))) as [a Ha].
  { destruct Hlib as (Hp & _). apply Hp. }
  rewrite Ha.
  apply prog_runs_seq; [go|]. intros ? ? K. run_all.
  assert (Hog : masks_ready (saliency_fns L) (original_analyzer L) mk
                  (set_log (log u ++ [EvPredict (model L) (np_expand_dims x0)]) u)).
  { eapply masks_ready_ext; [|eapply in_six_ready; [exact Hr|left; reflexivity]].
    reflexivity. }
  apply prog_runs_seq.
  { apply prog_runs_stmt. eapply saliency_fn_ready_runs; [exact Hog|exact Hmk|].
    eapply bound_ext; [| |eapply in_six_bound; [exact Hb|left; reflexivity]];
      reflexivity. }
  intros og0 s5 K. rewrite exec_stmt in K.
  eapply saliency_fn_ready_inv in K
    as (Hbuf & Hnext & Hdata & Hheap & Han & Hmo & Hms & _);
    [|exact Hlib|exact Hog].
  st_simpl.
  apply prog_runs_seq; [unfold np_squeeze; go|]. intros og s K.
  rewrite exec_stmt in K. apply np_squeeze_inv in K as [-> ->].
  assert (Hc : comparing L mk (mkArr (buf og0) (squeeze_shape (shape og0))) s5).
  { unfold comparing. st_simpl.
    split; [eapply all_ready_ext; [exact Han|exact Hr]|].
    split; [rewrite Hms; exact Hmk|].
    split; [eapply bounds_ext; [exact Han|exact Hmo|exact Hb]|].
    split; [rewrite Hbuf, Hnext; lia|].
    rewrite data_at_squeeze. exact Hdata. }
  clear - Hlib Hc.
  repeat
    (apply prog_runs_seq;
     [eapply compare_variant_runs; [exact Hlib| |exact Hc];
      unfold six_analyzers; cbn [In]; tauto|];
     intros [] ? ?;
     match goal with
     | K : exec (compare_variant _ ?an _ _ _ _) ?s = Ok tt ?s' |- _ =>
         eapply (compare_variant_runs L an) in K;
           [|exact Hlib|unfold six_analyzers; cbn [In]; tauto|exact Hc];
         clear Hc; rename K into Hc
     end).
  repeat
    (apply prog_runs_seq;
     [eapply compare_random_runs; [exact Hlib|exact Hc]|];
     intros [] ? ?;
     match goal with
     | K : exec (compare_random _ _ _ _) ?s = Ok tt ?s' |- _ =>
         eapply (compare_random_runs L) in K; [|exact Hlib|exact Hc];
         clear Hc; rename K into Hc
     end).
  apply prog_runs_ret.
Qed.

(** A policy-driven iteration leaves a state of the same kind. *)
Lemma loop_body_ready_post (L : Locals) (i : nat) (sf sf' : option Frames)
    (mk : nat) (u u' : St) :
  (4 <= i)%nat -> ready_state L mk u ->
  exec (loop_body L i sf) u = Ok sf' u' ->
  is_Some sf' /\ ready_state L mk u'.
Proof.
  intros Hi Hrs H.
  apply loop_body_policy in H
    as (x1 & w & a & e & D & og & m0 & m1 & m2 & m3 & m4 & m5 & c1 & c2 &
        c3 & c4 & c5 & c6 & c7 & _ & _ & _ & _ & -> & -> & Hemu & _ & _ & _ &
        _ & _ & _ & _ & _ & _ & Hk); [|exact Hi].
  split; [eauto|].
  destruct Hrs as (Hr & He & Hmod & Hmk & Hb).
  destruct (Hk mk Hr) as (Ha & Hs & _).
  unfold ready_state.
  split; [eapply all_ready_ext; [exact Ha|exact Hr]|].
  unfold apply_delta at 1 2 3. st_simpl. rewrite Hemu, Hs.
  split; [eauto|]. split; [exact Hmod|]. split; [exact Hmk|].
  eapply bounds_ext; [exact Ha|reflexivity|exact Hb].
Qed.

(** A policy-driven iteration returns. *)
Lemma loop_body_ready (L : Locals) (i : nat) (x0 : Frames) (mk : nat) (u : St) :
  libraries_ok -> (4 <= i)%nat -> ready_state L mk u ->
  prog_runs (loop_body L i (Some x0)) u.
Proof.
  intros Hlib Hi Hrs.
  unfold loop_body.
  apply prog_runs_seq.
  { destruct (i mod 10 =? 0)%nat; unfold print; go. }
  intros [] s1 K. apply progress_run in K. subst s1.
  apply Nat.ltb_ge in Hi as ->.
  apply prog_runs_seq.
  { eapply policy_step_runs; [exact Hlib|].
    eapply ready_state_ext; [| | | |exact Hrs]; reflexivity. }
  intros a s2 K.
  apply policy_step_delta in K
    as (x1 & w & D & og & m0 & m1 & m2 & m3 & m4 & m5 & c1 & c2 & c3 & c4 &
        c5 & c6 & c7 & _ & _ & _ & -> & Hacc).
  destruct Hacc as (_ & _ & Hemu & _).
  apply prog_runs_seq; [|intros; apply prog_runs_ret].
  apply prog_runs_stmt, runs_bind.
  + apply runs_with_env. unfold apply_delta. st_simpl. rewrite Hemu.
    st_simpl. destruct Hrs as (_ & He & _). exact He.
  + intros x s3 _. unfold emit. go.
Qed.

(** The policy-driven iterations [l] return. *)
Lemma loop_ready (L : Locals) (l : list nat) (x0 : Frames) (mk : nat) (u : St) :
  libraries_ok -> Forall (fun i => 4 <= i)%nat l -> ready_state L mk u ->
  prog_runs (for_each l (loop_body L) (Some x0)) u.
Proof.
  intros Hlib Hl. revert x0 u.
  induction Hl as [|i l Hi Hl IH]; intros x0 u Hrs; [apply prog_runs_ret|].
  cbn [for_each].
  apply prog_runs_seq; [exact (loop_body_ready L i x0 mk u Hlib Hi Hrs)|].
  intros sf' u' K.
  destruct (loop_body_ready_post L i _ sf' mk u u' Hi Hrs K) as [[x1 ->] Hrs'].
  apply IH. exact Hrs'.
Qed.

End LoopRuns.

(** ** The warm-up returns *)

Section WarmRuns.

Context {E : Externals}.

(** An analyzer that has drawn no masks yet. *)
Definition unshared (u : St) (an : nat) : Prop :=
  exists A, analyzers u !! an = Some A /\ masks_generated A = false /\
            is_Some (models u !! an_model A).

(** The state of the warm-up with the approach "rise", before the masks are
    drawn. *)
Definition fresh_state (L : Locals) (u : St) : Prop :=
  saliency_fns L = Some Rise /\ approach L = "rise"%string /\
  NoDup (six_analyzers L) /\ Forall (unshared u) (six_analyzers L) /\
  is_Some (emulator u) /\ is_Some (models u !! model L).

Lemma fresh_state_ext (L : Locals) (s s' : St) :
  analyzers s' = analyzers s -> models s' = models s ->
  is_Some (emulator s') -> fresh_state L s -> fresh_state L s'.
Proof.
  intros Ha Hm He (H1 & H2 & H3 & H4 & _ & H6). unfold fresh_state.
  rewrite Hm. repeat (split; [assumption|]). split; [|auto].
  eapply Forall_impl; [exact H4|]. intros an (A & HA & Hg & Hw).
  exists A. rewrite Ha, Hm. auto.
Qed.

(** The first explanation with the approach "rise" draws the masks. *)
Lemma saliency_fn_fresh_runs (an : nat) (kw : Kwargs) (x : Frames)
    (a : option Z) (st : St) :
  unshared st an -> runs (saliency_fn (Some Rise) an kw x a) st.
Proof.
  intros (A & HA & Hg & [w Hw]).
  assert (Hlt : (an < length (analyzers st))%nat)
    by (eapply lookup_lt_Some; exact HA).
  eapply runs_intro.
  unfold saliency_fn, name, bind, ret. cbn [generate_explanation].
  unfold generate_rise_prediction, analyzer, set_analyzer, get_weights, emit,
    to_array, bind, gets, name, ret, modify, alloc.
  rewrite HA, Hg. st_simpl.
  rewrite list_lookup_insert_eq by exact Hlt.
  cbn [rise_masks an_model]. cbv beta iota. st_simpl.
  rewrite lookup_at_end. cbv beta iota. st_simpl. rewrite Hw. reflexivity.
Qed.

Lemma saliency_fn_fresh_inv (an : nat) (kw : Kwargs) (x : Frames)
    (a : option Z) (r : ndarray) (A : Analyzer) (st st' : St) :
  analyzers st !! an = Some A -> masks_generated A = false ->
  saliency_fn (Some Rise) an kw x a st = Ok r st' ->
  analyzers st' =
    <[an := mkAnalyzer (an_model A) (Some (length (mask_store st))) true]>
      (analyzers st) /\
  mask_store st' = mask_store st ++ [fst (generate_masks kw (np_rng st))] /\
  log st' = log st ++ [EvMasks an (length (mask_store st));
                       EvExplain an x a (Some (length (mask_store st)))] /\
  models st' = models st /\ emulator st' = emulator st /\
  console st' = console st /\ pearson_list st' = pearson_list st /\
  ssim_list st' = ssim_list st /\ spearman_list st' = spearman_list st /\
  model_list st' = model_list st /\ action_list st' = action_list st.
Proof.
  intros HA Hg H.
  apply saliency_fn_run in H as (meth & A' & w & t & Hm & HA' & Hw & -> & H).
  injection Hm as <-. rewrite HA in HA'. injection HA' as <-.
  rewrite Hg in H. cbv zeta in H. destruct H as [-> ->].
  unfold explained. st_simpl. repeat split; reflexivity.
Qed.

Lemma assign_rise_masks_runs (dst src : nat) (t : St) :
  (src < length (analyzers t))%nat -> (dst < length (analyzers t))%nat ->
  runs (assign_rise_masks dst src) t.
Proof.
  intros Hs Hd. apply lookup_lt_is_Some in Hs as [A HA].
  apply lookup_lt_is_Some in Hd as [B HB].
  eapply runs_intro.
  unfold assign_rise_masks, analyzer, set_analyzer, bind, gets, name, ret,
    modify.
  rewrite HA, HB. reflexivity.
Qed.

Lemma assign_masks_generated_runs (dst : nat) (t : St) :
  (dst < length (analyzers t))%nat -> runs (assign_masks_generated dst) t.
Proof.
  intros Hd. apply lookup_lt_is_Some in Hd as [B HB].
  eapply runs_intro.
  unfold assign_masks_generated, analyzer, set_analyzer, bind, gets, name, ret,
    modify.
  rewrite HB. reflexivity.
Qed.

Lemma assign_rise_masks_length (dst src : nat) (u : unit) (t t' : St) :
  assign_rise_masks dst src t = Ok u t' ->
  length (analyzers t') = length (analyzers t).
Proof.
  unfold assign_rise_masks, set_analyzer. intros H. run_all.
  apply length_insert.
Qed.

Lemma assign_masks_generated_length (dst : nat) (u : unit) (t t' : St) :
  assign_masks_generated dst t = Ok u t' ->
  length (analyzers t') = length (analyzers t).
Proof.
  unfold assign_masks_generated, set_analyzer. intros H. run_all.
  apply length_insert.
Qed.

Lemma unshared_lt (u : St) (an : nat) :
  unshared u an -> (an < length (analyzers u))%nat.
Proof. intros (A & HA & _). eapply lookup_lt_Some. exact HA. Qed.

(** The sharing of the masks returns. *)
Lemma share_rise_masks_runs (L : Locals) (x0 : Frames) (u : St) :
  saliency_fns L = Some Rise -> Forall (unshared u) (six_analyzers L) ->
  prog_runs (share_rise_masks L (Some x0)) u.
Proof.
  intros Hf Hall. unfold six_analyzers in Hall.
  repeat match goal with
         | H : Forall _ (_ :: _) |- _ =>
             apply Forall_cons_1 in H as [? H]
         end.
  unfold share_rise_masks. rewrite Hf.
  apply prog_runs_seq.
  { apply prog_runs_stmt, runs_bind; [apply runs_name; eauto|].
    intros x s K. apply name_inv in K as [_ ->].
    apply saliency_fn_fresh_runs. assumption. }
  intros og s1 K. rewrite exec_stmt in K.
  apply bind_inv in K as (x & s & Kn & K). apply name_inv in Kn as [_ ->].
  match goal with
  | H : unshared u (original_analyzer L) |- _ =>
      pose proof H as (A & HA & Hg & _)
  end.
  eapply saliency_fn_fresh_inv in K as (Han & _); [|exact HA|exact Hg].
  apply (f_equal length) in Han. rewrite length_insert in Han.
  repeat match goal with
         | H : unshared u _ |- _ => apply unshared_lt in H
         end.
  repeat
    (apply prog_runs_seq;
     [apply prog_runs_stmt;
      first [apply assign_rise_masks_runs | apply assign_masks_generated_runs];
      lia|];
     intros ? ? ?;
     match goal with
     | K : exec (stmt _) _ = Ok _ _ |- _ =>
         rewrite exec_stmt in K;
         first [apply assign_rise_masks_length in K
               | apply assign_masks_generated_length in K]
     end).
  apply prog_runs_stmt, assign_masks_generated_runs. lia.
Qed.

(** The models the analyzers are bound to never change. *)
Lemma share_one_models (dst src : nat) (ans : list Analyzer) :
  an_model <$> share_one dst src ans = an_model <$> ans.
Proof.
  unfold share_one. destruct (ans !! src) as [A|]; [|reflexivity].
  destruct (ans !! dst) as [B|] eqn:HB; [|reflexivity].
  rewrite list_fmap_insert. cbn [an_model]. apply list_insert_id.
  rewrite list_lookup_fmap, HB. reflexivity.
Qed.

Lemma share_all_models (L : Locals) (ans : list Analyzer) :
  an_model <$> share_all L ans = an_model <$> ans.
Proof. unfold share_all. rewrite !share_one_models. reflexivity. Qed.

Lemma bound_models (u u' : St) (an : nat) :
  an_model <$> analyzers u' = an_model <$> analyzers u ->
  models u' = models u -> bound u an -> bound u' an.
Proof.
  intros Ha Hm (A & HA & Hw).
  apply (f_equal (fun l => l !! an)) in Ha.
  rewrite !list_lookup_fmap, HA in Ha. cbn in Ha.
  destruct (analyzers u' !! an) as [A'|] eqn:HA'; [|discriminate].
  cbn in Ha. injection Ha as Ha. exists A'. rewrite Ha, Hm. auto.
Qed.

Lemma share_block_keeps (L : Locals) (i : nat) (sf : option Frames)
    (s t : St) :
  exec (if shares L i then share_rise_masks L sf else Ret tt) s = Ok tt t ->
  emulator t = emulator s /\ models t = models s.
Proof.
  destruct (shares L i); intros H.
  - apply share_rise_masks_run in H as (x0 & r & s1 & _ & Hs & -> & _).
    apply saliency_fn_delta in Hs as (d & m & -> & _ & _ & _ & Hq & _).
    destruct Hq as (He & _). st_simpl. unfold apply_delta. st_simpl. auto.
  - cbn in H. injection H as <-. auto.
Qed.

(** What runs of a warm-up iteration before [wrapper.step]. *)
Lemma warm_up_step_inv (L : Locals) (i : nat) (sf : option Frames) (a : Z)
    (s s2 : St) :
  exec (warm_up_step L i sf) s = Ok a s2 ->
  exists e,
    emulator s = Some e /\ a = warm_action L /\
    exec (if shares L i then share_rise_masks L sf else Ret tt)
      (set_emulator (Some (snd (action_space_sample e))) s) = Ok tt s2.
Proof.
  intros H2. unfold warm_up_step in H2.
  apply exec_seq_inv in H2 as (a0 & t1 & K1 & H2). rewrite exec_stmt in K1.
  apply with_env_inv in K1 as (e & He & -> & ->).
  apply exec_seq_inv in H2 as (a1 & t2 & K2 & H2).
  assert (a1 = warm_action L /\
          t2 = set_emulator (Some (snd (action_space_sample e))) s) as [-> ->].
  { unfold warm_action. destruct (String.eqb (game L) "breakout");
      rewrite exec_stmt in K2; apply ret_inv in K2 as [-> ->]; auto. }
  apply exec_seq_inv in H2 as ([] & t3 & K3 & H2).
  cbn in H2. injection H2 as <- <-.
  exists e. split; [exact He|]. split; [reflexivity|].
  unfold shares. destruct (String.eqb (approach L) "rise"); cbn [andb];
    [destruct (i =? 3)%nat|]; exact K3.
Qed.

(** A warm-up iteration returns when the emulator runs and the sharing of
    the masks, where it is due, returns. *)
Lemma loop_body_warm_runs (L : Locals) (i : nat) (sf : option Frames) (u : St) :
  (i < 4)%nat -> is_Some (emulator u) ->
  (forall e, emulator u = Some e ->
             prog_runs (if shares L i then share_rise_masks L sf else Ret tt)
               (set_emulator (Some (snd (action_space_sample e)))
                  (set_console (console u ++ progress i) u))) ->
  prog_runs (loop_body L i sf) u.
Proof.
  intros Hi [e He] Hblock. unfold loop_body.
  apply prog_runs_seq.
  { destruct (i mod 10 =? 0)%nat; unfold print; go. }
  intros [] s1 K. apply progress_run in K. subst s1.
  apply Nat.ltb_lt in Hi as ->.
  apply prog_runs_seq.
  { unfold warm_up_step.
    apply prog_runs_seq;
      [apply prog_runs_stmt, runs_with_env; st_simpl; eauto|].
    intros a0 t1 K. rewrite exec_stmt in K.
    apply with_env_inv in K as (e' & He' & -> & ->).
    st_simpl. rewrite He in He'. injection He' as <-.
    apply prog_runs_seq;
      [destruct (String.eqb (game L) "breakout"); go|].
    intros a1 t2 K.
    assert (t2 = set_emulator (Some (snd (action_space_sample e)))
                   (set_console (console u ++ progress i) u)) as ->.
    { destruct (String.eqb (game L) "breakout");
        rewrite exec_stmt in K; apply ret_inv in K as [_ ->]; reflexivity. }
    apply prog_runs_seq; [|intros; apply prog_runs_ret].
    specialize (Hblock e He). unfold shares in Hblock.
    destruct (String.eqb (approach L) "rise"); cbn [andb] in Hblock;
      [destruct (i =? 3)%nat|]; exact Hblock. }
  intros a s2 K.
  apply warm_up_step_inv in K as (e' & _ & _ & K).
  apply share_block_keeps in K as [Hemu _].
  apply prog_runs_seq; [|intros; apply prog_runs_ret].
  apply prog_runs_stmt, runs_bind.
  - apply runs_with_env. rewrite Hemu. st_simpl. eauto.
  - intros x s3 _. unfold emit. go.
Qed.

(** The five lists are those of [u]. *)
Definition same_lists (u u' : St) : Prop :=
  pearson_list u' = pearson_list u /\ ssim_list u' = ssim_list u /\
  spearman_list u' = spearman_list u /\ model_list u' = model_list u /\
  action_list u' = action_list u.

(** A warm-up iteration that shares no masks. *)
Lemma warm_quiet (L : Locals) (i : nat) (sf : option Frames) (u : St) :
  (i < 4)%nat -> shares L i = false -> fresh_state L u ->
  prog_runs (loop_body L i sf) u /\
  forall sf' u', exec (loop_body L i sf) u = Ok sf' u' ->
    is_Some sf' /\ fresh_state L u' /\ mask_store u' = mask_store u /\
    analyzers u' = analyzers u /\
    log u' = log u ++ [EvStep (warm_action L)] /\ same_lists u u'.
Proof.
  intros Hi Hsh Hfr. split.
  - apply loop_body_warm_runs; [exact Hi|destruct Hfr; tauto|].
    intros e He. rewrite Hsh. apply prog_runs_ret.
  - intros sf' u' H. pose proof H as H'.
    apply loop_body_warm_inv in H' as (e & s1 & _ & _ & e2 & _ & -> & _);
      [|exact Hi].
    apply loop_body_warm in H
      as (D & -> & Hemu & _ & _ & Hpe & Hss & Hsp & Hml & Hal & _ & _ & Hq);
      [|exact Hi].
    destruct (Hq Hsh) as (Hlog & Han & Hms).
    split; [eauto|].
    split; [eapply fresh_state_ext; [exact Han|reflexivity|exact Hemu|exact Hfr]|].
    unfold same_lists, apply_delta. st_simpl.
    rewrite Hpe, Hss, Hsp, Hml, Hal, Hlog, !app_nil_r. auto 10.
Qed.

(** The iteration that draws the masks and shares them. *)
Lemma warm_share (L : Locals) (x3 : Frames) (u : St) :
  fresh_state L u ->
  prog_runs (loop_body L 3 (Some x3)) u /\
  forall sf' u', exec (loop_body L 3 (Some x3)) u = Ok sf' u' ->
    let mk := length (mask_store u) in
    is_Some sf' /\ ready_state L mk u' /\
    mask_store u' =
      mask_store u ++ [fst (generate_masks (kwargs L) (np_rng u))] /\
    log u' = log u ++ [EvMasks (original_analyzer L) mk;
                       EvExplain (original_analyzer L) x3 None (Some mk);
                       EvStep (warm_action L)] /\
    same_lists u u'.
Proof.
  intros Hfr. pose proof Hfr as (Hf & Hap & Hnd & Hall & Hemu & Hmod).
  assert (Hsh : shares L 3 = true) by (unfold shares; rewrite Hap; reflexivity).
  split.
  - apply loop_body_warm_runs; [lia|exact Hemu|].
    intros e He. rewrite Hsh. apply share_rise_masks_runs; [exact Hf|].
    eapply Forall_impl; [exact Hall|]. intros an (A & HA & Hg & Hw).
    exists A. st_simpl. auto.
  - intros sf' u' H. cbv zeta.
    apply loop_body_warm_inv in H as (e & s1 & He & K & e2 & He2 & -> & ->);
      [|lia].
    rewrite Hsh in K.
    apply share_rise_masks_run in K as (x0 & r & s1' & Hx & Ks & -> & Hsome).
    injection Hx as <-. rewrite Hf in Ks.
    pose proof Hall as Hall'. unfold six_analyzers in Hall'.
    apply Forall_cons_1 in Hall' as [(A & HA & Hg & Hw) _].
    eapply saliency_fn_fresh_inv in Ks
      as (Han & Hms & Hlog & Hmo & _ & _ & Hpe & Hss & Hsp & Hml & Hal);
      [|st_simpl; exact HA|exact Hg].
    st_simpl.
    split; [eauto|].
    split.
    + unfold ready_state. st_simpl.
      split.
      { unfold all_ready.
        pose proof (share_all_ready L (length (mask_store u)) (analyzers s1')
                      Hnd) as Hr.
        eapply Forall_impl; [apply Hr|].
        - rewrite Han. eexists. split.
          + apply list_lookup_insert_eq. eapply lookup_lt_Some. exact HA.
          + cbn. auto.
        - exact Hsome.
        - intros an Hra. split; [exact Hf|]. exact Hra. }
      split; [eauto|]. split; [rewrite Hmo; exact Hmod|].
      split; [rewrite Hms, lookup_at_end; eauto|].
      eapply Forall_impl; [exact Hall|]. intros an (B & HB & _ & HwB).
      eapply (bound_models u); [| |exists B; auto].
      * st_simpl. rewrite share_all_models, Han, list_fmap_insert.
        cbn [an_model]. apply list_insert_id.
        rewrite list_lookup_fmap, HA. reflexivity.
      * st_simpl. exact Hmo.
    + split; [exact Hms|]. split; [rewrite Hlog, <- app_assoc; reflexivity|].
      unfold same_lists. st_simpl. auto.
Qed.

End WarmRuns.

(** ** The run returns *)

Section RunTotal.

Context {E : Externals}.

(** The policy-driven iterations draw no masks and explain with the masks
    that were shared. *)
Lemma loop_ready_inv (L : Locals) (l : list nat) (sf sf' : option Frames)
    (mk : nat) (u u' : St) :
  Forall (fun i => 4 <= i)%nat l -> ready_state L mk u ->
  is_Some sf ->
  exec (for_each l (loop_body L) sf) u = Ok sf' u' ->
  ready_state L mk u' /\
  exists D, u' = apply_delta D u /\ d_analyzers D = analyzers u /\
            d_mask_store D = mask_store u /\ Forall (uses_masks mk) (d_log D).
Proof.
  intros Hl. revert sf u.
  induction Hl as [|i l Hi Hl IH]; intros sf u Hrs [x0 ->] H.
  - cbn in H. injection H as <- <-. split; [exact Hrs|].
    exists (no_delta u). rewrite apply_no_delta. unfold no_delta. delta_simpl.
    auto.
  - apply exec_for_each_cons in H as (sf1 & u1 & H1 & H).
    destruct (loop_body_ready_post L i _ sf1 mk u u1 Hi Hrs H1)
      as [Hsf1 Hrs1].
    apply loop_body_policy in H1
      as (x1 & w & a & e & D1 & og & m0 & m1 & m2 & m3 & m4 & m5 & c1 & c2 &
          c3 & c4 & c5 & c6 & c7 & _ & _ & _ & _ & _ & -> & _ & _ & _ & _ &
          _ & _ & _ & _ & _ & _ & Hk); [|exact Hi].
    destruct Hrs as (Hr & Hrest).
    destruct (Hk mk Hr) as (Ha1 & Hs1 & Hu1).
    destruct (IH sf1 _ Hrs1 Hsf1 H) as (Hrs' & D2 & -> & Ha2 & Hs2 & Hu2).
    split; [exact Hrs'|].
    exists (then_delta D1 D2). rewrite apply_then_delta.
    unfold apply_delta in Ha2, Hs2. st_simpl. delta_simpl.
    split; [reflexivity|]. split; [congruence|]. split; [congruence|].
    apply Forall_app. auto.
Qed.

(** The four warm-up iterations with the approach "rise": the masks are
    drawn once, in the last of them, by the analyzer of the trained model,
    and shared; nothing is compared and no record is appended. *)
Lemma warm_up_run (L : Locals) (sf4 : option Frames) (s0 s4 : St) :
  fresh_state L s0 ->
  exec (for_each (seq 0 4) (loop_body L) None) s0 = Ok sf4 s4 ->
  let mk := length (mask_store s0) in
  exists x3 masks,
    is_Some sf4 /\ ready_state L mk s4 /\
    mask_store s4 = mask_store s0 ++ [masks] /\
    log s4 = log s0 ++
             [EvStep (warm_action L); EvStep (warm_action L);
              EvStep (warm_action L);
              EvMasks (original_analyzer L) mk;
              EvExplain (original_analyzer L) x3 None (Some mk);
              EvStep (warm_action L)] /\
    same_lists s0 s4.
Proof.
  intros Hfr H. cbv zeta. cbn [seq] in H.
  assert (Hq : forall i, (i < 3)%nat -> shares L i = false).
  { intros i Hi. unfold shares. apply andb_false_iff. right.
    apply Nat.eqb_neq. lia. }
  apply exec_for_each_cons in H as (sf1 & s1 & H1 & H).
  destruct (warm_quiet L 0 None s0) as [_ P1]; [lia|apply Hq; lia|exact Hfr|].
  destruct (P1 _ _ H1) as (_ & Hfr1 & Hm1 & _ & Hl1 & L1).
  apply exec_for_each_cons in H as (sf2 & s2 & H2 & H).
  destruct (warm_quiet L 1 sf1 s1) as [_ P2]; [lia|apply Hq; lia|exact Hfr1|].
  destruct (P2 _ _ H2) as (_ & Hfr2 & Hm2 & _ & Hl2 & L2).
  apply exec_for_each_cons in H as (sf3 & s3 & H3 & H).
  destruct (warm_quiet L 2 sf2 s2) as [_ P3]; [lia|apply Hq; lia|exact Hfr2|].
  destruct (P3 _ _ H3) as ([x3 ->] & Hfr3 & Hm3 & _ & Hl3 & L3).
  apply exec_for_each_cons in H as (sf4' & s4' & H4 & H).
  cbn in H. injection H as <- <-.
  destruct (warm_share L x3 s3 Hfr3) as [_ P4].
  destruct (P4 _ _ H4) as (Hsf & Hrs & Hm4 & Hl4 & L4).
  exists x3, (fst (generate_masks (kwargs L) (np_rng s3))).
  rewrite Hm3, Hm2, Hm1 in *.
  split; [exact Hsf|]. split; [exact Hrs|]. split; [exact Hm4|].
  split.
  - rewrite Hl4, Hl3, Hl2, Hl1, <- !app_assoc. reflexivity.
  - unfold same_lists in *.
    destruct L1 as (? & ? & ? & ? & ?), L2 as (? & ? & ? & ? & ?),
      L3 as (? & ? & ? & ? & ?), L4 as (? & ? & ? & ? & ?).
    repeat split; congruence.
Qed.

Lemma warm_up_total (L : Locals) (s0 : St) :
  fresh_state L s0 ->
  prog_runs (for_each (seq 0 4) (loop_body L) None) s0.
Proof.
  intros Hfr. cbn [seq for_each].
  assert (Hq : forall i, (i < 3)%nat -> shares L i = false).
  { intros i Hi. unfold shares. apply andb_false_iff. right.
    apply Nat.eqb_neq. lia. }
  destruct (warm_quiet L 0 None s0) as [R1 P1]; [lia|apply Hq; lia|exact Hfr|].
  apply prog_runs_seq; [exact R1|]. intros sf1 s1 H1.
  destruct (P1 _ _ H1) as (_ & Hfr1 & _).
  destruct (warm_quiet L 1 sf1 s1) as [R2 P2]; [lia|apply Hq; lia|exact Hfr1|].
  apply prog_runs_seq; [exact R2|]. intros sf2 s2 H2.
  destruct (P2 _ _ H2) as (_ & Hfr2 & _).
  destruct (warm_quiet L 2 sf2 s2) as [R3 P3]; [lia|apply Hq; lia|exact Hfr2|].
  apply prog_runs_seq; [exact R3|]. intros sf3 s3 H3.
  destruct (P3 _ _ H3) as ([x3 ->] & Hfr3 & _).
  destruct (warm_share L x3 s3 Hfr3) as [R4 _].
  apply prog_runs_seq; [exact R4|]. intros sf4 s4 H4. apply prog_runs_ret.
Qed.

Lemma lookup_app_plus {A} (l l2 : list A) (j : nat) :
  (l ++ l2) !! (length l + j)%nat = l2 !! j.
Proof. rewrite lookup_app_r by lia. f_equal. lia. Qed.

Lemma six_fresh_NoDup (k : nat) :
  NoDup [k; k + 1; k + 2; k + 3; k + 4; k + 5]%nat.
Proof.
  repeat (apply NoDup_cons; split;
          [rewrite ?elem_of_cons, elem_of_nil; lia|]).
  apply NoDup_nil_2.
Qed.

(** With the approach "rise" the loop begins before any mask is drawn. *)
Lemma prelude_fresh (game path : string) (kw : Kwargs) (st s0 : St)
    (L : Locals) :
  prelude_post game "rise" kw path st L s0 -> fresh_state L s0.
Proof.
  intros Hpp.
  pose proof (pp_locals _ _ _ _ _ _ _ Hpp) as HL. cbv zeta in HL.
  pose proof (pp_models _ _ _ _ _ _ _ Hpp) as Hm.
  pose proof (pp_variants _ _ _ _ _ _ _ Hpp) as Hv.
  pose proof (pp_analyzers _ _ _ _ _ _ _ Hpp) as Ha. cbv zeta in Ha.
  pose proof (pp_emulator _ _ _ _ _ _ _ Hpp) as He.
  assert (Hlen : length (models s0) = (length (models st) + 6)%nat).
  { rewrite Hm, length_app. cbn [length]. rewrite Hv. lia. }
  subst L. unfold fresh_state, six_analyzers.
  cbn [saliency_fns approach original_analyzer analyzer1 analyzer2 analyzer3
       analyzer4 analyzer5 model].
  split; [reflexivity|]. split; [reflexivity|].
  split; [apply six_fresh_NoDup|].
  split.
  - unfold unshared. rewrite Ha.
    repeat (apply Forall_cons; split); [.. | apply Forall_nil_2];
      (eexists; split;
       [first [ apply list_lookup_middle; reflexivity
              | rewrite lookup_app_plus; reflexivity ]
       | cbn [masks_generated an_model]; split; [reflexivity|];
         apply lookup_lt_is_Some; lia ]).
  - split; [exact He|]. apply lookup_lt_is_Some. lia.
Qed.

Lemma df_setitem_runs (df : DataFrame) (key : string) (c : column) (st : St) :
  df_len df = 0%nat \/ column_length c = df_len df ->
  exists df', df_setitem df key c st = Ok df' st /\
              df_len df' = column_length c.
Proof.
  intros H. unfold df_setitem, ret.
  destruct (df_len df =? 0)%nat eqn:H0; [eauto|].
  apply Nat.eqb_neq in H0. destruct H as [H | H]; [lia|].
  rewrite H, Nat.eqb_refl. eexists. split; [reflexivity|]. cbn. auto.
Qed.

(** The table is assembled and written when the five lists have one
    length. *)
Lemma save_results_total (path : string) (st : St) :
  aligned st -> is_Some (emulator st) -> prog_runs (save_results path) st.
Proof.
  intros (Hpe & Hss & Hsp & Hal) Hemu. unfold save_results.
  apply prog_runs_seq; [go|]. intros df0 s K. run_all.
  apply prog_runs_seq.
  { apply prog_runs_stmt, runs_bind; [go|]. intros l s K. run_all.
    destruct (df_setitem_runs
                (mkDF ["rand_layer"; "pearson"; "ssim"; "spearman"; "action"]%string
                   0 ∅) "rand_layer" (ColInt (model_list st)) st) as (d & Hd & _);
      [left; reflexivity|].
    exact (runs_intro _ _ _ _ Hd). }
  intros df1 s K. rewrite exec_stmt in K.
  apply bind_inv in K as (l & s' & Kg & K). apply gets_inv in Kg as [-> ->].
  destruct (df_setitem_runs
              (mkDF ["rand_layer"; "pearson"; "ssim"; "spearman"; "action"]%string
                 0 ∅) "rand_layer" (ColInt (model_list st)) st) as (d & Hd & Hl1);
    [left; reflexivity|].
  rewrite Hd in K. injection K as -> <-. cbn [column_length] in Hl1.
  apply prog_runs_seq.
  { apply prog_runs_stmt, runs_bind; [go|]. intros l s K. run_all.
    destruct (df_setitem_runs df1 "pearson" (ColScore (pearson_list st)) st)
      as (d & Hd' & _); [right; cbn; lia|].
    exact (runs_intro _ _ _ _ Hd'). }
  intros df2 s K. rewrite exec_stmt in K.
  apply bind_inv in K as (l & s' & Kg & K). apply gets_inv in Kg as [-> ->].
  destruct (df_setitem_runs df1 "pearson" (ColScore (pearson_list st)) st)
    as (d & Hd2 & Hl2); [right; cbn; lia|].
  rewrite Hd2 in K. injection K as -> <-. cbn [column_length] in Hl2.
  apply prog_runs_seq.
  { apply prog_runs_stmt, runs_bind; [go|]. intros l s K. run_all.
    destruct (df_setitem_runs df2 "ssim" (ColScore (ssim_list st)) st)
      as (d & Hd' & _); [right; cbn; lia|].
    exact (runs_intro _ _ _ _ Hd'). }
  intros df3 s K. rewrite exec_stmt in K.
  apply bind_inv in K as (l & s' & Kg & K). apply gets_inv in Kg as [-> ->].
  destruct (df_setitem_runs df2 "ssim" (ColScore (ssim_list st)) st)
    as (d & Hd3 & Hl3); [right; cbn; lia|].
  rewrite Hd3 in K. injection K as -> <-. cbn [column_length] in Hl3.
  apply prog_runs_seq.
  { apply prog_runs_stmt, runs_bind; [go|]. intros l s K. run_all.
    destruct (df_setitem_runs df3 "spearman" (ColScore (spearman_list st)) st)
      as (d & Hd' & _); [right; cbn; lia|].
    exact (runs_intro _ _ _ _ Hd'). }
  intros df4 s K. rewrite exec_stmt in K.
  apply bind_inv in K as (l & s' & Kg & K). apply gets_inv in Kg as [-> ->].
  destruct (df_setitem_runs df3 "spearman" (ColScore (spearman_list st)) st)
    as (d & Hd4 & Hl4); [right; cbn; lia|].
  rewrite Hd4 in K. injection K as -> <-. cbn [column_length] in Hl4.
  apply prog_runs_seq.
  { apply prog_runs_stmt, runs_bind; [go|]. intros l s K. run_all.
    destruct (df_setitem_runs df4 "action" (ColInt (action_list st)) st)
      as (d & Hd' & _); [right; cbn; lia|].
    exact (runs_intro _ _ _ _ Hd'). }
  intros df5 s K. rewrite exec_stmt in K.
  apply bind_inv in K as (l & s' & Kg & K). apply gets_inv in Kg as [-> ->].
  destruct (df_setitem_runs df4 "action" (ColInt (action_list st)) st)
    as (d & Hd5 & Hl5); [right; cbn; lia|].
  rewrite Hd5 in K. injection K as -> <-.
  unfold to_csv, emit. go.
Qed.

Lemma exec_for_each_app_eq {A S} (l1 l2 : list A) (body : A -> S -> prog S)
    (s : S) (st : St) :
  exec (for_each (l1 ++ l2) body s) st =
  match exec (for_each l1 body s) st with
  | Ok s1 st1 => exec (for_each l2 body s1) st1
  | Raise e => Raise e
  end.
Proof.
  revert s st. induction l1 as [|x l1 IH]; intros s st; [reflexivity|].
  cbn [app for_each]. rewrite !exec_seq.
  destruct (exec (body x s) st) as [s1 st1|]; [apply IH | reflexivity].
Qed.

Lemma aligned_nil (st : St) :
  pearson_list st = [] /\ ssim_list st = [] /\ spearman_list st = [] /\
  model_list st = [] /\ action_list st = [] -> aligned st.
Proof.
  intros (H1 & H2 & H3 & H4 & H5). unfold aligned.
  rewrite H1, H2, H3, H4, H5. auto.
Qed.

Lemma aligned_apply (l : list nat) (u : St) (D : Delta) (acts : list Z) :
  aligned u -> loop_acc l u D acts -> aligned (apply_delta D u).
Proof.
  intros (A1 & A2 & A3 & A4) (_ & _ & Hml & Hal & Hpe & Hss & Hsp & _).
  unfold aligned, apply_delta. st_simpl. rewrite !length_app.
  rewrite Hml, Hal, labels_of_length, actions_of_length. lia.
Qed.

(** The loop of a run with the approach "rise" returns, the emulator still
    running, from the state the prelude leaves. *)
Lemma rise_loop_total (L : Locals) (s0 : St) :
  libraries_ok -> fresh_state L s0 ->
  exists sf1 s1,
    exec (for_each (seq 0 steps) (loop_body L) None) s0 = Ok sf1 s1 /\
    is_Some (emulator s1).
Proof.
  intros Hlib Hfr.
  change (seq 0 steps) with (seq 0 4 ++ seq 4 997).
  rewrite exec_for_each_app_eq.
  destruct (warm_up_total L s0 Hfr) as [sf4 s4 H4]. rewrite H4.
  destruct (warm_up_run L sf4 s0 s4 Hfr H4)
    as (x3 & masks & [x4 ->] & Hrs & _).
  assert (Hl : Forall (fun i => 4 <= i)%nat (seq 4 997)).
  { apply List.Forall_forall. intros i Hi. apply in_seq in Hi. lia. }
  destruct (loop_ready L (seq 4 997) x4 _ s4 Hlib Hl Hrs) as [sf1 s1 H1].
  exists sf1, s1. split; [exact H1|].
  eapply loop_ready_inv in H1 as [(_ & He & _) _]; eauto.
Qed.

(** A run of [sanity_check] with the approach "rise" returns for each of
    the four games, when the model of the game has the layers
    [check_models] compares and the libraries return maps, predictions and
    random images that are not empty. *)
Lemma rise_run_total (game path id file : string) (kw : Kwargs) (st : St) :
  libraries_ok -> game_assets game = Some (path, id) ->
  checkable (load_model path) ->
  exists st', exec (sanity_check game "rise" file kw) st = Ok tt st'.
Proof.
  intros Hlib Hg Hc.
  assert (H : prog_runs (sanity_check game "rise" file kw) st).
  { unfold sanity_check. cbv zeta.
    apply prog_runs_seq; [eapply prelude_total; eauto|].
    intros L s0 K0. apply prelude_run in K0 as [path' Hpp].
    pose proof (prelude_fresh _ _ _ _ _ _ Hpp) as Hfr.
    destruct (rise_loop_total L s0 Hlib Hfr) as (sf1 & s1 & H1 & He).
    apply prog_runs_seq; [exact (prog_runs_intro _ _ _ _ H1)|].
    intros sf1' s1' K1. rewrite H1 in K1. injection K1 as <- <-.
    apply save_results_total; [|exact He].
    apply loop_delta in H1 as (D & acts & -> & Hacc).
    eapply aligned_apply; [|exact Hacc].
    apply aligned_nil. exact (pp_lists _ _ _ _ _ _ _ Hpp). }
  destruct H as [[] st' H]. eauto.
Qed.

End RunTotal.

(** The small instance is one for which the run returns. *)
Lemma toy_libraries_ok : libraries_ok.
Proof. repeat split; intros; discriminate. Qed.

Lemma toy_checkable : checkable toy_model.
Proof.
  split; [cbn; lia|]. intros i Hi. unfold checked_layers in Hi. cbn [In] in Hi.
  destruct Hi as [<- | [<- | [<- | [<- | [<- | []]]]]];
    (eexists; split; [reflexivity | cbn; lia]).
Qed.

(** ** Properties of a whole run *)

(** The run of the small instance, the game "breakout" explained with the
    approach "rise", returns. *)
Lemma toy_run :
  exists st',
    exec (sanity_check "breakout" "rise" "rise.csv" tt) toy_init = Ok tt st'.
Proof.
  apply (rise_run_total "breakout" "../models/BreakoutIngame_5M.h5"
           "BreakoutNoFrameskip-v4").
  - exact toy_libraries_ok.
  - reflexivity.
  - exact toy_checkable.
Qed.

Section RunLemmas.

Context {E : Externals}.

Lemma exec_for_each_one {A S} (x : A) (body : A -> S -> prog S) (s : S)
    (st : St) :
  exec (for_each [x] body s) st = exec (body x s) st.
Proof.
  cbn [for_each]. rewrite exec_seq.
  destruct (exec (body x s) st); reflexivity.
Qed.

(** Every iteration of a loop that returns begins. *)
Lemma iter_states_indices {A S} (l : list A) (body : A -> S -> prog S)
    (s s' : S) (st st' : St) :
  exec (for_each l body s) st = Ok s' st' ->
  map (fun t => fst (fst t)) (iter_states l body s st) = l.
Proof.
  revert s st. induction l as [|x l IH]; intros s st H; [reflexivity|].
  apply exec_for_each_cons in H as (s1 & st1 & H1 & H).
  cbn [iter_states map fst]. rewrite H1. f_equal. eapply IH. exact H.
Qed.

Lemma loop_body_delta (L : Locals) (i : nat) (sf sf' : option Frames)
    (u u' : St) :
  exec (loop_body L i sf) u = Ok sf' u' ->
  exists D acts, u' = apply_delta D u /\ loop_acc [i] u D acts.
Proof.
  intros H. apply (loop_delta L [i] sf sf').
  rewrite exec_for_each_one. exact H.
Qed.

(** When an iteration of the loop begins, the models are those the prelude
    left and the five lists have one length. *)
Lemma iterations (L : Locals) (l : list nat) (sf sf' : option Frames)
    (s0 s1 : St) :
  exec (for_each l (loop_body L) sf) s0 = Ok sf' s1 ->
  aligned s0 ->
  forall i t u, In (i, t, u) (iter_states l (loop_body L) sf s0) ->
    In i l /\ models u = models s0 /\ aligned u /\
    exists t1 u1, exec (loop_body L i t) u = Ok t1 u1.
Proof.
  intros H Ha.
  destruct (iter_states_inv (fun _ u => models u = models s0 /\ aligned u)
              l (loop_body L) sf sf' s0 s1 H) as [_ Hall].
  - auto.
  - intros x t u t1 u1 _ [Hm Hal] Hx.
    apply loop_body_delta in Hx as (D & acts & -> & Hacc).
    split; [exact Hm|]. eapply aligned_apply; eauto.
  - intros i t u Hin. destruct (Hall i t u Hin) as (Hi & [Hm Hal] & Hex).
    auto.
Qed.


End RunLemmas.


(** ** The records and the table *)

Section Table.

Context {E : Externals}.

Lemma result_table_columns (s : St) :
  df_columns (result_table s)
    = ["rand_layer"; "pearson"; "ssim"; "spearman"; "action"]%string /\
  df_len (result_table s) = length (model_list s) /\
  df_data (result_table s) !! "rand_layer"%string = Some (ColInt (model_list s)) /\
  df_data (result_table s) !! "pearson"%string = Some (ColScore (pearson_list s)) /\
  df_data (result_table s) !! "ssim"%string = Some (ColScore (ssim_list s)) /\
  df_data (result_table s) !! "spearman"%string
    = Some (ColScore (spearman_list s)) /\
  df_data (result_table s) !! "action"%string = Some (ColInt (action_list s)).
Proof.
  unfold result_table. cbn [df_columns df_len df_data].
  repeat split;
    repeat first [ rewrite lookup_insert_eq; reflexivity
                 | rewrite lookup_insert_ne by discriminate ].
Qed.

(** A run that returns wrote the table of the lists the loop left, which
    hold the records of 997 policy-driven steps. *)
Lemma run_table (game approach file : string) (kw : Kwargs) (st st' : St) :
  exec (sanity_check game approach file kw) st = Ok tt st' ->
  exists L s0 sf1 s1 acts,
    exec (prelude game approach kw) st = Ok L s0 /\
    exec (for_each (seq 0 steps) (loop_body L) None) s0 = Ok sf1 s1 /\
    aligned s0 /\ aligned s1 /\
    length acts = 997%nat /\
    model_list s1 = labels_of acts /\ action_list s1 = actions_of acts /\
    files st' !! path_join (path_join "results" game) file
      = Some (result_table s1) /\
    same_lists s1 st'.
Proof.
  intros H.
  apply run_summary in H
    as (path & L & s0 & sf1 & D & acts & e & Hpp & K0 & K1 & _ & Hn & Hml &
        Hal & Hali & ->).
  exists L, s0, sf1, (apply_delta D s0), acts.
  split; [exact K0|]. split; [exact K1|].
  split; [apply aligned_nil; exact (pp_lists _ _ _ _ _ _ _ Hpp)|].
  split; [exact Hali|]. split; [exact Hn|]. split; [exact Hml|].
  split; [exact Hal|].
  split; [st_simpl; apply lookup_insert_eq|].
  unfold same_lists. st_simpl. auto.
Qed.

(** The iterations of the warm-up append no record. *)
Lemma warm_up_lists (L : Locals) (sf4 : option Frames) (s0 s4 : St) :
  exec (for_each (seq 0 4) (loop_body L) None) s0 = Ok sf4 s4 ->
  same_lists s0 s4.
Proof.
  intros H. apply loop_delta in H as (D & acts & -> & Hacc).
  destruct Hacc as (_ & Hn & Hml & Hal & Hpe & Hss & Hsp & _).
  cbn in Hn. apply length_zero_iff_nil in Hn. subst acts. cbn in *.
  apply length_zero_iff_nil in Hpe, Hss, Hsp.
  unfold same_lists, apply_delta. st_simpl.
  rewrite Hml, Hal, Hpe, Hss, Hsp, !app_nil_r. auto.
Qed.

(** What a policy-driven iteration appends: the labels 1 to 7, seven times
    the action, seven scores of each kind. *)
Lemma policy_records (L : Locals) (i : nat) (sf sf' : option Frames)
    (u u' : St) :
  (4 <= i)%nat -> exec (loop_body L i sf) u = Ok sf' u' ->
  exists x0 a og m0 m1 m2 m3 m4 m5 c1 c2 c3 c4 c5 c6 c7 pe ss sp,
    sf = Some x0 /\
    model_list u' = model_list u ++ [1; 2; 3; 4; 5; 6; 7]%Z /\
    action_list u' = action_list u ++ [a; a; a; a; a; a; a] /\
    pearson_list u' = pearson_list u ++ pe /\ length pe = 7%nat /\
    ssim_list u' = ssim_list u ++ ss /\ length ss = 7%nat /\
    spearman_list u' = spearman_list u ++ sp /\ length sp = 7%nat /\
    calls (drop (length (log u)) (log u')) =
      policy_calls L x0 a og m0 m1 m2 m3 m4 m5 c1 c2 c3 c4 c5 c6 c7 ++
      [EvStep a].
Proof.
  intros Hi H.
  apply loop_body_policy in H
    as (x0 & w & a & e & D & og & m0 & m1 & m2 & m3 & m4 & m5 & c1 & c2 &
        c3 & c4 & c5 & c6 & c7 & -> & _ & _ & _ & _ & -> & _ & _ & _ & _ &
        Hml & Hal & Hpe & Hss & Hsp & Hcalls & _); [|exact Hi].
  exists x0, a, og, m0, m1, m2, m3, m4, m5, c1, c2, c3, c4, c5, c6, c7,
    (d_pearson D), (d_ssim D), (d_spearman D).
  unfold apply_delta. st_simpl. rewrite Hml, Hal, drop_app_length.
  unfold seven in *. cbn [map]. auto 15.
Qed.

(** C3, amended.  In a run that returns the loop does its 1001
    iterations.  The first four are the warm-up: after them the five lists
    are as empty as the prelude left them.  Each of the 997 iterations that
    follow appends seven elements to each list, and the table that is
    written has one row for each of them: 6979 = 7 * 997 rows (not 7000, not
    6993). *)
Theorem run_rows (game approach file : string) (kw : Kwargs) (st st' : St) :
  exec (sanity_check game approach file kw) st = Ok tt st' ->
  exists L s0 sf4 s4 sf1 s1 df,
    exec (prelude game approach kw) st = Ok L s0 /\
    map (fun t => fst (fst t))
      (iter_states (seq 0 steps) (loop_body L) None s0) = seq 0 1001 /\
    exec (for_each (seq 0 4) (loop_body L) None) s0 = Ok sf4 s4 /\
    pearson_list s4 = [] /\ ssim_list s4 = [] /\ spearman_list s4 = [] /\
    model_list s4 = [] /\ action_list s4 = [] /\
    exec (for_each (seq 4 997) (loop_body L) sf4) s4 = Ok sf1 s1 /\
    (forall i sf u,
        In (i, sf, u) (iter_states (seq 4 997) (loop_body L) sf4 s4) ->
        exists sf' u',
          exec (loop_body L i sf) u = Ok sf' u' /\
          length (model_list u') = (length (model_list u) + 7)%nat /\
          length (action_list u') = (length (action_list u) + 7)%nat /\
          length (pearson_list u') = (length (pearson_list u) + 7)%nat /\
          length (ssim_list u') = (length (ssim_list u) + 7)%nat /\
          length (spearman_list u') = (length (spearman_list u) + 7)%nat) /\
    files st' !! path_join (path_join "results" game) file = Some df /\
    df_len df = 6979%nat /\ df_len df = (7 * 997)%nat /\
    df_len df = length (model_list s1).
Proof.
  intros H.
  apply run_table in H
    as (L & s0 & sf1 & s1 & acts & K0 & K1 & Hal0 & Hal1 & Hn & Hml & Hacts &
        Hfile & _).
  pose proof (iter_states_indices _ _ _ _ _ _ K1) as Hidx.
  pose proof K1 as K1'.
  change (seq 0 steps) with (seq 0 4 ++ seq 4 997) in K1'.
  apply exec_for_each_app in K1' as (sf4 & s4 & K4 & K5).
  pose proof (warm_up_lists L sf4 s0 s4 K4) as (L1 & L2 & L3 & L4 & L5).
  pose proof (run_summary game approach file kw st) as _.
  assert (Hnil : pearson_list s0 = [] /\ ssim_list s0 = [] /\
                 spearman_list s0 = [] /\ model_list s0 = [] /\
                 action_list s0 = []).
  { apply prelude_run in K0 as [path Hpp].
    exact (pp_lists _ _ _ _ _ _ _ Hpp). }
  destruct Hnil as (N1 & N2 & N3 & N4 & N5).
  exists L, s0, sf4, s4, sf1, s1, (result_table s1).
  split; [exact K0|]. split; [exact Hidx|]. split; [exact K4|].
  split; [congruence|]. split; [congruence|]. split; [congruence|].
  split; [congruence|]. split; [congruence|]. split; [exact K5|].
  split.
  { intros i sf u Hin.
    assert (Hal4 : aligned s4).
    { apply aligned_nil. repeat split; congruence. }
    destruct (iterations L _ _ _ _ _ K5 Hal4 i sf u Hin)
      as (Hi & _ & _ & sf' & u' & Hx).
    apply in_seq in Hi. exists sf', u'. split; [exact Hx|].
    apply policy_records in Hx
      as (x0 & a & og & m0 & m1 & m2 & m3 & m4 & m5 & c1 & c2 & c3 & c4 & c5 &
          c6 & c7 & pe & ss & sp & _ & -> & -> & -> & Hpe & -> & Hss & -> &
          Hsp & _); [|lia].
    rewrite !length_app, Hpe, Hss, Hsp. cbn [length]. auto. }
  split; [exact Hfile|].
  destruct (result_table_columns s1) as (_ & -> & _).
  rewrite Hml, labels_of_length, Hn. auto.
Qed.


(** C10, amended.  Whenever an iteration of the loop begins, and when the
    run has ended, the five lists have one length; a comparator appends one
    element to each of them, the three scores first and the action and the
    label afterwards, so that between these appends the lengths differ.  In
    the table that is written, row [i] has the label [(i mod 7) + 1] and two
    rows of one step ([i / 7 = j / 7]) carry the same action. *)
Theorem lists_aligned (game approach file : string) (kw : Kwargs)
    (st st' : St) :
  exec (sanity_check game approach file kw) st = Ok tt st' ->
  exists L s0 df ml al,
    exec (prelude game approach kw) st = Ok L s0 /\
    (forall i sf u,
        In (i, sf, u) (iter_states (seq 0 steps) (loop_body L) None s0) ->
        aligned u) /\
    aligned st' /\
    (forall an label og x a u u',
        (buf og < next_buf u)%positive ->
        exec (compare_variant L an label og x a) u = Ok tt u' ->
        exists pe ss sp,
          pearson_list u' = pearson_list u ++ [pe] /\
          ssim_list u' = ssim_list u ++ [ss] /\
          spearman_list u' = spearman_list u ++ [sp] /\
          model_list u' = model_list u ++ [label] /\
          action_list u' = action_list u ++ [a]) /\
    (forall gaussian label og a u u',
        (buf og < next_buf u)%positive ->
        exec (compare_random gaussian label og a) u = Ok tt u' ->
        exists pe ss sp,
          pearson_list u' = pearson_list u ++ [pe] /\
          ssim_list u' = ssim_list u ++ [ss] /\
          spearman_list u' = spearman_list u ++ [sp] /\
          model_list u' = model_list u ++ [label] /\
          action_list u' = action_list u ++ [a]) /\
    files st' !! path_join (path_join "results" game) file = Some df /\
    df_data df !! "rand_layer"%string = Some (ColInt ml) /\
    df_data df !! "action"%string = Some (ColInt al) /\
    length ml = 6979%nat /\ length al = 6979%nat /\
    (forall i, (i < 6979)%nat -> ml !! i = Some (Z.of_nat (i mod 7) + 1)%Z) /\
    (forall i j, (i < 6979)%nat -> (j < 6979)%nat -> (i / 7 = j / 7)%nat ->
                 is_Some (al !! i) /\ al !! i = al !! j).
Proof.
  intros H.
  apply run_table in H
    as (L & s0 & sf1 & s1 & acts & K0 & K1 & Hal0 & Hal1 & Hn & Hml & Hacts &
        Hfile & Hsame).
  exists L, s0, (result_table s1), (model_list s1), (action_list s1).
  split; [exact K0|].
  split.
  { intros i sf u Hin.
    destruct (iterations L _ _ _ _ _ K1 Hal0 i sf u Hin) as (_ & _ & Ha & _).
    exact Ha. }
  split.
  { destruct Hsame as (S1 & S2 & S3 & S4 & S5). unfold aligned.
    rewrite S1, S2, S3, S4, S5. exact Hal1. }
  split.
  { intros an label og x a u u' Hog Hx.
    apply compare_variant_delta in Hx
      as (d & m & cand & pe & ss & sp & -> & _ & _ & _ & Hpe & Hss & Hsp &
          Hm & Ha & _); [|exact Hog].
    exists pe, ss, sp. unfold apply_delta. st_simpl.
    rewrite Hpe, Hss, Hsp, Hm, Ha. auto. }
  split.
  { intros gaussian label og a u u' Hog Hx.
    apply compare_random_delta in Hx
      as (d & cand & pe & ss & sp & -> & _ & _ & _ & Hpe & Hss & Hsp & Hm &
          Ha & _); [|exact Hog].
    exists pe, ss, sp. unfold apply_delta. st_simpl.
    rewrite Hpe, Hss, Hsp, Hm, Ha. auto. }
  split; [exact Hfile|].
  destruct (result_table_columns s1) as (_ & _ & H3 & _ & _ & _ & H7).
  split; [exact H3|]. split; [exact H7|].
  rewrite Hml, Hacts, labels_of_length, actions_of_length, Hn.
  split; [reflexivity|]. split; [reflexivity|].
  change 6979%nat with (7 * 997)%nat.
  split.
  - intros i Hi. apply labels_of_lookup. lia.
  - intros i j Hi Hj Hij. rewrite !actions_of_lookup, Hij.
    split; [|reflexivity].
    apply lookup_lt_is_Some. rewrite Hn.
    apply Nat.Div0.div_lt_upper_bound. lia.
Qed.

(** Whether a run goes through a state that satisfies [f]; the search stops
    at the first one. *)
Fixpoint any_point {R} (f : St -> bool) (p : prog R) (st : St) : bool :=
  match p with
  | Ret _ => false
  | Do c k =>
      match c st with
      | Ok a st' => if f st' then true else any_point f (k a) st'
      | Raise _ => false
      end
  end.

Lemma any_point_spec {R} (f : St -> bool) (p : prog R) (st : St) :
  any_point f p st = true -> exists u, In u (points p st) /\ f u = true.
Proof.
  revert st. induction p as [r | A c k IH]; intros st H; [discriminate|].
  cbn [any_point points] in *. destruct (c st) as [a st1|]; [|discriminate].
  destruct (f st1) eqn:Hf.
  - exists st1. split; [left; reflexivity | exact Hf].
  - destruct (IH a st1 H) as (u & Hu & Hfu). exists u.
    split; [right; exact Hu | exact Hfu].
Qed.

End Table.

Lemma run_rows_witness :
  exists st' df,
    exec (sanity_check "breakout" "rise" "rise.csv" tt) toy_init = Ok tt st' /\
    files st' !! "results/breakout/rise.csv"%string = Some df /\
    df_len df = 6979%nat.
Proof.
  destruct toy_run as [st' H].
  destruct (run_rows (E := toy) "breakout" "rise" "rise.csv" tt toy_init st' H)
    as (L & s0 & sf4 & s4 & sf1 & s1 & df & _ & _ & _ & _ & _ & _ & _ & _ & _ &
        _ & Hf & Hlen & _).
  exists st', df. auto.
Defined.

(** The completed run of the small instance wrote a table of 6979 rows. *)
Lemma run_rows_not_7000 :
  exists st' df,
    exec (sanity_check "breakout" "rise" "rise.csv" tt) toy_init = Ok tt st' /\
    files st' !! "results/breakout/rise.csv"%string = Some df /\
    df_len df = 6979%nat /\ df_len df <> 7000%nat.
Proof.
  destruct toy_run as [st' H]. pose proof H as H'.
  apply (run_table (E := toy)) in H'
    as (L & s0 & sf1 & s1 & acts & _ & _ & _ & _ & Hn & Hml & _ & Hfile & _).
  exists st', (result_table s1). split; [exact H|]. split; [exact Hfile|].
  destruct (result_table_columns (E := toy) s1) as (_ & -> & _).
  rewrite Hml, labels_of_length, Hn. split; [reflexivity | discriminate].
Qed.


Lemma lists_aligned_witness :
  exists st',
    exec (sanity_check "breakout" "rise" "rise.csv" tt) toy_init = Ok tt st' /\
    aligned st'.
Proof.
  destruct toy_run as [st' H].
  destruct (lists_aligned (E := toy) "breakout" "rise" "rise.csv" tt toy_init
              st' H)
    as (L & s0 & df & ml & al & _ & _ & Ha & _).
  exists st'. auto.
Defined.

(** In the first policy-driven step of the small instance, after the first
    call of [calc_sim] has appended its scores, the list of Pearson scores
    is longer than the list of labels. *)
Lemma lists_differ_inside_comparator :
  exists u,
    In u (points (sanity_check "breakout" "rise" "rise.csv" tt) toy_init) /\
    length (pearson_list u) <> length (model_list u).
Proof.
  destruct (any_point_spec (E := toy)
              (fun u => negb (length (pearson_list u) =? length (model_list u))%nat)
              (sanity_check (E := toy) "breakout" "rise" "rise.csv" tt)
              toy_init)
    as (u & Hu & Hf).
  - vm_compute. reflexivity.
  - exists u. split; [exact Hu|].
    apply negb_true_iff, Nat.eqb_neq in Hf. exact Hf.
Qed.

(** ** The masks of the approach "rise" *)

Section Masks.

Context {E : Externals}.

(** C5.  In a run with the approach "rise" that returns, the trace of the
    four warm-up iterations is: three steps of the environment, then, in
    the iteration with index 3, one drawing of masks by the analyzer of the
    trained model, its explanation with these masks, and the step.  When
    the first policy-driven iteration begins the six analyzers, the five of
    the copies among them, have the flag [masks_generated] set and hold
    these masks [mk], and no record has been appended.  In the 997
    iterations that follow no masks are drawn, the analyzers and the store
    of masks stay as they are, and every explanation of the 6979
    comparisons uses the masks [mk]. *)
Theorem rise_masks_shared (game file : string) (kw : Kwargs) (st st' : St) :
  exec (sanity_check game "rise" file kw) st = Ok tt st' ->
  exists L s0 sf4 s4 sf1 s1 x3 masks,
    let mk := length (mask_store s0) in
    exec (prelude game "rise" kw) st = Ok L s0 /\
    exec (for_each (seq 0 4) (loop_body L) None) s0 = Ok sf4 s4 /\
    log s4 = log s0 ++
             [EvStep (warm_action L); EvStep (warm_action L);
              EvStep (warm_action L);
              EvMasks (original_analyzer L) mk;
              EvExplain (original_analyzer L) x3 None (Some mk);
              EvStep (warm_action L)] /\
    mask_store s4 = mask_store s0 ++ [masks] /\
    Forall (fun an => exists A, analyzers s4 !! an = Some A /\
                                masks_generated A = true /\
                                rise_masks A = Some mk)
      (six_analyzers L) /\
    same_lists s0 s4 /\
    exec (for_each (seq 4 997) (loop_body L) sf4) s4 = Ok sf1 s1 /\
    analyzers s1 = analyzers s4 /\ mask_store s1 = mask_store s4 /\
    Forall (uses_masks mk) (drop (length (log s4)) (log s1)) /\
    length (comparisons (drop (length (log s4)) (log s1))) = (7 * 997)%nat.
Proof.
  intros H.
  apply sanity_check_inv in H as (L & s0 & sf1 & s1 & K0 & K1 & _).
  pose proof K0 as K0'. apply prelude_run in K0' as [path Hpp].
  pose proof (prelude_fresh _ _ _ _ _ _ Hpp) as Hfr.
  change (seq 0 steps) with (seq 0 4 ++ seq 4 997) in K1.
  apply exec_for_each_app in K1 as (sf4 & s4 & K4 & K5).
  destruct (warm_up_run L sf4 s0 s4 Hfr K4)
    as (x3 & masks & Hsf4 & Hrs & Hms & Hlog & Hsame).
  assert (Hl : Forall (fun i => 4 <= i)%nat (seq 4 997)).
  { apply List.Forall_forall. intros i Hi. apply in_seq in Hi. lia. }
  pose proof K5 as K5'.
  eapply loop_ready_inv in K5' as (_ & D & -> & Ha & Hs & Hu);
    [|exact Hl|exact Hrs|exact Hsf4].
  pose proof K5 as K5'.
  apply loop_delta in K5' as (D' & acts & HD' & Hacc).
  destruct Hacc as (_ & Hn & _ & _ & _ & _ & _ & _ & Hcmp & _).
  rewrite policy_steps_seq in Hn.
  assert (HDD : d_log D' = d_log D).
  { apply (f_equal log) in HD'. unfold apply_delta in HD'. st_simpl.
    apply app_inv_head in HD'. auto. }
  exists L, s0, sf4, s4, sf1, (apply_delta D s4), x3, masks. cbv zeta.
  split; [exact K0|]. split; [exact K4|]. split; [exact Hlog|].
  split; [exact Hms|].
  split.
  { destruct Hrs as (Hr & _). unfold all_ready in Hr.
    eapply Forall_impl; [exact Hr|]. intros an (_ & HA). exact HA. }
  split; [exact Hsame|]. split; [exact K5|].
  unfold apply_delta. st_simpl. rewrite drop_app_length.
  split; [exact Ha|]. split; [exact Hs|]. split; [exact Hu|].
  rewrite <- HDD, Hcmp, Hn. reflexivity.
Qed.

End Masks.

Lemma rise_masks_shared_witness :
  exists st' L s0,
    exec (sanity_check "breakout" "rise" "rise.csv" tt) toy_init = Ok tt st' /\
    exec (prelude "breakout" "rise" tt) toy_init = Ok L s0.
Proof.
  destruct toy_run as [st' H].
  destruct (rise_masks_shared (E := toy) "breakout" "rise.csv" tt toy_init st' H)
    as (L & s0 & sf4 & s4 & sf1 & s1 & x3 & masks & H0 & _).
  exists st', L, s0. auto.
Defined.

(** ** The cascade and its verification *)



(** The weights [v] are those of [w] but for the layer [idx]. *)
Definition differs_only_at (v w : Model) (idx : nat) : Prop :=
  length v = length w /\ forall j, j <> idx -> v !! j = w !! j.

Section CascadeChain.

Context {E : Externals}.

Lemma reinit_differs (w : Model) (idx : nat) (s : Session) :
  differs_only_at (fst (reinit w idx s)) w idx.
Proof.
  unfold reinit, differs_only_at. destruct (w !! idx); cbn [fst].
  - split; [apply length_insert|]. intros j Hj.
    apply list_lookup_insert_ne. auto.
  - auto.
Qed.



Lemma compare_weights_inr (w1 w : Model) (i j : nat) (b : bool) :
  compare_weights w1 w i j = inr b -> b = same_values w1 w i j.
Proof.
  unfold compare_weights, same_values.
  destruct (negb (i <? length w1)%nat); [discriminate|].
  destruct (negb (i <? length w)%nat); [discriminate|].
  destruct (w1 !! i) as [l1|]; [|discriminate].
  destruct (l1 !! j) as [a|]; [|discriminate].
  destruct (w !! i) as [l|]; [|discriminate].
  destruct (l !! j) as [c|]; [|discriminate].
  unfold tensor_all_eq. destruct (shape_eqb (t_shape a) (t_shape c));
    [|discriminate].
  congruence.
Qed.

Lemma check_report_inr (w1 w : Model) (ls : list nat) (rep : list line) :
  check_report w1 w ls = inr rep ->
  rep = flat_map (fun i => [PLayer i; PBool (same_values w1 w i 0);
                            PBool (same_values w1 w i 1)]) ls.
Proof.
  revert rep. induction ls as [|i ls IH]; intros rep H.
  - cbn in H. injection H as <-. reflexivity.
  - cbn [check_report] in H. unfold layer_report in H.
    destruct (compare_weights w1 w i 0) as [|b0] eqn:H0; [discriminate|].
    destruct (compare_weights w1 w i 1) as [|b1] eqn:H1; [discriminate|].
    destruct (check_report w1 w ls) as [|rest]; [discriminate|].
    injection H as <-. apply compare_weights_inr in H0, H1. subst b0 b1.
    cbn [flat_map]. rewrite <- (IH rest eq_refl). reflexivity.
Qed.

Lemma data_all_eq_refl (d : list Q) : data_all_eq d d = true.
Proof. apply data_all_eq_spec. induction d; constructor; [reflexivity|auto]. Qed.

(** C8.  For two models of one architecture, with a kernel and a bias in
    each of the layers 1, 2, 3, 5 and 6, [check_models] returns whatever the
    values of the weights are: it raises nothing and changes nothing but
    the console, where it prints, for each of these layers, whether the
    kernels and whether the biases of the two models hold the same values.
    For a variant just derived from its predecessor it prints True twice
    for every checked layer but the one re-initialised, and for that layer
    False exactly when the new values differ from the old ones.  Every
    derivation that returns has printed this report. *)
Theorem check_models_prints (m1 m : nat) (w1 w : Model) (st : St) :
  models st !! m1 = Some w1 -> models st !! m = Some w ->
  same_arch w1 w -> checkable w ->
  exec (check_models m1 m) st
    = Ok tt (set_console (console st ++ expected_report w1 w) st) /\
  (forall i j, In i checked_layers -> (j < 2)%nat ->
     exists l1 l a b,
       w1 !! i = Some l1 /\ l1 !! j = Some a /\
       w !! i = Some l /\ l !! j = Some b /\
       (same_values w1 w i j = true <-> Forall2 Qeq (t_data a) (t_data b))) /\
  (forall idx s, w1 = fst (reinit w idx s) ->
     forall i j, In i checked_layers -> i <> idx -> (j < 2)%nat ->
                 same_values w1 w i j = true) /\
  (forall model idx r s s',
     exec (derive_variant model idx) s = Ok r s' ->
     exists v,
       models s !! model = Some v /\
       models s' = models s ++ [fst (reinit v idx (session s))] /\
       console s' =
         console s ++ expected_report (fst (reinit v idx (session s))) v).
Proof.
  intros H1 H Ha Hc. split; [|split; [|split]].
  - rewrite (check_models_exec m1 m w1 w st H1 H).
    rewrite (check_report_ok w1 w Ha Hc). reflexivity.
  - intros i j Hi Hj.
    destruct Hc as [_ Hl]. destruct (Hl i Hi) as (l & Hw & H2).
    destruct Ha as [Hlen Hsh].
    destruct (lookup_lt_is_Some_2 w1 i) as [l1 Hw1].
    { rewrite Hlen. eapply lookup_lt_Some. exact Hw. }
    pose proof (Hsh i l1 l Hw1 Hw) as Hm.
    apply (f_equal length) in Hm. rewrite !length_map in Hm.
    destruct (lookup_lt_is_Some_2 l j) as [b Hb]; [lia|].
    destruct (lookup_lt_is_Some_2 l1 j) as [a Ha]; [lia|].
    exists l1, l, a, b. repeat (split; [assumption|]).
    unfold same_values. rewrite Hw1, Hw, Ha, Hb. apply data_all_eq_spec.
  - intros idx s -> i j Hi Hne Hj.
    destruct Hc as [_ Hl]. destruct (Hl i Hi) as (l & Hw & H2).
    destruct (lookup_lt_is_Some_2 l j) as [b Hb]; [lia|].
    destruct (reinit_differs w idx s) as [_ Hd].
    unfold same_values. rewrite (Hd i Hne), Hw, Hb. apply data_all_eq_refl.
  - intros model idx r s s' Hx.
    apply derive_variant_run in Hx as (v & rep & Hv & _ & Hrep & _ & ->).
    exists v. st_simpl. split; [exact Hv|]. split; [reflexivity|].
    apply check_report_inr in Hrep. rewrite Hrep. reflexivity.
Qed.

End CascadeChain.



(** Two models of the small instance: the trained one and its first
    variant. *)
Definition toy_variant : Model := fst (reinit (E := toy) toy_model 6 0%Z).

Definition toy_pair : St := set_models [toy_model; toy_variant] toy_init.

Lemma check_models_prints_witness :
  exec (check_models 1 0) toy_pair
    = Ok tt (set_console
               (console toy_pair ++ expected_report toy_variant toy_model)
               toy_pair) /\
  same_values toy_variant toy_model 5 0 = true.
Proof.
  destruct (check_models_prints (E := toy) 1 0 toy_variant toy_model toy_pair
              eq_refl eq_refl (reinit_same_arch (E := toy) toy_model 6 0%Z)
              toy_checkable)
    as (H1 & _ & H3 & _).
  split; [exact H1|].
  apply (H3 6%nat 0%Z eq_refl); [|lia|lia].
  unfold checked_layers. cbn [In]. auto.
Defined.

(** ** The numeric properties on the small instance *)







(** A state of the small instance in which the six analyzers hold the
    masks 0. *)
Definition toy_locals : Locals :=
  mkLocals (E := toy) "breakout" "rise" tt (Some Rise) 0 0 1 2 3 4 5.

Definition toy_ready : St :=
  set_emulator (E := toy) (Some 0%Z)
    (set_mask_store (E := toy) [0%Z]
       (set_analyzers
          [mkAnalyzer 0 (Some 0%nat) true; mkAnalyzer 1 (Some 0%nat) true;
           mkAnalyzer 2 (Some 0%nat) true; mkAnalyzer 3 (Some 0%nat) true;
           mkAnalyzer 4 (Some 0%nat) true; mkAnalyzer 5 (Some 0%nat) true]
          (set_models
             [toy_model; toy_model; toy_model; toy_model; toy_model; toy_model]
             toy_init))).

Lemma toy_ready_state : ready_state toy_locals 0 toy_ready.
Proof.
  unfold ready_state, all_ready, six_analyzers, masks_ready, bound.
  split.
  { repeat (apply Forall_cons; split); [.. | apply Forall_nil_2];
      (split; [reflexivity|]; eexists; split; [reflexivity|];
       split; reflexivity). }
  split; [eexists; reflexivity|]. split; [eexists; reflexivity|].
  split; [eexists; reflexivity|].
  repeat (apply Forall_cons; split); [.. | apply Forall_nil_2];
    (eexists; split; [reflexivity | eexists; reflexivity]).
Qed.

Lemma calc_sim_keeps_inputs_witness :
  exists a st' og,
    exec (policy_step toy_locals (Some 5%Z)) toy_ready = Ok a st' /\
    (buf og < next_buf st')%positive.
Proof.
  destruct (policy_step_runs (E := toy) toy_locals 5%Z 0 toy_ready
              toy_libraries_ok toy_ready_state) as [a st' H].
  destruct (calc_sim_keeps_inputs (E := toy) toy_locals (Some 5%Z) a toy_ready
              st' H)
    as (_ & _ & og & c1 & c2 & c3 & c4 & c5 & c6 & c7 & _ & Hog & _).
  exists a, st', og. auto.
Defined.
